(** * Gateway-API to Istio conversion: a shallow embedding of
    [pilot/pkg/config/kube/gateway/conversion.go] and its properties. *)

From Stdlib Require Import ZArith Bool Lia SpecFloat Ascii String DecimalString.
From Stdlib Require Import Reals Lra.
From stdpp Require Import base option list strings gmap.

Local Open Scope Z_scope.

(** ** Machine integers

    Go's [int] is 64 bits wide on the platforms Istio ships for; arithmetic
    wraps around in two's complement.  [int32] fields of the API types are
    converted with [int(...)], which never loses information, and back with
    [int32(...)], which truncates. *)

Module GoInt.

Definition wrap64 (z : Z) : Z := (z + 2 ^ 63) mod 2 ^ 64 - 2 ^ 63.
Definition wrap32 (z : Z) : Z := (z + 2 ^ 31) mod 2 ^ 32 - 2 ^ 31.
Definition to_uint32 (z : Z) : Z := z mod 2 ^ 32.

Definition in_int64 (z : Z) : Prop := - 2 ^ 63 <= z < 2 ^ 63.
Definition in_int32 (z : Z) : Prop := - 2 ^ 31 <= z < 2 ^ 31.

Definition add (a b : Z) : Z := wrap64 (a + b).
Definition sub (a b : Z) : Z := wrap64 (a - b).

End GoInt.

(** ** IEEE-754 binary64

    Go's [float64], given by the Standard Library's executable
    specification of binary floating point at precision 53. *)

Module Float64.

Definition prec : Z := 53.
Definition emax : Z := 1024.

Definition float64 : Type := spec_float.

(** [float64(n)] for an integer [n]: round to nearest, ties to even. *)
Definition of_int (z : Z) : float64 := binary_normalize prec emax z 0 false.

Definition div (x y : float64) : float64 := SFdiv prec emax x y.
Definition mul (x y : float64) : float64 := SFmul prec emax x y.
Definition sub (x y : float64) : float64 := SFsub prec emax x y.
Definition ltb (x y : float64) : bool := SFltb x y.

Definition isNaN (x : float64) : bool :=
  match x with S754_nan => true | _ => false end.

(** [int(x)]: the fraction is discarded.  A value that does not fit (or a
    NaN) converts to the smallest integer, as the amd64 and arm64 back ends
    of the Go compiler do. *)
Definition to_int (x : float64) : Z :=
  match x with
  | S754_zero _ => 0
  | S754_finite s m e =>
      let a := Z.shiftl (Zpos m) e in
      let v := if s then - a else a in
      if (- 2 ^ 63 <=? v) && (v <? 2 ^ 63) then v else - 2 ^ 63
  | _ => - 2 ^ 63
  end.

End Float64.

(** ** Package [sort]

    [sort.Sort] sees its argument only through [Len], [Less] and [Swap]. *)

Module GoSort.

Record Interface (S : Type) : Type := {
  Len : S -> nat;
  Less : S -> nat -> nat -> bool;
  Swap : S -> nat -> nat -> S
}.
Arguments Len {S} _ _.
Arguments Less {S} _ _ _ _.
Arguments Swap {S} _ _ _ _.

(** [x[i], x[j] = x[j], x[i]] on a slice. *)
Definition swap_list {A} (l : list A) (i j : nat) : list A :=
  match l !! i, l !! j with
  | Some a, Some b => <[j := a]> (<[i := b]> l)
  | _, _ => l
  end.

(** [sort.Float64Slice]: [Less] orders NaN before every other value. *)
Definition Float64Slice : Interface (list Float64.float64) := {|
  Len := fun x => length x;
  Less := fun x i j =>
    match x !! i, x !! j with
    | Some a, Some b =>
        Float64.ltb a b || (Float64.isNaN a && negb (Float64.isNaN b))
    | _, _ => false
    end;
  Swap := swap_list
|}.

(** [sort.Reverse]: the same data with the arguments of [Less] exchanged. *)
Definition Reverse {S} (I : Interface S) : Interface S := {|
  Len := Len I;
  Less := fun s i j => Less I s j i;
  Swap := Swap I
|}.

Definition run_swaps {S} (I : Interface S) (s : S) (l : list (nat * nat)) : S :=
  foldl (fun s p => Swap I s p.1 p.2) s l.

(** The sorting algorithm of the Go runtime is not part of this repository
    and has changed between Go releases.  What every release guarantees is
    that [sort.Sort] changes the data by calls to [Swap] only, with indices
    below [Len]. *)
Record Sorter : Type := {
  sort_Sort : forall S : Type, Interface S -> S -> S;
  sort_by_swaps : forall (S : Type) (I : Interface S) (s : S),
    exists l : list (nat * nat),
      Forall (fun p => (p.1 < Len I s)%nat /\ (p.2 < Len I s)%nat) l /\
      sort_Sort S I s = run_swaps I s l
}.

(** [insertionSort(data, 0, n)], which is all of [sort.Sort] on slices of
    fewer than seven elements in every Go release. *)
Fixpoint insertDown {S} (I : Interface S) (j : nat) (s : S) : S :=
  match j with
  | O => s
  | Datatypes.S j' =>
      if Less I s j j' then insertDown I j' (Swap I s j j') else s
  end.

Definition insertionSort {S} (I : Interface S) (s : S) : S :=
  foldl (fun s i => insertDown I i s) s (seq 1 (Len I s - 1)).

End GoSort.

(** ** The weight normalizer *)

Section Weights.

Import GoInt Float64 GoSort.

Variable sorter : Sorter.

Definition intSum (n : list Z) : Z :=
  foldl (fun r i => GoInt.add r i) 0 n.

(** [argSlice]: a [sort.Interface] together with the index slice that is
    permuted alongside it. *)
Record argSlice (S : Type) : Type := {
  inner : S;
  idx : list nat
}.
Arguments inner {S} _.
Arguments idx {S} _.

Definition argSliceI {S} (I : Interface S) : Interface (argSlice S) := {|
  Len := fun s => Len I (inner s);
  Less := fun s i j => Less I (inner s) i j;
  Swap := fun s i j =>
    {| inner := Swap I (inner s) i j; idx := swap_list (idx s) i j |}
|}.

Definition argsort (n : list float64) : list nat :=
  let s := {| inner := n; idx := seq 0 (length n) |} in
  idx (sort_Sort sorter _ (Reverse (argSliceI Float64Slice)) s).

(** One float division as the code executes it: dividend and divisor
    before their conversion to [float64]. *)
Definition division : Type := (Z * Z)%type.

Record percents : Type := {
  results : list Z;
  remainders : list float64;
  divisions : list division
}.

(** The loop [for _, w := range weights] of [standardizeWeights]. *)
Definition percent_step (total : Z) (acc : percents) (w : Z) : percents :=
  let perc := div (of_int w) (of_int total) in
  let rounded := to_int (mul perc (of_int 100)) in
  {| results := results acc ++ [rounded];
     remainders :=
       remainders acc ++ [sub (mul perc (of_int 100)) (of_int rounded)];
     divisions := divisions acc ++ [(w, total)] |}.

Definition percent_loop (total : Z) (weights : list Z) : percents :=
  foldl (percent_step total)
        {| results := []; remainders := []; divisions := [] |} weights.

(** The loop [for _, idx := range order]. *)
Fixpoint distribute (order : list nat) (remaining : Z) (res : list Z) : list Z :=
  match order with
  | [] => res
  | i :: order' =>
      if remaining <=? 0 then res
      else distribute order' (GoInt.sub remaining 1)
                      (alter (fun x => GoInt.add x 1) i res)
  end.

(** [standardizeWeights], returning next to its result the divisions it
    has executed. *)
Definition standardizeWeights_run (weights : list Z) : list Z * list division :=
  if (length weights =? 1)%nat then ([0], [])
  else
    let total := intSum weights in
    let '(weights, total) :=
      if total =? 0
      then (map (fun _ => 1) weights, Z.of_nat (length weights))
      else (weights, total) in
    let p := percent_loop total weights in
    let remaining := GoInt.sub 100 (intSum (results p)) in
    let order := argsort (remainders p) in
    (distribute order remaining (results p), divisions p).

Definition standardizeWeights (weights : list Z) : list Z :=
  (standardizeWeights_run weights).1.

End Weights.

Arguments inner {S} _.
Arguments idx {S} _.

(** ** Data model *)

(** Points in time ([time.Time], [metav1.Time]) as nanoseconds. *)
Definition Time : Type := Z.

(** Apimachinery types the conversion reads and writes. *)
Module metav1.

Record Condition : Type := {
  Type_ : string;
  Status : string;
  ObservedGeneration : Z;
  LastTransitionTime : Time;
  Reason : string;
  Message : string
}.

Record LabelSelectorRequirement : Type := {
  Key : string;
  Operator : string;
  Values : list string
}.

Record LabelSelector : Type := {
  MatchLabels : gmap string string;
  MatchExpressions : list LabelSelectorRequirement
}.

(** A compiled [labels.Selector], identified with its [Matches] method. *)
Definition Selector : Type := gmap string string -> bool.

End metav1.

Module corev1.

Record Namespace : Type := { Labels : gmap string string }.

End corev1.

(** The types of [sigs.k8s.io/gateway-api/apis/v1alpha1], with the fields
    the conversion uses.  A Go pointer that may be nil is an [option]. *)
Module k8s.

Definition Hostname : Type := string.
Definition PortNumber : Type := Z.
Definition ProtocolType : Type := string.

Definition RouteSelectAll : string := "All".
Definition RouteSelectSame : string := "Same".
Definition RouteSelectSelector : string := "Selector".

Definition GatewayAllowAll : string := "All".
Definition GatewayAllowFromList : string := "FromList".
Definition GatewayAllowSameNamespace : string := "SameNamespace".

Definition TLSModeTerminate : string := "Terminate".
Definition TLSModePassthrough : string := "Passthrough".

Definition PathMatchExact : string := "Exact".
Definition PathMatchPrefix : string := "Prefix".
Definition PathMatchRegularExpression : string := "RegularExpression".
Definition PathMatchImplementationSpecific : string := "ImplementationSpecific".

Definition HeaderMatchExact : string := "Exact".
Definition HeaderMatchImplementationSpecific : string := "ImplementationSpecific".

Definition HTTPRouteFilterRequestHeaderModifier : string := "RequestHeaderModifier".

Definition ConditionRouteAdmitted : string := "Admitted".
Definition GatewayClassConditionStatusAdmitted : string := "Admitted".
Definition ListenerConditionReady : string := "Ready".
Definition GatewayConditionReady : string := "Ready".
Definition GatewayConditionScheduled : string := "Scheduled".

Record LocalObjectReference : Type := {
  lor_Group : string;
  lor_Kind : string;
  lor_Name : string
}.

Record RouteNamespaces : Type := {
  rn_From : string;
  rn_Selector : metav1.LabelSelector
}.

Record RouteBindingSelector : Type := {
  rbs_Namespaces : RouteNamespaces;
  rbs_Selector : metav1.LabelSelector;
  rbs_Group : string;
  rbs_Kind : string
}.

Record GatewayTLSConfig : Type := {
  gtls_Mode : string;
  gtls_CertificateRef : option LocalObjectReference
}.

Record Listener : Type := {
  l_Hostname : option Hostname;
  l_Port : PortNumber;
  l_Protocol : ProtocolType;
  l_TLS : option GatewayTLSConfig;
  l_Routes : RouteBindingSelector
}.

Record GatewaySpec : Type := {
  gs_GatewayClassName : string;
  gs_Listeners : list Listener
}.

Record GatewayClassSpec : Type := { gcs_Controller : string }.

Record GatewayReference : Type := {
  gr_Name : string;
  gr_Namespace : string
}.

Record RouteGateways : Type := {
  rg_Allow : string;
  rg_GatewayRefs : list GatewayReference
}.

Record HTTPPathMatch : Type := {
  pm_Type : string;
  pm_Value : string
}.

Record HTTPHeaderMatch : Type := {
  hm_Type : string;
  hm_Values : gmap string string
}.

Record HTTPRouteMatch : Type := {
  m_Path : HTTPPathMatch;
  m_Headers : option HTTPHeaderMatch
}.

Record HTTPRequestHeaderFilter : Type := {
  hf_Set : gmap string string;
  hf_Add : gmap string string;
  hf_Remove : list string
}.

Record HTTPRouteFilter : Type := {
  f_Type : string;
  f_RequestHeaderModifier : option HTTPRequestHeaderFilter
}.

Record HTTPRouteForwardTo : Type := {
  hfw_ServiceName : option string;
  hfw_BackendRef : option LocalObjectReference;
  hfw_Port : option PortNumber;
  hfw_Weight : Z;
  hfw_Filters : list HTTPRouteFilter
}.

Record HTTPRouteRule : Type := {
  hr_Matches : list HTTPRouteMatch;
  hr_Filters : list HTTPRouteFilter;
  hr_ForwardTo : list HTTPRouteForwardTo
}.

Record HTTPRouteSpec : Type := {
  hs_Gateways : RouteGateways;
  hs_Hostnames : list Hostname;
  hs_Rules : list HTTPRouteRule
}.

Record RouteForwardTo : Type := {
  fw_ServiceName : option string;
  fw_BackendRef : option LocalObjectReference;
  fw_Port : option PortNumber;
  fw_Weight : Z
}.

(** [TCPRouteMatch] only carries an extension reference. *)
Record TCPRouteMatch : Type := { tm_ExtensionRef : option LocalObjectReference }.

Record TCPRouteRule : Type := {
  tr_Matches : list TCPRouteMatch;
  tr_ForwardTo : list RouteForwardTo
}.

Record TCPRouteSpec : Type := {
  ts_Rules : list TCPRouteRule;
  ts_Gateways : RouteGateways
}.

Record TLSRouteMatch : Type := { lm_SNIs : list Hostname }.

Record TLSRouteRule : Type := {
  lr_Matches : list TLSRouteMatch;
  lr_ForwardTo : list RouteForwardTo
}.

Record TLSRouteSpec : Type := {
  ls_Rules : list TLSRouteRule;
  ls_Gateways : RouteGateways
}.

Record BackendRef : Type := {
  br_Group : string;
  br_Kind : string;
  br_Name : string;
  br_Port : option PortNumber
}.

Record BackendTLSConfig : Type := {
  btls_CertificateAuthorityRef : option LocalObjectReference
}.

Record BackendPolicySpec : Type := {
  bp_BackendRefs : list BackendRef;
  bp_TLS : option BackendTLSConfig
}.

Record GatewayAddress : Type := {
  ga_Type : string;
  ga_Value : string
}.

Record ListenerStatus : Type := {
  lst_Port : PortNumber;
  lst_Protocol : ProtocolType;
  lst_Hostname : option Hostname;
  lst_Conditions : list metav1.Condition
}.

(** The zero value, as [make([]k8s.ListenerStatus, n)] fills a slice. *)
Definition ListenerStatus_zero : ListenerStatus := {|
  lst_Port := 0; lst_Protocol := ""; lst_Hostname := None; lst_Conditions := []
|}.

Record GatewayStatus : Type := {
  gst_Addresses : list GatewayAddress;
  gst_Conditions : list metav1.Condition;
  gst_Listeners : list ListenerStatus
}.

Record GatewayClassStatus : Type := {
  gcst_Conditions : list metav1.Condition
}.

Record RouteGatewayStatus : Type := {
  rgs_GatewayRef : GatewayReference;
  rgs_Conditions : list metav1.Condition
}.

(** [HTTPRouteStatus], [TCPRouteStatus] and [TLSRouteStatus] all embed
    [RouteStatus]. *)
Record RouteStatus : Type := { rs_Gateways : list RouteGatewayStatus }.

End k8s.

(** The types of [istio.io/api/networking/v1alpha3] that are written. *)
Module istio.

Inductive StringMatch : Type :=
  | StringMatch_Exact (Exact : string)
  | StringMatch_Regex (Regex : string).

Record PortSelector : Type := { Number : Z }.

Record Destination : Type := {
  d_Host : string;
  d_Port : option PortSelector
}.

Record Headers_HeaderOperations : Type := {
  ho_Set : gmap string string;
  ho_Add : gmap string string;
  ho_Remove : list string
}.

Record Headers : Type := { h_Request : option Headers_HeaderOperations }.

Record HTTPRouteDestination : Type := {
  hrd_Destination : Destination;
  hrd_Weight : Z;
  hrd_Headers : option Headers
}.

Record RouteDestination : Type := {
  rd_Destination : Destination;
  rd_Weight : Z
}.

Record HTTPMatchRequest : Type := {
  mr_Uri : option StringMatch;
  mr_Headers : option (gmap string StringMatch)
}.

Record HTTPRoute : Type := {
  hr_Match : list HTTPMatchRequest;
  hr_Route : list HTTPRouteDestination;
  hr_Headers : option Headers
}.

(** [L4MatchAttributes] is never built. *)
Record L4MatchAttributes : Type := { l4_DestinationSubnets : list string }.

Record TCPRoute : Type := {
  tr_Match : list L4MatchAttributes;
  tr_Route : list RouteDestination
}.

Record TLSMatchAttributes : Type := { tm_SniHosts : list string }.

Record TLSRoute : Type := {
  lr_Match : list TLSMatchAttributes;
  lr_Route : list RouteDestination
}.

Record VirtualService : Type := {
  vs_Hosts : list string;
  vs_Gateways : list string;
  vs_Http : list HTTPRoute;
  vs_Tls : list TLSRoute;
  vs_Tcp : list TCPRoute
}.

Inductive TLSmode : Type :=
  | ServerTLSSettings_PASSTHROUGH
  | ServerTLSSettings_SIMPLE.

Record ServerTLSSettings : Type := {
  stls_HttpsRedirect : bool;
  stls_Mode : TLSmode;
  stls_CredentialName : string
}.

Record Port : Type := {
  p_Number : Z;
  p_Protocol : string;
  p_Name : string
}.

Record Server : Type := {
  s_Hosts : list string;
  s_Port : Port;
  s_Tls : option ServerTLSSettings
}.

Record Gateway : Type := {
  g_Servers : list Server;
  g_Selector : gmap string string
}.

(** Only [ClientTLSSettings_SIMPLE] is ever written. *)
Record ClientTLSSettings : Type := {
  ctls_CredentialName : string;
  ctls_Simple : bool
}.

Record TrafficPolicy_PortTrafficPolicy : Type := {
  ptp_Port : PortSelector;
  ptp_Tls : ClientTLSSettings
}.

Record TrafficPolicy : Type := {
  tp_Tls : option ClientTLSSettings;
  tp_PortLevelSettings : list TrafficPolicy_PortTrafficPolicy
}.

Record DestinationRule : Type := {
  dr_Host : string;
  dr_TrafficPolicy : TrafficPolicy
}.

End istio.

(** Package [config]. *)
Module config.

Record GroupVersionKind : Type := {
  Group : string;
  Version : string;
  Kind : string
}.

Record Meta : Type := {
  GVK : GroupVersionKind;
  Name : string;
  Namespace : string;
  Domain : string;
  Labels : gmap string string;
  CreationTimestamp : Time;
  Generation : Z
}.

(** The dynamic type of a [config.Spec]; a type assertion on it picks one
    constructor and panics on the others. *)
Inductive Spec : Type :=
  | GatewayClassSpec (s : k8s.GatewayClassSpec)
  | GatewaySpec (s : k8s.GatewaySpec)
  | HTTPRouteSpec (s : k8s.HTTPRouteSpec)
  | TCPRouteSpec (s : k8s.TCPRouteSpec)
  | TLSRouteSpec (s : k8s.TLSRouteSpec)
  | BackendPolicySpec (s : k8s.BackendPolicySpec)
  | IstioGateway (s : istio.Gateway)
  | IstioVirtualService (s : istio.VirtualService)
  | IstioDestinationRule (s : istio.DestinationRule)
  | OtherSpec.

(** The status objects live in a store; a resource holds the address of
    its [*kstatus.WrappedStatus], or something that is not one. *)
Definition loc : Type := positive.

Inductive Status : Type :=
  | GatewayClassStatus (s : k8s.GatewayClassStatus)
  | GatewayStatus (s : k8s.GatewayStatus)
  | HTTPRouteStatus (s : k8s.RouteStatus)
  | TCPRouteStatus (s : k8s.RouteStatus)
  | TLSRouteStatus (s : k8s.RouteStatus)
  | OtherStatus.

Record Config : Type := {
  meta : Meta;
  spec : Spec;
  status : option loc
}.

End config.

Record KubernetesResources : Type := {
  GatewayClass : list config.Config;
  Gateway : list config.Config;
  HTTPRoute : list config.Config;
  TCPRoute : list config.Config;
  TLSRoute : list config.Config;
  BackendPolicy : list config.Config;
  Namespaces : gmap string corev1.Namespace;
  Domain : string
}.

Record OutputResources : Type := {
  out_Gateway : list config.Config;
  out_VirtualService : list config.Config;
  out_DestinationRule : list config.Config
}.

(** Unique key to identify a route. *)
Record RouteKey : Type := {
  rk_Gvk : config.GroupVersionKind;
  rk_Name : string;
  rk_Namespace : string
}.

#[global] Instance GroupVersionKind_eq_dec : EqDecision config.GroupVersionKind.
Proof. solve_decision. Defined.

#[global] Instance RouteKey_eq_dec : EqDecision RouteKey.
Proof. solve_decision. Defined.

#[global] Instance RouteKey_countable : Countable RouteKey.
Proof.
  refine (inj_countable'
    (fun k => (config.Group (rk_Gvk k), config.Version (rk_Gvk k),
               config.Kind (rk_Gvk k), rk_Name k, rk_Namespace k))
    (fun t => let '(g, v, k, n, ns) := t in
      {| rk_Gvk := {| config.Group := g; config.Version := v; config.Kind := k |};
         rk_Name := n; rk_Namespace := ns |}) _).
  by intros [[] ? ?].
Defined.

Definition toRouteKey (c : config.Config) : RouteKey := {|
  rk_Gvk := config.GVK (config.meta c);
  rk_Name := config.Name (config.meta c);
  rk_Namespace := config.Namespace (config.meta c)
|}.

(** ** Strings *)

Local Open Scope string_scope.

(** [strings.TrimSuffix]. *)
Definition TrimSuffix (s suffix : string) : string :=
  let n := String.length s in
  let k := String.length suffix in
  if (k <=? n)%nat && (String.substring (n - k) k s =? suffix)
  then String.substring 0 (n - k) s else s.

(** [strings.Split(s, sep)] for a separator of one character. *)
Fixpoint Split (s : string) (sep : Ascii.ascii) : list string :=
  match s with
  | EmptyString => [""]
  | String c s' =>
      if Ascii.eqb c sep then "" :: Split s' sep
      else match Split s' sep with
           | [] => [String c ""]
           | x :: xs => String c x :: xs
           end
  end.

Definition emptyOrEqual (have expected : string) : bool :=
  (have =? "") || (have =? expected).

(** ** Constants of the package *)

Definition ControllerName : string := "istio.io/gateway-controller".

(** experimentalMeshGatewayName defines the magic mesh gateway name. *)
Definition experimentalMeshGatewayName : string := "mesh".

(** prefixMatchRegex optionally matches "/..." at the end of a path. *)
Definition prefixMatchRegex : string := "((\/).*)?".

(** Modelled from the spec: the constant [IstioMeshGateway] of
    [pkg/config/constants], the literal mesh-gateway token that stands in an
    ownership list next to the namespace/name strings. *)
Definition IstioMeshGateway : string := "mesh".

(** Modelled from the spec: the constant [StatusTrue] of
    [pilot/pkg/model/kstatus], the status of a condition that holds. *)
Definition StatusTrue : string := "True".

(** ** The environment

    Library functions and constants of other packages, which the conversion
    uses and this file leaves open. *)
Record Env : Type := {
  (** [sort.Sort] *)
  env_sorter : GoSort.Sorter;
  (** [metav1.LabelSelectorAsSelector]; [None] is an error *)
  env_LabelSelectorAsSelector : metav1.LabelSelector -> option metav1.Selector;
  (** [regexp.QuoteMeta] *)
  env_QuoteMeta : string -> string;
  (** [strings.ToLower] *)
  env_ToLower : string -> string;
  (** the verbs [%d] and [%v] applied to an integer *)
  env_itoa : Z -> string;
  (** [constants.KubernetesGatewayName], the suffix of every derived name *)
  env_KubernetesGatewayName : string;
  (** [constants.IstioLabel] *)
  env_IstioLabel : string;
  env_gvk_Gateway : config.GroupVersionKind;
  env_gvk_VirtualService : config.GroupVersionKind;
  env_gvk_DestinationRule : config.GroupVersionKind;
  env_gvk_Service : config.GroupVersionKind;
  env_gvk_Secret : config.GroupVersionKind;
  (** the method [CanonicalGroup] of [config.GroupVersionKind] *)
  env_CanonicalGroup : config.GroupVersionKind -> string
}.

(** ** The binding resolver and the builders without side effects *)

Section Builders.

Import GoInt.

Variable env : Env.

Local Abbreviation sorter := (env_sorter env).
Local Abbreviation LabelSelectorAsSelector := (env_LabelSelectorAsSelector env).
Local Abbreviation QuoteMeta := (env_QuoteMeta env).
Local Abbreviation ToLower := (env_ToLower env).
Local Abbreviation itoa := (env_itoa env).
Local Abbreviation KubernetesGatewayName := (env_KubernetesGatewayName env).
Local Abbreviation IstioLabel := (env_IstioLabel env).
Local Abbreviation gvk_Gateway := (env_gvk_Gateway env).
Local Abbreviation gvk_VirtualService := (env_gvk_VirtualService env).
Local Abbreviation gvk_DestinationRule := (env_gvk_DestinationRule env).
Local Abbreviation gvk_Service := (env_gvk_Service env).
Local Abbreviation gvk_Secret := (env_gvk_Secret env).
Local Abbreviation CanonicalGroup := (env_CanonicalGroup env).

Definition getGatewaySelectorFromSpec (spec : config.Spec) : option k8s.RouteGateways :=
  match spec with
  | config.HTTPRouteSpec s => Some (k8s.hs_Gateways s)
  | config.TCPRouteSpec s => Some (k8s.ts_Gateways s)
  | config.TLSRouteSpec s => Some (k8s.ls_Gateways s)
  | _ => None
  end.

(** The last clause of [isRouteMatch]: the gateway selection that the route
    itself carries. *)
Definition gatewayAllows (cfg : config.Config) (gateway : config.Meta) : bool :=
  let gatewaySelector :=
    match getGatewaySelectorFromSpec (config.spec cfg) with
    | Some s => s
    | None => {| k8s.rg_Allow := k8s.GatewayAllowSameNamespace;
                 k8s.rg_GatewayRefs := [] |}
    end in
  if k8s.rg_Allow gatewaySelector =? k8s.GatewayAllowAll then true
  else if k8s.rg_Allow gatewaySelector =? k8s.GatewayAllowFromList then
    existsb (fun gw =>
               (k8s.gr_Name gw =? config.Name gateway) &&
               (k8s.gr_Namespace gw =? config.Namespace gateway))
            (k8s.rg_GatewayRefs gatewaySelector)
  else if k8s.rg_Allow gatewaySelector =? k8s.GatewayAllowSameNamespace then
    config.Namespace gateway =? config.Namespace (config.meta cfg)
  else true.

(** isRouteMatch checks if a route should bind to a gateway. *)
Definition isRouteMatch (cfg : config.Config) (gateway : config.Meta)
    (routes : k8s.RouteBindingSelector)
    (namespaces : gmap string corev1.Namespace) : bool :=
  if negb (k8s.rbs_Kind routes =? config.Kind (config.GVK (config.meta cfg)))
  then false else
  let grp := if k8s.rbs_Group routes =? "" then "networking.x-k8s.io"
             else k8s.rbs_Group routes in
  if negb (grp =? config.Group (config.GVK (config.meta cfg))) then false else
  match LabelSelectorAsSelector (k8s.rbs_Selector routes) with
  | None => false
  | Some ls =>
    if negb (ls (config.Labels (config.meta cfg))) then false else
    let namespaceSelector := k8s.rbs_Namespaces routes in
    let from := if k8s.rn_From namespaceSelector =? "" then k8s.RouteSelectSame
                else k8s.rn_From namespaceSelector in
    if from =? k8s.RouteSelectAll then gatewayAllows cfg gateway
    else if from =? k8s.RouteSelectSame then
      if negb (config.Namespace gateway =? config.Namespace (config.meta cfg))
      then false else gatewayAllows cfg gateway
    else if from =? k8s.RouteSelectSelector then
      match LabelSelectorAsSelector (k8s.rn_Selector namespaceSelector) with
      | None => false
      | Some ns =>
        match namespaces !! config.Namespace (config.meta cfg) with
        | None => false
        | Some namespace =>
          if negb (ns (corev1.Labels namespace)) then false
          else gatewayAllows cfg gateway
        end
      end
    else gatewayAllows cfg gateway
  end.

Definition fetchHTTPRoutes (r : KubernetesResources) (gateway : config.Meta)
    (routes : k8s.RouteBindingSelector) : list config.Config :=
  List.filter (fun http => isRouteMatch http gateway routes (Namespaces r))
              (HTTPRoute r).

Definition fetchTCPRoutes (r : KubernetesResources) (gateway : config.Meta)
    (routes : k8s.RouteBindingSelector) : list config.Config :=
  List.filter (fun tcp => isRouteMatch tcp gateway routes (Namespaces r))
              (TCPRoute r).

Definition fetchTLSRoutes (r : KubernetesResources) (gateway : config.Meta)
    (routes : k8s.RouteBindingSelector) : list config.Config :=
  List.filter (fun tls => isRouteMatch tls gateway routes (Namespaces r))
              (TLSRoute r).

Definition fetchMeshRoutes (r : KubernetesResources) : list RouteKey :=
  flat_map (fun hr =>
    match getGatewaySelectorFromSpec (config.spec hr) with
    | None => []
    | Some gatewaySelector =>
        flat_map (fun ref =>
                    if k8s.gr_Name ref =? experimentalMeshGatewayName
                    then [toRouteKey hr] else [])
                 (k8s.rg_GatewayRefs gatewaySelector)
    end) (HTTPRoute r).

Definition hostnameToStringList (h : list k8s.Hostname) : list string := h.
Definition hostnamesToStringlist (h : list k8s.Hostname) : list string := h.

Definition createHeadersFilter (filter : option k8s.HTTPRequestHeaderFilter)
    : option istio.Headers :=
  match filter with
  | None => None
  | Some f =>
      Some {| istio.h_Request := Some {|
        istio.ho_Add := k8s.hf_Add f;
        istio.ho_Remove := k8s.hf_Remove f;
        istio.ho_Set := k8s.hf_Set f |} |}
  end.

Definition createHeadersMatch (match_ : k8s.HTTPRouteMatch)
    : option (gmap string istio.StringMatch) :=
  match k8s.m_Headers match_ with
  | None => None
  | Some h =>
      if (k8s.hm_Type h =? "") || (k8s.hm_Type h =? k8s.HeaderMatchExact) ||
         (k8s.hm_Type h =? k8s.HeaderMatchImplementationSpecific)
      then Some (istio.StringMatch_Exact <$> k8s.hm_Values h)
      else None
  end.

Definition createURIMatch (match_ : k8s.HTTPRouteMatch) : option istio.StringMatch :=
  let p := k8s.m_Path match_ in
  if (k8s.pm_Type p =? "") || (k8s.pm_Type p =? k8s.PathMatchImplementationSpecific) ||
     (k8s.pm_Type p =? k8s.PathMatchPrefix)
  then Some (istio.StringMatch_Regex
               (QuoteMeta (TrimSuffix (k8s.pm_Value p) "/") ++ prefixMatchRegex))
  else if k8s.pm_Type p =? k8s.PathMatchExact
  then Some (istio.StringMatch_Exact (k8s.pm_Value p))
  else if k8s.pm_Type p =? k8s.PathMatchRegularExpression
  then Some (istio.StringMatch_Regex (k8s.pm_Value p))
  else None.

Definition buildDestination (to : k8s.HTTPRouteForwardTo) (ns domain : string)
    : istio.Destination := {|
  istio.d_Port :=
    match k8s.hfw_Port to with
    | Some p => Some {| istio.Number := to_uint32 p |}
    | None => None
    end;
  istio.d_Host :=
    match k8s.hfw_ServiceName to with
    | Some name => name ++ "." ++ ns ++ ".svc." ++ domain
    | None => ""
    end
|}.

Definition buildGenericDestination (to : k8s.RouteForwardTo) (ns domain : string)
    : istio.Destination := {|
  istio.d_Port :=
    match k8s.fw_Port to with
    | Some p => Some {| istio.Number := to_uint32 p |}
    | None => None
    end;
  istio.d_Host :=
    match k8s.fw_ServiceName to with
    | Some name => name ++ "." ++ ns ++ ".svc." ++ domain
    | None => ""
    end
|}.

(** The loop over the filters of a rule or of a forwarding target: every
    header modifier overwrites the headers set before. *)
Definition headersOfFilters (filters : list k8s.HTTPRouteFilter)
    : option istio.Headers :=
  foldl (fun h filter =>
           if k8s.f_Type filter =? k8s.HTTPRouteFilterRequestHeaderModifier
           then createHeadersFilter (k8s.f_RequestHeaderModifier filter)
           else h) None filters.

(** A nil slice and an empty one are the same list: for [action == nil] the
    loops below run over nothing. *)
Definition buildHTTPDestination (action : list k8s.HTTPRouteForwardTo)
    (ns domain : string) : list istio.HTTPRouteDestination :=
  let weights := standardizeWeights sorter (map k8s.hfw_Weight action) in
  imap (fun i fwd => {|
          istio.hrd_Destination := buildDestination fwd ns domain;
          istio.hrd_Weight := wrap32 (weights !!! i);
          istio.hrd_Headers := headersOfFilters (k8s.hfw_Filters fwd) |})
       action.

Definition buildTCPDestination (action : list k8s.RouteForwardTo)
    (ns domain : string) : list istio.RouteDestination :=
  if (length action =? 0)%nat then [] else
  let weights := standardizeWeights sorter (map k8s.fw_Weight action) in
  imap (fun i fwd => {|
          istio.rd_Destination := buildGenericDestination fwd ns domain;
          istio.rd_Weight := wrap32 (weights !!! i) |})
       action.

Definition buildTCPMatch (_ : list k8s.TCPRouteMatch) : list istio.L4MatchAttributes :=
  [].

Definition buildTLSMatch (match_ : list k8s.TLSRouteMatch)
    : list istio.TLSMatchAttributes :=
  if (length match_ =? 0)%nat then [ {| istio.tm_SniHosts := ["*"] |} ]
  else map (fun m => {| istio.tm_SniHosts := hostnamesToStringlist (k8s.lm_SNIs m) |})
           match_.

Definition buildSecretReference (ref : k8s.LocalObjectReference) : string :=
  if negb (emptyOrEqual (k8s.lor_Group ref) (CanonicalGroup gvk_Secret)) ||
     negb (emptyOrEqual (k8s.lor_Kind ref) (config.Kind gvk_Secret))
  then "" else k8s.lor_Name ref.

Definition buildTLS (tls : option k8s.GatewayTLSConfig)
    : option istio.ServerTLSSettings :=
  match tls with
  | None => None
  | Some tls =>
      if (k8s.gtls_Mode tls =? "") || (k8s.gtls_Mode tls =? k8s.TLSModeTerminate)
      then match k8s.gtls_CertificateRef tls with
           | None => None
           | Some ref => Some {|
               istio.stls_HttpsRedirect := false;
               istio.stls_Mode := istio.ServerTLSSettings_SIMPLE;
               istio.stls_CredentialName := buildSecretReference ref |}
           end
      else Some {|
        istio.stls_HttpsRedirect := false;
        istio.stls_Mode := istio.ServerTLSSettings_PASSTHROUGH;
        istio.stls_CredentialName := "" |}
  end.

Definition buildHostnameMatch (hostname : option k8s.Hostname) : list string :=
  match hostname with
  | None => ["*"]
  | Some h => if h =? "" then ["*"] else [h]
  end.

End Builders.

(** ** Status store, clock and panics

    The conversion writes the status objects that the resources of the
    snapshot point to, reads the wall clock, and panics when a type assertion
    fails or an index is out of range. *)

Record World : Type := {
  statuses : gmap config.loc config.Status;
  clock : nat -> Time;
  ticks : nat
}.

Definition M (A : Type) : Type := World -> option (A * World).

Definition ret {A} (a : A) : M A := fun w => Some (a, w).

Definition bind {A B} (m : M A) (k : A -> M B) : M B :=
  fun w => match m w with
           | Some (a, w') => k a w'
           | None => None
           end.

Definition panic {A} : M A := fun _ => None.

Notation "'let*' x ':=' c1 'in' c2" := (bind c1 (fun x => c2))
  (at level 10, x name, c1 at level 100, c2 at level 200).

(** [for _, x := range l] with the variables the loop updates in [acc]. *)
Fixpoint foldM {A B} (f : A -> B -> M A) (acc : A) (l : list B) : M A :=
  match l with
  | [] => ret acc
  | x :: l' => let* acc' := f acc x in foldM f acc' l'
  end.

(** [metav1.Now()]. *)
Definition Now : M Time :=
  fun w => Some (clock w (ticks w),
                 {| statuses := statuses w; clock := clock w; ticks := S (ticks w) |}).

(** The type assertion of [obj.Status] to a pointer to [kstatus.WrappedStatus]. *)
Definition asWrappedStatus (obj : config.Config) : M config.loc :=
  match config.status obj with
  | Some l => ret l
  | None => panic
  end.

(** Modelled from the spec: the method [Mutate] of [kstatus.WrappedStatus],
    the mutate-in-place capability of a status object.  The function is
    applied to the status in the store and what it returns is stored, seen by
    every later read of the pass. *)
Definition Mutate (l : config.loc) (f : config.Status -> M config.Status) : M unit :=
  fun w => match statuses w !! l with
           | None => None
           | Some s =>
               match f s w with
               | None => None
               | Some (s', w') =>
                   Some (tt, {| statuses := <[l := s']> (statuses w');
                                clock := clock w'; ticks := ticks w' |})
               end
           end.

(** Modelled from the spec: [kstatus.ConditionallyUpdateCondition].  An
    existing condition of the same type is replaced only if status, reason,
    message or observed generation differ, the timestamp alone never
    triggers a rewrite; without one the new condition is appended. *)
Definition sameCondition (a b : metav1.Condition) : bool :=
  (metav1.Status a =? metav1.Status b) && (metav1.Reason a =? metav1.Reason b) &&
  (metav1.Message a =? metav1.Message b) &&
  (metav1.ObservedGeneration a =? metav1.ObservedGeneration b)%Z.

Fixpoint ConditionallyUpdateCondition (conditions : list metav1.Condition)
    (condition : metav1.Condition) : list metav1.Condition :=
  match conditions with
  | [] => [condition]
  | c :: rest =>
      if metav1.Type_ c =? metav1.Type_ condition
      then (if sameCondition c condition then c :: rest else condition :: rest)
      else c :: ConditionallyUpdateCondition rest condition
  end.

(** [routeToGateway[k] = append(routeToGateway[k], gw)]. *)
Definition appendOwner (routeToGateway : gmap RouteKey (list string))
    (k : RouteKey) (gw : string) : gmap RouteKey (list string) :=
  <[k := (default [] (routeToGateway !! k) ++ [gw])%list]> routeToGateway.

(** ** The converters *)

Section Converters.

Import GoInt.

Variable env : Env.

Local Abbreviation sorter := (env_sorter env).
Local Abbreviation LabelSelectorAsSelector := (env_LabelSelectorAsSelector env).
Local Abbreviation QuoteMeta := (env_QuoteMeta env).
Local Abbreviation ToLower := (env_ToLower env).
Local Abbreviation itoa := (env_itoa env).
Local Abbreviation KubernetesGatewayName := (env_KubernetesGatewayName env).
Local Abbreviation IstioLabel := (env_IstioLabel env).
Local Abbreviation gvk_Gateway := (env_gvk_Gateway env).
Local Abbreviation gvk_VirtualService := (env_gvk_VirtualService env).
Local Abbreviation gvk_DestinationRule := (env_gvk_DestinationRule env).
Local Abbreviation gvk_Service := (env_gvk_Service env).
Local Abbreviation gvk_Secret := (env_gvk_Secret env).
Local Abbreviation CanonicalGroup := (env_CanonicalGroup env).

Definition gatewayReferenceOf (gw : string) : M k8s.GatewayReference :=
  if gw =? IstioMeshGateway then
    ret {| k8s.gr_Name := experimentalMeshGatewayName;
           k8s.gr_Namespace := "default" |}
  else
    let s := Split gw "/"%char in
    match s !! 1%nat, s !! 0%nat with
    | Some name, Some ns => ret {| k8s.gr_Name := name; k8s.gr_Namespace := ns |}
    | _, _ => panic
    end.

Definition createRouteStatus (gateways : list string) (obj : config.Config)
    : M (list k8s.RouteGatewayStatus) :=
  foldM (fun gws gw =>
           let* ref := gatewayReferenceOf gw in
           let* now := Now in
           ret (gws ++ [ {|
             k8s.rgs_GatewayRef := ref;
             k8s.rgs_Conditions := [ {|
               metav1.Type_ := k8s.ConditionRouteAdmitted;
               metav1.Status := StatusTrue;
               metav1.ObservedGeneration := config.Generation (config.meta obj);
               metav1.LastTransitionTime := now;
               metav1.Reason := "RouteAdmitted";
               metav1.Message := "Route admitted" |} ] |} ])%list)
        [] gateways.

Definition virtualServiceMeta (obj : config.Config) (name domain : string)
    : config.Meta := {|
  config.CreationTimestamp := config.CreationTimestamp (config.meta obj);
  config.GVK := gvk_VirtualService;
  config.Name := name;
  config.Namespace := config.Namespace (config.meta obj);
  config.Domain := domain;
  config.Labels := ∅;
  config.Generation := 0
|}.

Definition buildHTTPVirtualServices (obj : config.Config) (gateways : list string)
    (domain : string) : M (list config.Config) :=
  match config.spec obj with
  | config.HTTPRouteSpec route =>
    let* l := asWrappedStatus obj in
    let* _ := Mutate l (fun s =>
      match s with
      | config.HTTPRouteStatus rs =>
          let* gws := createRouteStatus gateways obj in
          ret (config.HTTPRouteStatus {| k8s.rs_Gateways := gws |})
      | _ => panic
      end) in
    let name := config.Name (config.meta obj) ++ "-" ++ KubernetesGatewayName in
    let hosts := hostnameToStringList (k8s.hs_Hostnames route) in
    let httproutes :=
      map (fun r => {|
             istio.hr_Match :=
               map (fun match_ => {|
                      istio.mr_Uri := createURIMatch env match_;
                      istio.mr_Headers := createHeadersMatch match_ |})
                   (k8s.hr_Matches r);
             istio.hr_Headers := headersOfFilters (k8s.hr_Filters r);
             istio.hr_Route :=
               buildHTTPDestination env (k8s.hr_ForwardTo r)
                 (config.Namespace (config.meta obj)) domain |})
          (k8s.hs_Rules route) in
    ret [ {| config.meta := virtualServiceMeta obj name domain;
             config.spec := config.IstioVirtualService {|
               istio.vs_Hosts := hosts;
               istio.vs_Gateways := gateways;
               istio.vs_Http := httproutes;
               istio.vs_Tls := [];
               istio.vs_Tcp := [] |};
             config.status := None |} ]
  | _ => panic
  end.

Definition buildTCPVirtualService (obj : config.Config) (gateways : list string)
    (domain : string) : M config.Config :=
  match config.spec obj with
  | config.TCPRouteSpec route =>
    let* l := asWrappedStatus obj in
    let* _ := Mutate l (fun s =>
      match s with
      | config.TCPRouteStatus rs =>
          let* gws := createRouteStatus gateways obj in
          ret (config.TCPRouteStatus {| k8s.rs_Gateways := gws |})
      | _ => panic
      end) in
    let routes :=
      map (fun r => {|
             istio.tr_Match := buildTCPMatch (k8s.tr_Matches r);
             istio.tr_Route :=
               buildTCPDestination env (k8s.tr_ForwardTo r)
                 (config.Namespace (config.meta obj)) domain |})
          (k8s.ts_Rules route) in
    ret {| config.meta :=
             virtualServiceMeta obj
               (config.Name (config.meta obj) ++ "-tcp-" ++ KubernetesGatewayName)
               domain;
           config.spec := config.IstioVirtualService {|
             istio.vs_Hosts := ["*"];
             istio.vs_Gateways := gateways;
             istio.vs_Http := [];
             istio.vs_Tls := [];
             istio.vs_Tcp := routes |};
           config.status := None |}
  | _ => panic
  end.

Definition buildTLSVirtualService (obj : config.Config) (gateways : list string)
    (domain : string) : M config.Config :=
  match config.spec obj with
  | config.TLSRouteSpec route =>
    let* l := asWrappedStatus obj in
    let* _ := Mutate l (fun s =>
      match s with
      | config.TLSRouteStatus rs =>
          let* gws := createRouteStatus gateways obj in
          ret (config.TLSRouteStatus {| k8s.rs_Gateways := gws |})
      | _ => panic
      end) in
    let routes :=
      map (fun r => {|
             istio.lr_Match := buildTLSMatch (k8s.lr_Matches r);
             istio.lr_Route :=
               buildTCPDestination env (k8s.lr_ForwardTo r)
                 (config.Namespace (config.meta obj)) domain |})
          (k8s.ls_Rules route) in
    ret {| config.meta :=
             virtualServiceMeta obj
               (config.Name (config.meta obj) ++ "-tls-" ++ KubernetesGatewayName)
               domain;
           config.spec := config.IstioVirtualService {|
             istio.vs_Hosts := ["*"];
             istio.vs_Gateways := gateways;
             istio.vs_Http := [];
             istio.vs_Tls := routes;
             istio.vs_Tcp := [] |};
           config.status := None |}
  | _ => panic
  end.

Definition convertVirtualService (r : KubernetesResources)
    (routeMap : gmap RouteKey (list string)) : M (list config.Config) :=
  let* result := foldM (fun result obj =>
      match routeMap !! toRouteKey obj with
      | None => ret result
      | Some gateways =>
          let* vsConfig := buildTCPVirtualService obj gateways (Domain r) in
          ret (result ++ [vsConfig])%list
      end) [] (TCPRoute r) in
  let* result := foldM (fun result obj =>
      match routeMap !! toRouteKey obj with
      | None => ret result
      | Some gateways =>
          let* vsConfig := buildTLSVirtualService obj gateways (Domain r) in
          ret (result ++ [vsConfig])%list
      end) result (TLSRoute r) in
  foldM (fun result obj =>
      match routeMap !! toRouteKey obj with
      | None => ret result
      | Some gateways =>
          let* vs := buildHTTPVirtualServices obj gateways (Domain r) in
          ret (result ++ vs)%list
      end) result (HTTPRoute r).

(** The body of the loop [for i, ref := range bp.BackendRefs]: the
    destination rule of one backend reference, none for an unsupported one. *)
Definition destinationRuleOf (r : KubernetesResources) (obj : config.Config)
    (bp : k8s.BackendPolicySpec) (i : nat) (ref : k8s.BackendRef)
    : list config.Config :=
  if emptyOrEqual (k8s.br_Group ref) (CanonicalGroup gvk_Service) &&
     emptyOrEqual (k8s.br_Kind ref) (config.Kind gvk_Service)
  then
    let serviceName :=
      k8s.br_Name ref ++ "." ++ config.Namespace (config.meta obj) ++
      ".svc." ++ Domain r in
    let trafficPolicy :=
      match k8s.bp_TLS bp with
      | Some btls =>
        match k8s.btls_CertificateAuthorityRef btls with
        | Some caref =>
          let tls := {|
            istio.ctls_CredentialName :=
              buildSecretReference env caref;
            istio.ctls_Simple := true |} in
          match k8s.br_Port ref with
          | Some port => {|
              istio.tp_Tls := None;
              istio.tp_PortLevelSettings := [ {|
                istio.ptp_Port := {| istio.Number := to_uint32 port |};
                istio.ptp_Tls := tls |} ] |}
          | None => {|
              istio.tp_Tls := Some tls;
              istio.tp_PortLevelSettings := [] |}
          end
        | None => {| istio.tp_Tls := None; istio.tp_PortLevelSettings := [] |}
        end
      | None => {| istio.tp_Tls := None; istio.tp_PortLevelSettings := [] |}
      end in
    [ {| config.meta := {|
           config.CreationTimestamp := config.CreationTimestamp (config.meta obj);
           config.GVK := gvk_DestinationRule;
           config.Name :=
             config.Name (config.meta obj) ++ "-" ++ itoa (Z.of_nat i) ++
             "-" ++ KubernetesGatewayName;
           config.Namespace := config.Namespace (config.meta obj);
           config.Domain := Domain r;
           config.Labels := ∅;
           config.Generation := 0 |};
         config.spec := config.IstioDestinationRule {|
           istio.dr_Host := serviceName;
           istio.dr_TrafficPolicy := trafficPolicy |};
         config.status := None |} ]
  else [].

Definition convertDestinationRule (r : KubernetesResources) : M (list config.Config) :=
  foldM (fun result obj =>
    match config.spec obj with
    | config.BackendPolicySpec bp =>
        ret (result ++ mjoin (imap (destinationRuleOf r obj bp)
                                   (k8s.bp_BackendRefs bp)))%list
    | _ => panic
    end) [] (BackendPolicy r).

(** getGatewayClasses finds all gateway class that are owned by Istio. *)
Definition getGatewayClasses (r : KubernetesResources) : M (gset string) :=
  foldM (fun classes obj =>
    match config.spec obj with
    | config.GatewayClassSpec gwc =>
      if k8s.gcs_Controller gwc =? ControllerName then
        let classes := classes ∪ {[ config.Name (config.meta obj) ]} in
        let* l := asWrappedStatus obj in
        let* _ := Mutate l (fun s =>
          match s with
          | config.GatewayClassStatus gcs =>
            let* now := Now in
            ret (config.GatewayClassStatus {|
              k8s.gcst_Conditions :=
                ConditionallyUpdateCondition (k8s.gcst_Conditions gcs) {|
                  metav1.Type_ := k8s.GatewayClassConditionStatusAdmitted;
                  metav1.Status := StatusTrue;
                  metav1.ObservedGeneration := config.Generation (config.meta obj);
                  metav1.LastTransitionTime := now;
                  metav1.Reason := "Handled";
                  metav1.Message := "Handled by Istio controller" |} |})
          | _ => panic
          end) in
        ret classes
      else ret classes
    | _ => panic
    end) ∅ (GatewayClass r).

(** The variables that the loop over the gateways of [convertGateway]
    updates. *)
Record gatewayAcc : Type := {
  acc_result : list config.Config;
  acc_routeToGateway : gmap RouteKey (list string)
}.

Definition ownRoutes (routes : list config.Config) (owner : string)
    (routeToGateway : gmap RouteKey (list string)) : gmap RouteKey (list string) :=
  foldl (fun m route => appendOwner m (toRouteKey route) owner) routeToGateway routes.

(** The body of the loop [for i, l := range kgw.Listeners]. *)
Definition convertListener (r : KubernetesResources) (obj : config.Config)
    (st : config.loc) (name : string)
    (acc : list istio.Server * gmap RouteKey (list string))
    (il : nat * k8s.Listener) : M (list istio.Server * gmap RouteKey (list string)) :=
  let '(servers, routeToGateway) := acc in
  let '(i, l) := il in
  let* _ := Mutate st (fun s =>
    match s with
    | config.GatewayStatus gs =>
      match k8s.gst_Listeners gs !! i with
      | None => panic
      | Some li =>
        let cond := k8s.lst_Conditions li in
        let* now := Now in
        let cond := ConditionallyUpdateCondition cond {|
          metav1.Type_ := k8s.ListenerConditionReady;
          metav1.Status := StatusTrue;
          metav1.ObservedGeneration := config.Generation (config.meta obj);
          metav1.LastTransitionTime := now;
          metav1.Reason := "ListenerReady";
          metav1.Message := "No error found" |} in
        ret (config.GatewayStatus {|
          k8s.gst_Addresses := k8s.gst_Addresses gs;
          k8s.gst_Conditions := k8s.gst_Conditions gs;
          k8s.gst_Listeners :=
            <[i := {| k8s.lst_Port := k8s.l_Port l;
                      k8s.lst_Protocol := k8s.l_Protocol l;
                      k8s.lst_Hostname := k8s.l_Hostname l;
                      k8s.lst_Conditions := cond |}]> (k8s.gst_Listeners gs) |})
      end
    | _ => panic
    end) in
  let server := {|
    istio.s_Hosts := buildHostnameMatch (k8s.l_Hostname l);
    istio.s_Port := {|
      istio.p_Number := to_uint32 (k8s.l_Port l);
      istio.p_Protocol := k8s.l_Protocol l;
      istio.p_Name :=
        ToLower (k8s.l_Protocol l) ++ "-" ++ itoa (k8s.l_Port l) ++ "-gateway-" ++
        config.Name (config.meta obj) ++ "-" ++ config.Namespace (config.meta obj) |};
    istio.s_Tls := buildTLS env (k8s.l_TLS l) |} in
  let servers := (servers ++ [server])%list in
  let owner := config.Namespace (config.meta obj) ++ "/" ++ name in
  let routeToGateway :=
    ownRoutes (fetchHTTPRoutes env r (config.meta obj) (k8s.l_Routes l))
              owner routeToGateway in
  let routeToGateway :=
    ownRoutes (fetchTCPRoutes env r (config.meta obj) (k8s.l_Routes l))
              owner routeToGateway in
  let routeToGateway :=
    ownRoutes (fetchTLSRoutes env r (config.meta obj) (k8s.l_Routes l))
              owner routeToGateway in
  ret (servers, routeToGateway).

(** [imap] with the index kept next to the element, as [range] yields. *)
Definition indexed {A} (l : list A) : list (nat * A) := imap (fun i x => (i, x)) l.

(** The body of the loop [for _, obj := range r.Gateway]. *)
Definition convertOneGateway (r : KubernetesResources) (classes : gset string)
    (acc : gatewayAcc) (obj : config.Config) : M gatewayAcc :=
  match config.spec obj with
  | config.GatewaySpec kgw =>
    if negb (bool_decide (k8s.gs_GatewayClassName kgw ∈ classes)) then ret acc
    else
    let* st := asWrappedStatus obj in
    let* _ := Mutate st (fun s =>
      match s with
      | config.GatewayStatus gs =>
        ret (config.GatewayStatus {|
          k8s.gst_Addresses := [];
          k8s.gst_Conditions := k8s.gst_Conditions gs;
          k8s.gst_Listeners :=
            if negb (length (k8s.gst_Listeners gs) =? length (k8s.gs_Listeners kgw))%nat
            then replicate (length (k8s.gs_Listeners kgw)) k8s.ListenerStatus_zero
            else k8s.gst_Listeners gs |})
      | _ => panic
      end) in
    let name := config.Name (config.meta obj) ++ "-" ++ KubernetesGatewayName in
    let* listeners :=
      foldM (convertListener r obj st name) ([], acc_routeToGateway acc)
            (indexed (k8s.gs_Listeners kgw)) in
    let '(servers, routeToGateway) := listeners in
    let gatewayConfig := {|
      config.meta := {|
        config.CreationTimestamp := config.CreationTimestamp (config.meta obj);
        config.GVK := gvk_Gateway;
        config.Name := name;
        config.Namespace := config.Namespace (config.meta obj);
        config.Domain := Domain r;
        config.Labels := ∅;
        config.Generation := 0 |};
      config.spec := config.IstioGateway {|
        istio.g_Servers := servers;
        istio.g_Selector := {[ IstioLabel := "ingressgateway" ]} |};
      config.status := None |} in
    let* _ := Mutate st (fun s =>
      match s with
      | config.GatewayStatus gs =>
        let* now1 := Now in
        let conditions := ConditionallyUpdateCondition (k8s.gst_Conditions gs) {|
          metav1.Type_ := k8s.GatewayConditionReady;
          metav1.Status := StatusTrue;
          metav1.ObservedGeneration := config.Generation (config.meta obj);
          metav1.LastTransitionTime := now1;
          metav1.Reason := "ListenersValid";
          metav1.Message := "Listeners valid" |} in
        let* now2 := Now in
        let conditions := ConditionallyUpdateCondition conditions {|
          metav1.Type_ := k8s.GatewayConditionScheduled;
          metav1.Status := StatusTrue;
          metav1.ObservedGeneration := config.Generation (config.meta obj);
          metav1.LastTransitionTime := now2;
          metav1.Reason := "ResourcesAvailable";
          metav1.Message := "Resources available" |} in
        ret (config.GatewayStatus {|
          k8s.gst_Addresses := k8s.gst_Addresses gs;
          k8s.gst_Conditions := conditions;
          k8s.gst_Listeners := k8s.gst_Listeners gs |})
      | _ => panic
      end) in
    ret {| acc_result := (acc_result acc ++ [gatewayConfig])%list;
           acc_routeToGateway := routeToGateway |}
  | _ => panic
  end.

Definition convertGateway (r : KubernetesResources)
    : M (list config.Config * gmap RouteKey (list string)) :=
  let* classes := getGatewayClasses r in
  let* acc := foldM (convertOneGateway r classes)
                    {| acc_result := []; acc_routeToGateway := ∅ |} (Gateway r) in
  let routeToGateway :=
    foldl (fun m k => appendOwner m k experimentalMeshGatewayName)
          (acc_routeToGateway acc) (fetchMeshRoutes r) in
  ret (acc_result acc, routeToGateway).

Definition convertResources (r : KubernetesResources) : M OutputResources :=
  let* gateways := convertGateway r in
  let '(gw, routeMap) := gateways in
  let* vs := convertVirtualService r routeMap in
  let* dr := convertDestinationRule r in
  ret {| out_Gateway := gw; out_VirtualService := vs; out_DestinationRule := dr |}.

End Converters.

Local Close Scope string_scope.

(** ** The insertion sort is a [Sorter] *)

Module InsertionSorter.
Import GoSort.

Lemma run_swaps_app {S} (I : Interface S) (s : S) (l1 l2 : list (nat * nat)) :
  run_swaps I s (l1 ++ l2) = run_swaps I (run_swaps I s l1) l2.
Proof. unfold run_swaps. apply foldl_app. Qed.

Lemma insertDown_swaps {S} (I : Interface S) (j : nat) (s : S) :
  exists l, Forall (fun p => (p.1 <= j)%nat /\ (p.2 <= j)%nat) l /\
            insertDown I j s = run_swaps I s l.
Proof.
  revert s. induction j as [|j IH]; intros s; simpl.
  - exists []. split; [constructor | reflexivity].
  - destruct (Less I s (Datatypes.S j) j).
    + destruct (IH (Swap I s (Datatypes.S j) j)) as (l & Hl & ->).
      exists ((Datatypes.S j, j) :: l). split; [|reflexivity].
      constructor; [simpl; lia|].
      eapply Forall_impl; [exact Hl|]. simpl. intros; lia.
    + exists []. split; [constructor | reflexivity].
Qed.

Lemma insertion_loop_swaps {S} (I : Interface S) (n : nat) (ixs : list nat) (s : S) :
  Forall (fun i => (i < n)%nat) ixs ->
  exists l, Forall (fun p => (p.1 < n)%nat /\ (p.2 < n)%nat) l /\
            foldl (fun s i => insertDown I i s) s ixs = run_swaps I s l.
Proof.
  revert s. induction ixs as [|i ixs IH]; intros s Hn; simpl.
  - exists []. split; [constructor | reflexivity].
  - inversion Hn as [|? ? Hi His]; subst.
    destruct (insertDown_swaps I i s) as (l1 & Hl1 & ->).
    destruct (IH (run_swaps I s l1) His) as (l2 & Hl2 & ->).
    exists (l1 ++ l2). split; [|by rewrite run_swaps_app].
    apply Forall_app. split; [|exact Hl2].
    eapply Forall_impl; [exact Hl1|]. simpl. intros; lia.
Qed.

Lemma insertionSort_by_swaps (S : Type) (I : Interface S) (s : S) :
  exists l : list (nat * nat),
    Forall (fun p => (p.1 < Len I s)%nat /\ (p.2 < Len I s)%nat) l /\
    insertionSort I s = run_swaps I s l.
Proof.
  unfold insertionSort. apply insertion_loop_swaps.
  apply Forall_forall. intros i Hi. apply elem_of_seq in Hi. lia.
Qed.

Definition sorter : Sorter := {|
  sort_Sort := @insertionSort;
  sort_by_swaps := insertionSort_by_swaps
|}.

End InsertionSorter.

(** ** An instance of the environment

    Used to run the conversion on concrete snapshots. *)

Module Example.

Local Open Scope string_scope.

Definition requirementMatches (req : metav1.LabelSelectorRequirement)
    (labels : gmap string string) : option bool :=
  if metav1.Operator req =? "In" then
    Some (match labels !! metav1.Key req with
          | Some v => bool_decide (v ∈ metav1.Values req)
          | None => false
          end)
  else if metav1.Operator req =? "NotIn" then
    Some (match labels !! metav1.Key req with
          | Some v => negb (bool_decide (v ∈ metav1.Values req))
          | None => true
          end)
  else if metav1.Operator req =? "Exists" then
    Some (bool_decide (is_Some (labels !! metav1.Key req)))
  else if metav1.Operator req =? "DoesNotExist" then
    Some (negb (bool_decide (is_Some (labels !! metav1.Key req))))
  else None.

Definition LabelSelectorAsSelector (sel : metav1.LabelSelector)
    : option metav1.Selector :=
  if forallb (fun req => bool_decide (is_Some (requirementMatches req ∅)))
             (metav1.MatchExpressions sel)
  then Some (fun labels =>
    bool_decide (map_Forall (fun k v => labels !! k = Some v) (metav1.MatchLabels sel)) &&
    forallb (fun req => default false (requirementMatches req labels))
            (metav1.MatchExpressions sel))
  else None.

Definition lowerAscii (c : ascii) : ascii :=
  let n := nat_of_ascii c in
  if ((65 <=? n) && (n <=? 90))%nat then ascii_of_nat (n + 32) else c.

Fixpoint ToLower (s : string) : string :=
  match s with
  | EmptyString => EmptyString
  | String c s' => String (lowerAscii c) (ToLower s')
  end.

Definition isMeta (c : ascii) : bool :=
  existsb (Ascii.eqb c) (list_ascii_of_string "\.+*?()|[]{}^$").

Fixpoint QuoteMeta (s : string) : string :=
  match s with
  | EmptyString => EmptyString
  | String c s' =>
      if isMeta c then String "\"%char (String c (QuoteMeta s'))
      else String c (QuoteMeta s')
  end.

Definition itoa (z : Z) : string := NilZero.string_of_int (Z.to_int z).

Definition CanonicalGroup (g : config.GroupVersionKind) : string :=
  if config.Group g =? "" then "core" else config.Group g.

Definition env : Env := {|
  env_sorter := InsertionSorter.sorter;
  env_LabelSelectorAsSelector := LabelSelectorAsSelector;
  env_QuoteMeta := QuoteMeta;
  env_ToLower := ToLower;
  env_itoa := itoa;
  env_KubernetesGatewayName := "istio-autogenerated-k8s-gateway";
  env_IstioLabel := "istio";
  env_gvk_Gateway :=
    {| config.Group := "networking.istio.io"; config.Version := "v1alpha3";
       config.Kind := "Gateway" |};
  env_gvk_VirtualService :=
    {| config.Group := "networking.istio.io"; config.Version := "v1alpha3";
       config.Kind := "VirtualService" |};
  env_gvk_DestinationRule :=
    {| config.Group := "networking.istio.io"; config.Version := "v1alpha3";
       config.Kind := "DestinationRule" |};
  env_gvk_Service :=
    {| config.Group := ""; config.Version := "v1"; config.Kind := "Service" |};
  env_gvk_Secret :=
    {| config.Group := ""; config.Version := "v1"; config.Kind := "Secret" |};
  env_CanonicalGroup := CanonicalGroup
|}.

Definition gvk (kind : string) : config.GroupVersionKind :=
  {| config.Group := "networking.x-k8s.io"; config.Version := "v1alpha1";
     config.Kind := kind |}.

Definition meta (kind name namespace : string) : config.Meta := {|
  config.GVK := gvk kind;
  config.Name := name;
  config.Namespace := namespace;
  config.Domain := "";
  config.Labels := ∅;
  config.CreationTimestamp := 0;
  config.Generation := 1
|}.

Definition everything : metav1.LabelSelector :=
  {| metav1.MatchLabels := ∅; metav1.MatchExpressions := [] |}.

(** A route binding selector for HTTP routes with every other field left
    at its default. *)
Definition httpRoutes : k8s.RouteBindingSelector := {|
  k8s.rbs_Namespaces := {| k8s.rn_From := ""; k8s.rn_Selector := everything |};
  k8s.rbs_Selector := everything;
  k8s.rbs_Group := "";
  k8s.rbs_Kind := "HTTPRoute"
|}.

Definition listener (port : Z) : k8s.Listener := {|
  k8s.l_Hostname := None;
  k8s.l_Port := port;
  k8s.l_Protocol := "HTTP";
  k8s.l_TLS := None;
  k8s.l_Routes := httpRoutes
|}.

Definition gatewayClass : config.Config := {|
  config.meta := meta "GatewayClass" "istio" "";
  config.spec := config.GatewayClassSpec {| k8s.gcs_Controller := ControllerName |};
  config.status := Some 1%positive
|}.

(** A gateway with two listeners. *)
Definition gateway : config.Config := {|
  config.meta := meta "Gateway" "gateway" "apps";
  config.spec := config.GatewaySpec {|
    k8s.gs_GatewayClassName := "istio";
    k8s.gs_Listeners := [listener 80; listener 8080] |};
  config.status := Some 2%positive
|}.

Definition toService (name : string) (weight : Z) : k8s.HTTPRouteForwardTo := {|
  k8s.hfw_ServiceName := Some name;
  k8s.hfw_BackendRef := None;
  k8s.hfw_Port := Some 80;
  k8s.hfw_Weight := weight;
  k8s.hfw_Filters := []
|}.

(** A forwarding target that carries a backendRef and no service name. *)
Definition toBackendRef (weight : Z) : k8s.HTTPRouteForwardTo := {|
  k8s.hfw_ServiceName := None;
  k8s.hfw_BackendRef :=
    Some {| k8s.lor_Group := "storage.example.io"; k8s.lor_Kind := "Bucket";
            k8s.lor_Name := "assets" |};
  k8s.hfw_Port := None;
  k8s.hfw_Weight := weight;
  k8s.hfw_Filters := []
|}.

Definition httpRoute (name namespace : string) (gateways : k8s.RouteGateways)
    (st : config.loc) : config.Config := {|
  config.meta := meta "HTTPRoute" name namespace;
  config.spec := config.HTTPRouteSpec {|
    k8s.hs_Gateways := gateways;
    k8s.hs_Hostnames := [];
    k8s.hs_Rules := [ {|
      k8s.hr_Matches := [];
      k8s.hr_Filters := [];
      k8s.hr_ForwardTo := [toService "reviews" 1; toService "ratings" 3] |} ] |};
  config.status := Some st
|}.

Definition sameNamespace : k8s.RouteGateways :=
  {| k8s.rg_Allow := "SameNamespace"; k8s.rg_GatewayRefs := [] |}.

Definition meshOnly : k8s.RouteGateways := {|
  k8s.rg_Allow := "FromList";
  k8s.rg_GatewayRefs := [ {| k8s.gr_Name := "mesh"; k8s.gr_Namespace := "default" |} ]
|}.

Definition noRouteStatus : config.Status :=
  config.HTTPRouteStatus {| k8s.rs_Gateways := [] |}.

(** A status with one listener entry too many for [gateway]. *)
Definition staleGatewayStatus : config.Status :=
  config.GatewayStatus {|
    k8s.gst_Addresses := [];
    k8s.gst_Conditions := [];
    k8s.gst_Listeners := replicate 3 k8s.ListenerStatus_zero |}.

(** One gateway class, one gateway with two listeners, one route in the
    namespace of the gateway. *)
Definition snapshot : KubernetesResources := {|
  GatewayClass := [gatewayClass];
  Gateway := [gateway];
  HTTPRoute := [httpRoute "reviews" "apps" sameNamespace 3%positive];
  TCPRoute := [];
  TLSRoute := [];
  BackendPolicy := [];
  Namespaces := ∅;
  Domain := "cluster.local"
|}.

(** A snapshot without any gateway: one route that refers to the mesh. *)
Definition meshSnapshot : KubernetesResources := {|
  GatewayClass := [];
  Gateway := [];
  HTTPRoute := [httpRoute "reviews" "apps" meshOnly 3%positive];
  TCPRoute := [];
  TLSRoute := [];
  BackendPolicy := [];
  Namespaces := ∅;
  Domain := "cluster.local"
|}.

Definition world : World := {|
  statuses := {[ 1%positive := config.GatewayClassStatus {| k8s.gcst_Conditions := [] |};
                 2%positive := staleGatewayStatus;
                 3%positive := noRouteStatus ]};
  clock := fun n => Z.of_nat n;
  ticks := 0
|}.

End Example.

(** * Properties *)

(** ** Machine integers *)

Lemma wrap64_id (z : Z) : - 2 ^ 63 <= z < 2 ^ 63 -> GoInt.wrap64 z = z.
Proof. intros H. unfold GoInt.wrap64. rewrite Z.mod_small; lia. Qed.

Lemma wrap32_id (z : Z) : - 2 ^ 31 <= z < 2 ^ 31 -> GoInt.wrap32 z = z.
Proof. intros H. unfold GoInt.wrap32. rewrite Z.mod_small; lia. Qed.

(** The sum of a list of integers, without wrap-around. *)
Definition Zsum (l : list Z) : Z := foldr Z.add 0 l.

Lemma Zsum_app (l1 l2 : list Z) : Zsum (l1 ++ l2) = Zsum l1 + Zsum l2.
Proof. induction l1 as [|x l1 IH]; simpl; lia. Qed.

Lemma Zsum_nonneg (l : list Z) : Forall (fun x => 0 <= x) l -> 0 <= Zsum l.
Proof. induction 1; simpl; lia. Qed.

Lemma intSum_from (acc : Z) (l : list Z) :
  Forall (fun x => 0 <= x) l -> 0 <= acc -> acc + Zsum l < 2 ^ 63 ->
  foldl (fun r i => GoInt.add r i) acc l = acc + Zsum l.
Proof.
  intros Hl. revert acc. induction Hl as [|x l Hx Hl IH]; intros acc Hacc Hs; simpl in *.
  - lia.
  - pose proof (Zsum_nonneg l Hl).
    unfold GoInt.add at 2. rewrite wrap64_id by lia.
    rewrite IH; lia.
Qed.

Lemma intSum_exact (l : list Z) :
  Forall (fun x => 0 <= x) l -> Zsum l < 2 ^ 63 -> intSum l = Zsum l.
Proof. intros Hl Hs. unfold intSum. rewrite intSum_from by (done || lia). lia. Qed.

(** ** Sorting permutes the indices *)

Section SortFacts.
Import GoSort.

Lemma swap_list_length {A} (l : list A) (i j : nat) :
  length (swap_list l i j) = length l.
Proof.
  unfold swap_list. destruct (l !! i), (l !! j); try reflexivity.
  by rewrite !length_insert.
Qed.

Lemma insert_Permutation {A} (l : list A) (j : nat) (b x : A) :
  l !! j = Some b -> x :: l ≡ₚ b :: <[j := x]> l.
Proof.
  revert j. induction l as [|y l IH]; intros [|j] Hj; simpl in *; try discriminate.
  - injection Hj as ->. apply perm_swap.
  - etransitivity; [apply perm_swap|].
    etransitivity; [apply perm_skip, (IH j Hj)|]. apply perm_swap.
Qed.

Lemma swap_list_Permutation {A} (l : list A) (i j : nat) : swap_list l i j ≡ₚ l.
Proof.
  unfold swap_list.
  destruct (l !! i) as [a|] eqn:Hi; [|reflexivity].
  destruct (l !! j) as [b|] eqn:Hj; [|reflexivity].
  destruct (decide (i = j)) as [->|Hne].
  - rewrite list_insert_insert_eq. rewrite Hi in Hj. injection Hj as ->.
    by rewrite list_insert_id.
  - apply (Permutation_cons_inv (a := b)). symmetry.
    etransitivity; [apply (insert_Permutation l i a b Hi)|].
    apply insert_Permutation. by rewrite list_lookup_insert_ne.
Qed.

Lemma run_swaps_idx {S} (I : Interface S) (s : argSlice S) (l : list (nat * nat)) :
  idx (run_swaps (Reverse (argSliceI I)) s l) =
  foldl (fun ix p => swap_list ix p.1 p.2) (idx s) l.
Proof.
  revert s. induction l as [|p l IH]; intros s; [reflexivity|].
  unfold run_swaps in *. cbn [foldl]. rewrite IH. reflexivity.
Qed.

Lemma foldl_swap_Permutation {A} (ix : list A) (l : list (nat * nat)) :
  foldl (fun ix p => swap_list ix p.1 p.2) ix l ≡ₚ ix.
Proof.
  revert ix. induction l as [|p l IH]; intros ix; simpl; [reflexivity|].
  rewrite IH. apply swap_list_Permutation.
Qed.

Lemma argsort_Permutation (sorter : Sorter) (n : list Float64.float64) :
  argsort sorter n ≡ₚ seq 0 (length n).
Proof.
  unfold argsort.
  destruct (sort_by_swaps sorter _ (Reverse (argSliceI Float64Slice))
              {| inner := n; idx := seq 0 (length n) |}) as (l & _ & ->).
  rewrite run_swaps_idx. simpl. apply foldl_swap_Permutation.
Qed.

Lemma argsort_length (sorter : Sorter) (n : list Float64.float64) :
  length (argsort sorter n) = length n.
Proof. by rewrite (argsort_Permutation sorter n), length_seq. Qed.

Lemma argsort_NoDup (sorter : Sorter) (n : list Float64.float64) :
  NoDup (argsort sorter n).
Proof. rewrite (argsort_Permutation sorter n). apply NoDup_seq. Qed.

Lemma argsort_bound (sorter : Sorter) (n : list Float64.float64) (i : nat) :
  i ∈ argsort sorter n -> (i < length n)%nat.
Proof.
  rewrite (argsort_Permutation sorter n). intros H%elem_of_seq. lia.
Qed.

Lemma argsort_nil (sorter : Sorter) : argsort sorter [] = [].
Proof. apply Permutation_nil_r. apply (argsort_Permutation sorter []). Qed.

End SortFacts.

(** ** The weight normalizer: structure of a run *)

Section WeightFacts.
Import GoSort.

Variable sorter : Sorter.

(** What the loop over the weights computes for one weight. *)
Definition roundedOf (total w : Z) : Z :=
  Float64.to_int
    (Float64.mul (Float64.div (Float64.of_int w) (Float64.of_int total))
                 (Float64.of_int 100)).

Definition remainderOf (total w : Z) : Float64.float64 :=
  Float64.sub
    (Float64.mul (Float64.div (Float64.of_int w) (Float64.of_int total))
                 (Float64.of_int 100))
    (Float64.of_int (roundedOf total w)).

Lemma percent_loop_from (total : Z) (acc : percents) (weights : list Z) :
  foldl (percent_step total) acc weights =
  {| results := results acc ++ map (roundedOf total) weights;
     remainders := remainders acc ++ map (remainderOf total) weights;
     divisions := divisions acc ++ map (fun w => (w, total)) weights |}.
Proof.
  revert acc. induction weights as [|w weights IH]; intros acc; simpl.
  - rewrite !app_nil_r. by destruct acc.
  - rewrite IH. simpl. by rewrite <- !app_assoc.
Qed.

Lemma percent_loop_eq (total : Z) (weights : list Z) :
  percent_loop total weights =
  {| results := map (roundedOf total) weights;
     remainders := map (remainderOf total) weights;
     divisions := map (fun w => (w, total)) weights |}.
Proof. unfold percent_loop. by rewrite percent_loop_from. Qed.

Lemma distribute_length (order : list nat) (remaining : Z) (res : list Z) :
  length (distribute order remaining res) = length res.
Proof.
  revert remaining res. induction order as [|i order IH]; intros remaining res; simpl.
  - reflexivity.
  - destruct (remaining <=? 0); [reflexivity|]. rewrite IH. apply length_alter.
Qed.

(** The total by which the weights are divided. *)
Definition divisorOf (weights : list Z) : Z :=
  if intSum weights =? 0 then Z.of_nat (length weights) else intSum weights.

(** The weights after the fallback to even weights. *)
Definition effectiveWeights (weights : list Z) : list Z :=
  if intSum weights =? 0 then map (fun _ => 1) weights else weights.

Lemma standardizeWeights_run_eq (weights : list Z) :
  length weights <> 1%nat ->
  standardizeWeights_run sorter weights =
  (let res := map (roundedOf (divisorOf weights)) (effectiveWeights weights) in
   distribute
     (argsort sorter (map (remainderOf (divisorOf weights)) (effectiveWeights weights)))
     (GoInt.sub 100 (intSum res)) res,
   map (fun w => (w, divisorOf weights)) (effectiveWeights weights)).
Proof.
  intros Hlen. unfold standardizeWeights_run, divisorOf, effectiveWeights.
  destruct (Nat.eqb_spec (length weights) 1) as [|_]; [done|].
  destruct (intSum weights =? 0); by rewrite percent_loop_eq.
Qed.

Lemma effectiveWeights_length (weights : list Z) :
  length (effectiveWeights weights) = length weights.
Proof.
  unfold effectiveWeights. destruct (intSum weights =? 0); [|done].
  by rewrite length_map.
Qed.

(** The result has as many entries as the input, whatever the input. *)
Lemma standardizeWeights_length (weights : list Z) :
  length (standardizeWeights sorter weights) = length weights.
Proof.
  unfold standardizeWeights.
  destruct (decide (length weights = 1%nat)) as [H1|H1].
  - unfold standardizeWeights_run. by rewrite H1.
  - rewrite standardizeWeights_run_eq by done. simpl.
    by rewrite distribute_length, length_map, effectiveWeights_length.
Qed.

(** No division of a run has a zero divisor. *)
Lemma standardizeWeights_divisor_nonzero (weights : list Z) :
  Forall (fun d : division => d.2 <> 0) (standardizeWeights_run sorter weights).2.
Proof.
  destruct (decide (length weights = 1%nat)) as [H1|H1].
  - unfold standardizeWeights_run. rewrite H1. constructor.
  - rewrite standardizeWeights_run_eq by done. simpl.
    apply Forall_forall. intros d Hd. apply list_elem_of_fmap in Hd as (w & -> & Hw).
    simpl. unfold divisorOf. destruct (Z.eqb_spec (intSum weights) 0) as [H0|H0]; [|done].
    assert (length (effectiveWeights weights) <> 0%nat) as Hne
      by (destruct (effectiveWeights weights); [by apply elem_of_nil in Hw | done]).
    rewrite effectiveWeights_length in Hne. lia.
Qed.

(** C7: a list of exactly one weight is answered with the single sentinel
    zero, whatever the weight is. *)
Theorem standardizeWeights_single (w : Z) : standardizeWeights sorter [w] = [0].
Proof. reflexivity. Qed.

(** C9: on the empty list [standardizeWeights] returns the empty list and
    executes no division at all; in any run, no division has a zero
    divisor. *)
Theorem standardizeWeights_empty :
  standardizeWeights sorter [] = [] /\
  (standardizeWeights_run sorter []).2 = [] /\
  forall weights : list Z,
    Forall (fun d : division => d.2 <> 0) (standardizeWeights_run sorter weights).2.
Proof.
  split; [|split].
  - unfold standardizeWeights. rewrite standardizeWeights_run_eq by done.
    simpl. change (effectiveWeights []) with (@nil Z). simpl.
    by rewrite argsort_nil.
  - by rewrite standardizeWeights_run_eq.
  - apply standardizeWeights_divisor_nonzero.
Qed.

End WeightFacts.

(** ** The binding resolver *)

Section BindingFacts.

Variable env : Env.

Lemma gatewayAllows_SameNamespace (cfg : config.Config) (gateway : config.Meta)
    (sel : k8s.RouteGateways) :
  getGatewaySelectorFromSpec (config.spec cfg) = Some sel ->
  k8s.rg_Allow sel = k8s.GatewayAllowSameNamespace ->
  gatewayAllows cfg gateway =
  (config.Namespace gateway =? config.Namespace (config.meta cfg))%string.
Proof.
  intros Hsel Hallow. unfold gatewayAllows. rewrite Hsel, Hallow. reflexivity.
Qed.

(** Whatever the clauses on kind, group, labels and namespaces say, a match
    needs the consent of the route. *)
Lemma isRouteMatch_gatewayAllows (cfg : config.Config) (gateway : config.Meta)
    (routes : k8s.RouteBindingSelector) (namespaces : gmap string corev1.Namespace) :
  isRouteMatch env cfg gateway routes namespaces = true ->
  gatewayAllows cfg gateway = true.
Proof.
  unfold isRouteMatch. intros H.
  repeat match type of H with
         | (if ?b then _ else _) = true => destruct b; try discriminate H
         | match ?o with Some _ => _ | None => _ end = true =>
             destruct o; try discriminate H
         end; exact H.
Qed.

(** C5: a route whose own gateway selection is "SameNamespace" and whose
    namespace differs from the gateway's is never matched, whatever the
    listener selector, the label selectors and the namespace index are. *)
Theorem isRouteMatch_SameNamespace (cfg : config.Config) (gateway : config.Meta)
    (routes : k8s.RouteBindingSelector) (namespaces : gmap string corev1.Namespace)
    (sel : k8s.RouteGateways) :
  getGatewaySelectorFromSpec (config.spec cfg) = Some sel ->
  k8s.rg_Allow sel = "SameNamespace"%string ->
  config.Namespace (config.meta cfg) <> config.Namespace gateway ->
  isRouteMatch env cfg gateway routes namespaces = false.
Proof.
  intros Hsel Hallow Hns.
  destruct (isRouteMatch env cfg gateway routes namespaces) eqn:Hm; [|reflexivity].
  apply isRouteMatch_gatewayAllows in Hm.
  rewrite (gatewayAllows_SameNamespace cfg gateway sel Hsel Hallow) in Hm.
  apply String.eqb_eq in Hm. congruence.
Qed.

End BindingFacts.

(** ** Destinations of a rule *)

Section DestinationFacts.

Variable env : Env.

Lemma buildHTTPDestination_length (action : list k8s.HTTPRouteForwardTo)
    (ns domain : string) :
  length (buildHTTPDestination env action ns domain) = length action.
Proof. unfold buildHTTPDestination. apply length_imap. Qed.

Lemma buildTCPDestination_length (action : list k8s.RouteForwardTo)
    (ns domain : string) :
  length (buildTCPDestination env action ns domain) = length action.
Proof.
  unfold buildTCPDestination.
  destruct (Nat.eqb_spec (length action) 0) as [->|_]; [reflexivity|].
  apply length_imap.
Qed.

Lemma buildHTTPDestination_lookup (action : list k8s.HTTPRouteForwardTo)
    (ns domain : string) (i : nat) (to : k8s.HTTPRouteForwardTo) :
  action !! i = Some to ->
  exists rd, buildHTTPDestination env action ns domain !! i = Some rd /\
             istio.hrd_Destination rd = buildDestination to ns domain.
Proof.
  intros Hi. unfold buildHTTPDestination. rewrite list_lookup_imap, Hi. simpl.
  eexists. split; reflexivity.
Qed.

Lemma buildTCPDestination_lookup (action : list k8s.RouteForwardTo)
    (ns domain : string) (i : nat) (to : k8s.RouteForwardTo) :
  action !! i = Some to ->
  exists rd, buildTCPDestination env action ns domain !! i = Some rd /\
             istio.rd_Destination rd = buildGenericDestination to ns domain.
Proof.
  intros Hi. unfold buildTCPDestination.
  destruct (Nat.eqb_spec (length action) 0) as [H0|_].
  - destruct action; [by rewrite lookup_nil in Hi | discriminate H0].
  - rewrite list_lookup_imap, Hi. simpl. eexists. split; reflexivity.
Qed.

(** C3, as the code has it: every forwarding target of a rule, with a
    service name or without, yields exactly one destination at its own
    position.  The destination has the port of the target, if it has one,
    and its weight is the weight that [standardizeWeights] gives to the
    position of the target among the weights of all the targets of the
    rule, as a 32-bit integer.  For a target without a service name (one
    that carries only a backendRef) the host of the destination is the
    empty string. *)
Theorem forwarding_target_one_destination :
  (forall (action : list k8s.HTTPRouteForwardTo) (ns domain : string),
     length (buildHTTPDestination env action ns domain) = length action /\
     forall (i : nat) (to : k8s.HTTPRouteForwardTo),
       action !! i = Some to ->
       exists rd y,
         buildHTTPDestination env action ns domain !! i = Some rd /\
         istio.hrd_Destination rd = buildDestination to ns domain /\
         istio.d_Port (istio.hrd_Destination rd) =
           match k8s.hfw_Port to with
           | Some p => Some {| istio.Number := p mod 2 ^ 32 |}
           | None => None
           end /\
         standardizeWeights (env_sorter env) (map k8s.hfw_Weight action) !! i = Some y /\
         istio.hrd_Weight rd = GoInt.wrap32 y /\
         (k8s.hfw_ServiceName to = None ->
          istio.d_Host (istio.hrd_Destination rd) = ""%string)) /\
  (forall (action : list k8s.RouteForwardTo) (ns domain : string),
     length (buildTCPDestination env action ns domain) = length action /\
     forall (i : nat) (to : k8s.RouteForwardTo),
       action !! i = Some to ->
       exists rd y,
         buildTCPDestination env action ns domain !! i = Some rd /\
         istio.rd_Destination rd = buildGenericDestination to ns domain /\
         istio.d_Port (istio.rd_Destination rd) =
           match k8s.fw_Port to with
           | Some p => Some {| istio.Number := p mod 2 ^ 32 |}
           | None => None
           end /\
         standardizeWeights (env_sorter env) (map k8s.fw_Weight action) !! i = Some y /\
         istio.rd_Weight rd = GoInt.wrap32 y /\
         (k8s.fw_ServiceName to = None ->
          istio.d_Host (istio.rd_Destination rd) = ""%string)).
Proof.
  split; intros action ns domain.
  - split; [apply buildHTTPDestination_length|]. intros i to Hi.
    destruct (lookup_lt_is_Some_2
                (standardizeWeights (env_sorter env) (map k8s.hfw_Weight action)) i)
      as [y Hy].
    { rewrite standardizeWeights_length, length_map. by apply lookup_lt_Some in Hi. }
    eexists _, y. split.
    { unfold buildHTTPDestination. rewrite list_lookup_imap, Hi. reflexivity. }
    cbn [istio.hrd_Destination istio.hrd_Weight]. split; [reflexivity|].
    split; [reflexivity|]. split; [exact Hy|].
    split; [by rewrite (list_lookup_total_correct _ _ _ Hy)|].
    intros Hnone. unfold buildDestination. simpl. by rewrite Hnone.
  - split; [apply buildTCPDestination_length|]. intros i to Hi.
    destruct (lookup_lt_is_Some_2
                (standardizeWeights (env_sorter env) (map k8s.fw_Weight action)) i)
      as [y Hy].
    { rewrite standardizeWeights_length, length_map. by apply lookup_lt_Some in Hi. }
    eexists _, y. split.
    { unfold buildTCPDestination.
      destruct (Nat.eqb_spec (length action) 0) as [H0|_].
      - destruct action; [by rewrite lookup_nil in Hi | discriminate H0].
      - rewrite list_lookup_imap, Hi. reflexivity. }
    cbn [istio.rd_Destination istio.rd_Weight]. split; [reflexivity|].
    split; [reflexivity|]. split; [exact Hy|].
    split; [by rewrite (list_lookup_total_correct _ _ _ Hy)|].
    intros Hnone. unfold buildGenericDestination. simpl. by rewrite Hnone.
Qed.

End DestinationFacts.

(** ** Running the monad *)

Lemma bind_Some {A B} (m : M A) (k : A -> M B) (w : World) (b : B) (w' : World) :
  bind m k w = Some (b, w') <->
  exists a w1, m w = Some (a, w1) /\ k a w1 = Some (b, w').
Proof.
  unfold bind. split.
  - destruct (m w) as [[a w1]|]; [|discriminate]. intros H. by exists a, w1.
  - intros (a & w1 & -> & H). exact H.
Qed.

Lemma bind_run {A B} (m : M A) (k : A -> M B) (w : World) (a : A) (w1 : World) :
  m w = Some (a, w1) -> bind m k w = k a w1.
Proof. unfold bind. by intros ->. Qed.

Lemma Mutate_run (l : config.loc) (f : config.Status -> M config.Status)
    (w : World) (s s' : config.Status) (w1 : World) :
  statuses w !! l = Some s -> f s w = Some (s', w1) ->
  Mutate l f w =
  Some (tt, {| statuses := <[l := s']> (statuses w1);
               clock := clock w1; ticks := ticks w1 |}).
Proof. unfold Mutate. by intros -> ->. Qed.

(** The elements of a list next to their positions, counted from [k]. *)
Definition indexedFrom {A} (k : nat) (l : list A) : list (nat * A) :=
  imap (fun i x => ((k + i)%nat, x)) l.

Lemma indexedFrom_cons {A} (k : nat) (x : A) (l : list A) :
  indexedFrom k (x :: l) = (k, x) :: indexedFrom (S k) l.
Proof.
  unfold indexedFrom. simpl. f_equal; [f_equal; lia|].
  apply imap_ext. intros i y _. simpl. f_equal. lia.
Qed.

Lemma indexed_indexedFrom {A} (l : list A) : indexed l = indexedFrom 0 l.
Proof. reflexivity. Qed.

(** ** The gateway converter, one listener at a time *)

Section GatewayFacts.

Variable env : Env.
Variable r : KubernetesResources.

(** The condition that [convertGateway] reports for a listener. *)
Definition readyCondition (obj : config.Config) (now : Time) : metav1.Condition := {|
  metav1.Type_ := k8s.ListenerConditionReady;
  metav1.Status := StatusTrue;
  metav1.ObservedGeneration := config.Generation (config.meta obj);
  metav1.LastTransitionTime := now;
  metav1.Reason := "ListenerReady";
  metav1.Message := "No error found"
|}.

Definition serverOf (obj : config.Config) (l : k8s.Listener) : istio.Server := {|
  istio.s_Hosts := buildHostnameMatch (k8s.l_Hostname l);
  istio.s_Port := {|
    istio.p_Number := GoInt.to_uint32 (k8s.l_Port l);
    istio.p_Protocol := k8s.l_Protocol l;
    istio.p_Name :=
      (env_ToLower env (k8s.l_Protocol l) ++ "-" ++ env_itoa env (k8s.l_Port l) ++
       "-gateway-" ++ config.Name (config.meta obj) ++ "-" ++
       config.Namespace (config.meta obj))%string |};
  istio.s_Tls := buildTLS env (k8s.l_TLS l)
|}.

(** The namespace-qualified name under which a gateway owns routes. *)
Definition ownerName (obj : config.Config) : string :=
  (config.Namespace (config.meta obj) ++ "/" ++
   (config.Name (config.meta obj) ++ "-" ++ env_KubernetesGatewayName env))%string.

(** What one listener adds to the ownership map. *)
Definition listenerOwners (obj : config.Config)
    (m : gmap RouteKey (list string)) (l : k8s.Listener) : gmap RouteKey (list string) :=
  ownRoutes (fetchTLSRoutes env r (config.meta obj) (k8s.l_Routes l)) (ownerName obj)
    (ownRoutes (fetchTCPRoutes env r (config.meta obj) (k8s.l_Routes l)) (ownerName obj)
       (ownRoutes (fetchHTTPRoutes env r (config.meta obj) (k8s.l_Routes l))
          (ownerName obj) m)).

Definition setListener (gs : k8s.GatewayStatus) (i : nat) (ls : k8s.ListenerStatus)
    : k8s.GatewayStatus := {|
  k8s.gst_Addresses := k8s.gst_Addresses gs;
  k8s.gst_Conditions := k8s.gst_Conditions gs;
  k8s.gst_Listeners := <[i := ls]> (k8s.gst_Listeners gs)
|}.

Definition listenerStatusOf (obj : config.Config) (l : k8s.Listener)
    (li : k8s.ListenerStatus) (now : Time) : k8s.ListenerStatus := {|
  k8s.lst_Port := k8s.l_Port l;
  k8s.lst_Protocol := k8s.l_Protocol l;
  k8s.lst_Hostname := k8s.l_Hostname l;
  k8s.lst_Conditions :=
    ConditionallyUpdateCondition (k8s.lst_Conditions li) (readyCondition obj now)
|}.

Definition tick (w : World) (st : gmap config.loc config.Status) (n : nat) : World :=
  {| statuses := st; clock := clock w; ticks := (ticks w + n)%nat |}.

Lemma convertListener_run (obj : config.Config) (st : config.loc)
    (servers : list istio.Server) (m : gmap RouteKey (list string))
    (i : nat) (l : k8s.Listener) (w : World)
    (gs : k8s.GatewayStatus) (li : k8s.ListenerStatus) :
  statuses w !! st = Some (config.GatewayStatus gs) ->
  k8s.gst_Listeners gs !! i = Some li ->
  convertListener env r obj st
    (config.Name (config.meta obj) ++ "-" ++ env_KubernetesGatewayName env)%string
    (servers, m) (i, l) w =
  Some ((servers ++ [serverOf obj l], listenerOwners obj m l),
        tick w (<[st := config.GatewayStatus
                    (setListener gs i (listenerStatusOf obj l li (clock w (ticks w))))]>
                  (statuses w)) 1).
Proof.
  intros Hst Hli. unfold convertListener.
  erewrite bind_run; [reflexivity|].
  erewrite Mutate_run; [| exact Hst | cbv beta iota; rewrite Hli; reflexivity].
  unfold tick. simpl. do 3 f_equal. lia.
Qed.

Lemma tick_tick (w : World) (st1 st2 : gmap config.loc config.Status) (n1 n2 : nat) :
  tick (tick w st1 n1) st2 n2 = tick w st2 (n1 + n2).
Proof. unfold tick. simpl. f_equal. lia. Qed.

Lemma convertListeners_run (obj : config.Config) (st : config.loc)
    (l : list k8s.Listener) :
  forall (k : nat) (servers : list istio.Server) (m : gmap RouteKey (list string))
         (w : World) (gs : k8s.GatewayStatus),
  statuses w !! st = Some (config.GatewayStatus gs) ->
  (k + length l <= length (k8s.gst_Listeners gs))%nat ->
  exists gs',
    foldM (convertListener env r obj st
             (config.Name (config.meta obj) ++ "-" ++ env_KubernetesGatewayName env)%string)
          (servers, m) (indexedFrom k l) w =
    Some ((servers ++ map (serverOf obj) l, foldl (listenerOwners obj) m l),
          tick w (<[st := config.GatewayStatus gs']> (statuses w)) (length l)) /\
    k8s.gst_Addresses gs' = k8s.gst_Addresses gs /\
    k8s.gst_Conditions gs' = k8s.gst_Conditions gs /\
    length (k8s.gst_Listeners gs') = length (k8s.gst_Listeners gs) /\
    (forall i, (i < k \/ k + length l <= i)%nat ->
               k8s.gst_Listeners gs' !! i = k8s.gst_Listeners gs !! i) /\
    (forall j x, l !! j = Some x ->
       exists li t,
         k8s.gst_Listeners gs !! (k + j)%nat = Some li /\
         k8s.gst_Listeners gs' !! (k + j)%nat = Some (listenerStatusOf obj x li t)).
Proof.
  induction l as [|x l IH]; intros k servers m w gs Hst Hlen.
  - exists gs. simpl. unfold ret, tick. rewrite app_nil_r, Nat.add_0_r.
    rewrite insert_id by done. destruct w; simpl.
    repeat split; done.
  - simpl in Hlen.
    destruct (lookup_lt_is_Some_2 (k8s.gst_Listeners gs) k) as [li Hli]; [lia|].
    rewrite indexedFrom_cons. cbn [foldM].
    erewrite bind_run by (apply (convertListener_run obj st servers m k x w gs li Hst Hli)).
    set (gs1 := setListener gs k (listenerStatusOf obj x li (clock w (ticks w)))).
    set (w1 := tick w (<[st := config.GatewayStatus gs1]> (statuses w)) 1).
    destruct (IH (S k) (servers ++ [serverOf obj x]) (listenerOwners obj m x) w1 gs1)
      as (gs' & Hrun & Ha & Hc & Hl & Hout & Hin).
    { unfold w1, tick. simpl. apply lookup_insert_eq. }
    { unfold gs1, setListener. simpl. rewrite length_insert. lia. }
    exists gs'. rewrite Hrun. unfold w1. rewrite tick_tick. simpl.
    rewrite insert_insert_eq, <- app_assoc. simpl.
    assert (length (k8s.gst_Listeners gs1) = length (k8s.gst_Listeners gs)) as Hl1
      by (unfold gs1, setListener; simpl; apply length_insert).
    split; [reflexivity|]. split; [by rewrite Ha|]. split; [by rewrite Hc|].
    split; [by rewrite Hl|]. split.
    + intros i Hi. rewrite Hout by lia. unfold gs1, setListener. simpl.
      apply list_lookup_insert_ne. lia.
    + intros [|j] y Hj; simpl in Hj.
      * injection Hj as ->. exists li, (clock w (ticks w)).
        rewrite Nat.add_0_r. split; [done|]. rewrite Hout by lia.
        unfold gs1, setListener. simpl. apply list_lookup_insert_eq.
        by apply lookup_lt_Some in Hli.
      * destruct (Hin j y Hj) as (li' & t & Hli' & Hls).
        exists li', t. replace (k + S j)%nat with (S k + j)%nat by lia.
        split; [|done]. rewrite <- Hli'. unfold gs1, setListener. simpl.
        symmetry. apply list_lookup_insert_ne. lia.
Qed.

(** The status of a gateway after the first mutation of the loop body. *)
Definition resetListeners (kgw : k8s.GatewaySpec) (gs : k8s.GatewayStatus)
    : k8s.GatewayStatus := {|
  k8s.gst_Addresses := [];
  k8s.gst_Conditions := k8s.gst_Conditions gs;
  k8s.gst_Listeners :=
    if negb (length (k8s.gst_Listeners gs) =? length (k8s.gs_Listeners kgw))%nat
    then replicate (length (k8s.gs_Listeners kgw)) k8s.ListenerStatus_zero
    else k8s.gst_Listeners gs
|}.

Lemma resetListeners_length (kgw : k8s.GatewaySpec) (gs : k8s.GatewayStatus) :
  length (k8s.gst_Listeners (resetListeners kgw gs)) = length (k8s.gs_Listeners kgw).
Proof.
  unfold resetListeners. simpl.
  destruct (Nat.eqb_spec (length (k8s.gst_Listeners gs)) (length (k8s.gs_Listeners kgw)));
    simpl; [done|]. apply length_replicate.
Qed.

Definition gatewayReady (obj : config.Config) (now : Time) : metav1.Condition := {|
  metav1.Type_ := k8s.GatewayConditionReady;
  metav1.Status := StatusTrue;
  metav1.ObservedGeneration := config.Generation (config.meta obj);
  metav1.LastTransitionTime := now;
  metav1.Reason := "ListenersValid";
  metav1.Message := "Listeners valid"
|}.

Definition gatewayScheduled (obj : config.Config) (now : Time) : metav1.Condition := {|
  metav1.Type_ := k8s.GatewayConditionScheduled;
  metav1.Status := StatusTrue;
  metav1.ObservedGeneration := config.Generation (config.meta obj);
  metav1.LastTransitionTime := now;
  metav1.Reason := "ResourcesAvailable";
  metav1.Message := "Resources available"
|}.

Definition gatewayConfigOf (obj : config.Config) (kgw : k8s.GatewaySpec)
    : config.Config := {|
  config.meta := {|
    config.CreationTimestamp := config.CreationTimestamp (config.meta obj);
    config.GVK := env_gvk_Gateway env;
    config.Name :=
      (config.Name (config.meta obj) ++ "-" ++ env_KubernetesGatewayName env)%string;
    config.Namespace := config.Namespace (config.meta obj);
    config.Domain := Domain r;
    config.Labels := ∅;
    config.Generation := 0 |};
  config.spec := config.IstioGateway {|
    istio.g_Servers := map (serverOf obj) (k8s.gs_Listeners kgw);
    istio.g_Selector := {[ env_IstioLabel env := "ingressgateway"%string ]} |};
  config.status := None
|}.

Lemma convertOneGateway_skipped (classes : gset string) (acc : gatewayAcc)
    (obj : config.Config) (kgw : k8s.GatewaySpec) (w : World) :
  config.spec obj = config.GatewaySpec kgw ->
  k8s.gs_GatewayClassName kgw ∉ classes ->
  convertOneGateway env r classes acc obj w = Some (acc, w).
Proof.
  intros Hspec Hcls. unfold convertOneGateway. rewrite Hspec.
  by rewrite bool_decide_eq_false_2.
Qed.

Lemma convertOneGateway_admitted (classes : gset string) (acc : gatewayAcc)
    (obj : config.Config) (kgw : k8s.GatewaySpec) (st : config.loc) (w : World)
    (gs : k8s.GatewayStatus) :
  config.spec obj = config.GatewaySpec kgw ->
  k8s.gs_GatewayClassName kgw ∈ classes ->
  config.status obj = Some st ->
  statuses w !! st = Some (config.GatewayStatus gs) ->
  exists gs',
    convertOneGateway env r classes acc obj w =
    Some ({| acc_result := acc_result acc ++ [gatewayConfigOf obj kgw];
             acc_routeToGateway :=
               foldl (listenerOwners obj) (acc_routeToGateway acc)
                     (k8s.gs_Listeners kgw) |},
          tick w (<[st := config.GatewayStatus gs']> (statuses w))
               (length (k8s.gs_Listeners kgw) + 2)) /\
    k8s.gst_Addresses gs' = [] /\
    (exists t1 t2,
       k8s.gst_Conditions gs' =
       ConditionallyUpdateCondition
         (ConditionallyUpdateCondition (k8s.gst_Conditions gs) (gatewayReady obj t1))
         (gatewayScheduled obj t2)) /\
    length (k8s.gst_Listeners gs') = length (k8s.gs_Listeners kgw) /\
    (forall j x, k8s.gs_Listeners kgw !! j = Some x ->
       exists li t,
         k8s.gst_Listeners (resetListeners kgw gs) !! j = Some li /\
         k8s.gst_Listeners gs' !! j = Some (listenerStatusOf obj x li t)).
Proof.
  intros Hspec Hcls Hstatus Hst. unfold convertOneGateway. rewrite Hspec.
  rewrite bool_decide_eq_true_2 by done. cbn [negb].
  unfold asWrappedStatus. rewrite Hstatus.
  erewrite bind_run by reflexivity.
  erewrite bind_run by (eapply Mutate_run; [exact Hst | reflexivity]).
  fold (resetListeners kgw gs).
  set (w1 := {| statuses := _; clock := _; ticks := _ |}).
  destruct (convertListeners_run obj st (k8s.gs_Listeners kgw) 0 []
              (acc_routeToGateway acc) w1 (resetListeners kgw gs))
    as (gs2 & Hrun & Ha & Hc & Hl & _ & Hin).
  { unfold w1. simpl. apply lookup_insert_eq. }
  { rewrite resetListeners_length. lia. }
  rewrite indexed_indexedFrom. erewrite bind_run by exact Hrun.
  cbn [app].
  erewrite bind_run.
  2:{ eapply Mutate_run; [apply lookup_insert_eq | reflexivity]. }
  unfold ret. cbn [tick statuses clock ticks w1].
  eexists. split.
  { f_equal. f_equal. unfold tick. simpl. rewrite !insert_insert_eq.
    f_equal. lia. }
  simpl. split; [by rewrite Ha|]. split.
  { eexists _, _. rewrite Hc. reflexivity. }
  split; [by rewrite Hl, resetListeners_length|].
  intros j x Hj. destruct (Hin j x Hj) as (li & t & Hli & Hls). by exists li, t.
Qed.

End GatewayFacts.


(** ** Well-typed snapshots

    The type assertions of the conversion succeed when every resource has the
    spec of its kind and points to a status object of its kind. *)

Inductive StatusKind : Type :=
  | KGatewayClass | KGateway | KHTTPRoute | KTCPRoute | KTLSRoute | KOther.

Definition statusKind (s : config.Status) : StatusKind :=
  match s with
  | config.GatewayClassStatus _ => KGatewayClass
  | config.GatewayStatus _ => KGateway
  | config.HTTPRouteStatus _ => KHTTPRoute
  | config.TCPRouteStatus _ => KTCPRoute
  | config.TLSRouteStatus _ => KTLSRoute
  | config.OtherStatus => KOther
  end.

Definition kinds (w : World) : gmap config.loc StatusKind :=
  statusKind <$> statuses w.

Definition hasKind (w : World) (obj : config.Config) (k : StatusKind) : Prop :=
  exists l, config.status obj = Some l /\ kinds w !! l = Some k.

Definition specKind (s : config.Spec) : StatusKind :=
  match s with
  | config.GatewayClassSpec _ => KGatewayClass
  | config.GatewaySpec _ => KGateway
  | config.HTTPRouteSpec _ => KHTTPRoute
  | config.TCPRouteSpec _ => KTCPRoute
  | config.TLSRouteSpec _ => KTLSRoute
  | _ => KOther
  end.

Definition typed (w : World) (k : StatusKind) (obj : config.Config) : Prop :=
  specKind (config.spec obj) = k /\ hasKind w obj k.

Definition isBackendPolicy (obj : config.Config) : Prop :=
  exists bp, config.spec obj = config.BackendPolicySpec bp.

Record wellTyped (r : KubernetesResources) (w : World) : Prop := {
  wt_GatewayClass : Forall (typed w KGatewayClass) (GatewayClass r);
  wt_Gateway : Forall (typed w KGateway) (Gateway r);
  wt_HTTPRoute : Forall (typed w KHTTPRoute) (HTTPRoute r);
  wt_TCPRoute : Forall (typed w KTCPRoute) (TCPRoute r);
  wt_TLSRoute : Forall (typed w KTLSRoute) (TLSRoute r);
  wt_BackendPolicy : Forall isBackendPolicy (BackendPolicy r)
}.

Lemma kinds_lookup (w : World) (l : config.loc) (k : StatusKind) :
  kinds w !! l = Some k <-> exists s, statuses w !! l = Some s /\ statusKind s = k.
Proof.
  unfold kinds. rewrite lookup_fmap. destruct (statuses w !! l) as [s|]; simpl.
  - split; [intros [= <-]; by exists s | intros (s' & [= <-] & <-); done].
  - split; [done | by intros (s' & ? & _)].
Qed.

Lemma kinds_insert (w : World) (n : nat) (l : config.loc) (s s' : config.Status) :
  statuses w !! l = Some s -> statusKind s' = statusKind s ->
  kinds (tick w (<[l := s']> (statuses w)) n) = kinds w.
Proof.
  intros Hl Hk. unfold kinds, tick. simpl. rewrite fmap_insert, Hk.
  apply insert_id. by rewrite lookup_fmap, Hl.
Qed.

Lemma typed_kinds (w w' : World) (k : StatusKind) (obj : config.Config) :
  kinds w' = kinds w -> typed w k obj -> typed w' k obj.
Proof. intros Hk [Hs (l & Hl & Hkl)]. split; [done|]. exists l. by rewrite Hk. Qed.

Lemma Forall_typed_kinds (w w' : World) (k : StatusKind) (l : list config.Config) :
  kinds w' = kinds w -> Forall (typed w k) l -> Forall (typed w' k) l.
Proof.
  intros Hk H. eapply Forall_impl; [exact H|]. intros obj. by apply typed_kinds.
Qed.

Lemma wellTyped_kinds (r : KubernetesResources) (w w' : World) :
  kinds w' = kinds w -> wellTyped r w -> wellTyped r w'.
Proof.
  intros Hk [H1 H2 H3 H4 H5 H6].
  split; try (eapply Forall_typed_kinds; [exact Hk|done]). done.
Qed.

Lemma typed_GatewayClass (w : World) (obj : config.Config) :
  typed w KGatewayClass obj ->
  exists gwc l gcs, config.spec obj = config.GatewayClassSpec gwc /\
                    config.status obj = Some l /\
                    statuses w !! l = Some (config.GatewayClassStatus gcs).
Proof.
  intros [Hs (l & Hl & Hk)]. apply kinds_lookup in Hk as (s & Hsl & Hk).
  destruct (config.spec obj); try discriminate Hs.
  destruct s; try discriminate Hk. by eexists _, _, _.
Qed.

Lemma typed_Gateway (w : World) (obj : config.Config) :
  typed w KGateway obj ->
  exists kgw l gs, config.spec obj = config.GatewaySpec kgw /\
                   config.status obj = Some l /\
                   statuses w !! l = Some (config.GatewayStatus gs).
Proof.
  intros [Hs (l & Hl & Hk)]. apply kinds_lookup in Hk as (s & Hsl & Hk).
  destruct (config.spec obj); try discriminate Hs.
  destruct s; try discriminate Hk. by eexists _, _, _.
Qed.

(** ** The gateway converter as a whole *)

Section GatewayRun.

Variable env : Env.
Variable r : KubernetesResources.

(** The names of the gateway classes of this controller. *)
Definition classStep (classes : gset string) (obj : config.Config) : gset string :=
  match config.spec obj with
  | config.GatewayClassSpec gwc =>
      if (k8s.gcs_Controller gwc =? ControllerName)%string
      then classes ∪ {[ config.Name (config.meta obj) ]} else classes
  | _ => classes
  end.

Definition ownedClasses : gset string := foldl classStep ∅ (GatewayClass r).

Lemma getGatewayClasses_from (l : list config.Config) :
  forall (classes : gset string) (w : World),
  Forall (typed w KGatewayClass) l ->
  exists w',
    foldM (fun classes obj =>
      match config.spec obj with
      | config.GatewayClassSpec gwc =>
        if (k8s.gcs_Controller gwc =? ControllerName)%string then
          let classes := classes ∪ {[ config.Name (config.meta obj) ]} in
          let* l := asWrappedStatus obj in
          let* _ := Mutate l (fun s =>
            match s with
            | config.GatewayClassStatus gcs =>
              let* now := Now in
              ret (config.GatewayClassStatus {|
                k8s.gcst_Conditions :=
                  ConditionallyUpdateCondition (k8s.gcst_Conditions gcs) {|
                    metav1.Type_ := k8s.GatewayClassConditionStatusAdmitted;
                    metav1.Status := StatusTrue;
                    metav1.ObservedGeneration := config.Generation (config.meta obj);
                    metav1.LastTransitionTime := now;
                    metav1.Reason := "Handled";
                    metav1.Message := "Handled by Istio controller" |} |})
            | _ => panic
            end) in
          ret classes
        else ret classes
      | _ => panic
      end) classes l w = Some (foldl classStep classes l, w') /\
    kinds w' = kinds w.
Proof.
  induction l as [|obj l IH]; intros classes w Hwt.
  - exists w. done.
  - inversion Hwt as [|? ? Hobj Hl]; subst.
    destruct (typed_GatewayClass w obj Hobj) as (gwc & st & gcs & Hspec & Hstatus & Hst).
    cbn [foldM foldl]. unfold classStep at 2. rewrite Hspec.
    destruct (k8s.gcs_Controller gwc =? ControllerName)%string.
    + unfold asWrappedStatus. rewrite Hstatus.
      erewrite bind_run.
      2:{ erewrite bind_run by reflexivity.
          erewrite bind_run by (eapply Mutate_run; [exact Hst | reflexivity]).
          reflexivity. }
      match goal with |- context [foldM _ _ l ?w1] => set (w1' := w1) end.
      assert (kinds w1' = kinds w) as Hk.
      { apply (kinds_insert w 1 st (config.GatewayClassStatus gcs)); done. }
      destruct (IH (classes ∪ {[config.Name (config.meta obj)]}) w1') as (w' & Hrun & Hk').
      { eapply Forall_typed_kinds; [exact Hk | exact Hl]. }
      exists w'. split; [exact Hrun | congruence].
    + erewrite bind_run by reflexivity.
      destruct (IH classes w Hl) as (w' & Hrun & Hk'). by exists w'.
Qed.

Lemma getGatewayClasses_run (w : World) :
  Forall (typed w KGatewayClass) (GatewayClass r) ->
  exists w', getGatewayClasses r w = Some (ownedClasses, w') /\ kinds w' = kinds w.
Proof. apply getGatewayClasses_from. Qed.

(** What one gateway adds to the result and to the ownership map. *)
Definition gatewayStep (classes : gset string) (acc : gatewayAcc)
    (obj : config.Config) : gatewayAcc :=
  match config.spec obj with
  | config.GatewaySpec kgw =>
      if bool_decide (k8s.gs_GatewayClassName kgw ∈ classes)
      then {| acc_result := acc_result acc ++ [gatewayConfigOf env r obj kgw];
              acc_routeToGateway :=
                foldl (listenerOwners env r obj) (acc_routeToGateway acc)
                      (k8s.gs_Listeners kgw) |}
      else acc
  | _ => acc
  end.

Lemma convertGateways_from (classes : gset string) (l : list config.Config) :
  forall (acc : gatewayAcc) (w : World),
  Forall (typed w KGateway) l ->
  exists w',
    foldM (convertOneGateway env r classes) acc l w =
    Some (foldl (gatewayStep classes) acc l, w') /\
    kinds w' = kinds w.
Proof.
  induction l as [|obj l IH]; intros acc w Hwt.
  - by exists w.
  - inversion Hwt as [|? ? Hobj Hl]; subst.
    destruct (typed_Gateway w obj Hobj) as (kgw & st & gs & Hspec & Hstatus & Hst).
    cbn [foldM foldl]. unfold gatewayStep at 2. rewrite Hspec.
    destruct (decide (k8s.gs_GatewayClassName kgw ∈ classes)) as [Hin|Hout].
    + rewrite bool_decide_eq_true_2 by done.
      destruct (convertOneGateway_admitted env r classes acc obj kgw st w gs
                  Hspec Hin Hstatus Hst) as (gs' & Hrun & _).
      erewrite bind_run by exact Hrun.
      match goal with |- context [foldM _ ?a1 l ?w1] => set (a1' := a1); set (w1' := w1) end.
      assert (kinds w1' = kinds w) as Hk.
      { apply (kinds_insert w _ st (config.GatewayStatus gs)); done. }
      destruct (IH a1' w1') as (w' & Hrun' & Hk').
      { eapply Forall_typed_kinds; [exact Hk | exact Hl]. }
      exists w'. split; [exact Hrun' | congruence].
    + rewrite bool_decide_eq_false_2 by done.
      erewrite bind_run by (by apply (convertOneGateway_skipped env r classes acc obj kgw w)).
      destruct (IH acc w Hl) as (w' & Hrun' & Hk'). by exists w'.
Qed.

Definition gatewaysOf : gatewayAcc :=
  foldl (gatewayStep ownedClasses)
        {| acc_result := []; acc_routeToGateway := ∅ |} (Gateway r).

(** The ownership map that [convertGateway] returns. *)
Definition routeOwners : gmap RouteKey (list string) :=
  foldl (fun m k => appendOwner m k experimentalMeshGatewayName)
        (acc_routeToGateway gatewaysOf) (fetchMeshRoutes r).

Lemma convertGateway_run (w : World) :
  Forall (typed w KGatewayClass) (GatewayClass r) ->
  Forall (typed w KGateway) (Gateway r) ->
  exists w',
    convertGateway env r w = Some ((acc_result gatewaysOf, routeOwners), w') /\
    kinds w' = kinds w.
Proof.
  intros Hc Hg. unfold convertGateway.
  destruct (getGatewayClasses_run w Hc) as (w1 & Hrun1 & Hk1).
  erewrite bind_run by exact Hrun1.
  destruct (convertGateways_from ownedClasses (Gateway r)
              {| acc_result := []; acc_routeToGateway := ∅ |} w1) as (w2 & Hrun2 & Hk2).
  { eapply Forall_typed_kinds; [exact Hk1 | exact Hg]. }
  erewrite bind_run by exact Hrun2.
  exists w2. split; [reflexivity | congruence].
Qed.

End GatewayRun.

(** ** The ownership map *)

(** The owners of a route, none for a route that is not a key. *)
Definition owners (m : gmap RouteKey (list string)) (k : RouteKey) : list string :=
  default [] (m !! k).

Lemma owners_appendOwner (m : gmap RouteKey (list string)) (k k' : RouteKey)
    (gw : string) :
  owners (appendOwner m k gw) k' =
  if decide (k = k') then owners m k' ++ [gw] else owners m k'.
Proof.
  unfold owners, appendOwner. destruct (decide (k = k')) as [->|Hne].
  - by rewrite lookup_insert_eq.
  - by rewrite lookup_insert_ne.
Qed.

Lemma appendOwner_is_Some (m : gmap RouteKey (list string)) (k k' : RouteKey)
    (gw : string) :
  is_Some (m !! k') -> is_Some (appendOwner m k gw !! k').
Proof.
  unfold appendOwner. intros H. destruct (decide (k = k')) as [->|Hne].
  - rewrite lookup_insert_eq. by eexists.
  - by rewrite lookup_insert_ne.
Qed.

Lemma appendOwner_self (m : gmap RouteKey (list string)) (k : RouteKey) (gw : string) :
  appendOwner m k gw !! k = Some (owners m k ++ [gw]).
Proof. unfold appendOwner. apply lookup_insert_eq. Qed.

(** The number of routes with key [k] in a list of routes. *)
Definition keyCount (k : RouteKey) (routes : list config.Config) : nat :=
  length (List.filter (fun c => bool_decide (toRouteKey c = k)) routes).

Lemma owners_ownRoutes (routes : list config.Config) (owner : string)
    (m : gmap RouteKey (list string)) (k : RouteKey) :
  owners (ownRoutes routes owner m) k = owners m k ++ replicate (keyCount k routes) owner.
Proof.
  unfold ownRoutes, keyCount. revert m.
  induction routes as [|c routes IH]; intros m; simpl.
  - by rewrite app_nil_r.
  - rewrite IH, owners_appendOwner.
    destruct (decide (toRouteKey c = k)) as [Heq|Hne].
    + rewrite bool_decide_eq_true_2 by done. simpl. by rewrite <- app_assoc.
    + by rewrite bool_decide_eq_false_2.
Qed.

Lemma ownRoutes_is_Some (routes : list config.Config) (owner : string)
    (m : gmap RouteKey (list string)) (k : RouteKey) :
  is_Some (m !! k) -> is_Some (ownRoutes routes owner m !! k).
Proof.
  unfold ownRoutes. revert m. induction routes as [|c routes IH]; intros m H; simpl.
  - done.
  - apply IH. by apply appendOwner_is_Some.
Qed.

Lemma meshOwners_lookup (keys : list RouteKey) (gw : string) :
  forall (m : gmap RouteKey (list string)) (k : RouteKey),
  k ∈ keys ->
  exists os, foldl (fun m k => appendOwner m k gw) m keys !! k = Some os /\
             owners (foldl (fun m k => appendOwner m k gw) m keys) k = os /\
             gw ∈ os.
Proof.
  induction keys as [|k0 keys IH]; intros m k Hk.
  - by apply elem_of_nil in Hk.
  - simpl. destruct (decide (k ∈ keys)) as [Hin|Hout].
    + by apply IH.
    + apply elem_of_cons in Hk as [->|Hk]; [|done].
      assert (forall m', foldl (fun m k => appendOwner m k gw) m' keys !! k0 = m' !! k0) as Hfr.
      { clear IH. induction keys as [|k1 keys IH']; intros m'; simpl; [done|].
        apply not_elem_of_cons in Hout as [Hne Hout].
        rewrite IH' by done. unfold appendOwner. by rewrite lookup_insert_ne. }
      exists (owners m k0 ++ [gw]). unfold owners at 2. rewrite Hfr, appendOwner_self.
      split; [done|]. split; [done|]. apply elem_of_app. right. by apply list_elem_of_singleton.
Qed.

Section OwnershipFacts.

Variable env : Env.
Variable r : KubernetesResources.

(** The number of route resources with key [k] that a listener of a gateway
    selects. *)
Definition matchCount (obj : config.Config) (k : RouteKey) (l : k8s.Listener) : nat :=
  (keyCount k (fetchHTTPRoutes env r (config.meta obj) (k8s.l_Routes l)) +
   keyCount k (fetchTCPRoutes env r (config.meta obj) (k8s.l_Routes l)) +
   keyCount k (fetchTLSRoutes env r (config.meta obj) (k8s.l_Routes l)))%nat.

(** The number of times an admitted gateway is made an owner of [k]: once
    for every listener and every route with that key that the listener
    selects. *)
Definition gatewayMatches (classes : gset string) (k : RouteKey)
    (obj : config.Config) : nat :=
  match config.spec obj with
  | config.GatewaySpec kgw =>
      if bool_decide (k8s.gs_GatewayClassName kgw ∈ classes)
      then sum_list (map (matchCount obj k) (k8s.gs_Listeners kgw))
      else 0%nat
  | _ => 0%nat
  end.

Lemma owners_listenerOwners (obj : config.Config) (m : gmap RouteKey (list string))
    (l : k8s.Listener) (k : RouteKey) :
  owners (listenerOwners env r obj m l) k =
  owners m k ++ replicate (matchCount obj k l) (ownerName env obj).
Proof.
  unfold listenerOwners, matchCount. rewrite !owners_ownRoutes.
  by rewrite !replicate_add, !app_assoc.
Qed.

Lemma owners_listeners (obj : config.Config) (ls : list k8s.Listener)
    (m : gmap RouteKey (list string)) (k : RouteKey) :
  owners (foldl (listenerOwners env r obj) m ls) k =
  owners m k ++ replicate (sum_list (map (matchCount obj k) ls)) (ownerName env obj).
Proof.
  revert m. induction ls as [|l ls IH]; intros m; simpl.
  - by rewrite app_nil_r.
  - by rewrite IH, owners_listenerOwners, replicate_add, app_assoc.
Qed.

Lemma owners_gatewayStep (classes : gset string) (acc : gatewayAcc)
    (obj : config.Config) (k : RouteKey) :
  owners (acc_routeToGateway (gatewayStep env r classes acc obj)) k =
  owners (acc_routeToGateway acc) k ++
  replicate (gatewayMatches classes k obj) (ownerName env obj).
Proof.
  unfold gatewayStep, gatewayMatches.
  destruct (config.spec obj); try by rewrite app_nil_r.
  destruct (bool_decide _); [|by rewrite app_nil_r].
  simpl. apply owners_listeners.
Qed.

Lemma owners_gateways (classes : gset string) (objs : list config.Config)
    (acc : gatewayAcc) (k : RouteKey) :
  owners (acc_routeToGateway (foldl (gatewayStep env r classes) acc objs)) k =
  owners (acc_routeToGateway acc) k ++
  flat_map (fun obj => replicate (gatewayMatches classes k obj) (ownerName env obj)) objs.
Proof.
  revert acc. induction objs as [|obj objs IH]; intros acc; simpl.
  - by rewrite app_nil_r.
  - by rewrite IH, owners_gatewayStep, <- app_assoc.
Qed.

Lemma owners_mesh (keys : list RouteKey) (m : gmap RouteKey (list string))
    (k : RouteKey) (gw : string) :
  owners (foldl (fun m k => appendOwner m k gw) m keys) k =
  owners m k ++ replicate (length (List.filter (fun k' => bool_decide (k' = k)) keys)) gw.
Proof.
  revert m. induction keys as [|k0 keys IH]; intros m; simpl.
  - by rewrite app_nil_r.
  - rewrite IH, owners_appendOwner. destruct (decide (k0 = k)) as [->|Hne].
    + rewrite bool_decide_eq_true_2 by done. simpl. by rewrite <- app_assoc.
    + by rewrite bool_decide_eq_false_2.
Qed.

(** The owners of every route, in full. *)
Lemma owners_routeOwners (k : RouteKey) :
  owners (routeOwners env r) k =
  flat_map (fun obj => replicate (gatewayMatches (ownedClasses r) k obj)
                                 (ownerName env obj)) (Gateway r) ++
  replicate (length (List.filter (fun k' => bool_decide (k' = k)) (fetchMeshRoutes r)))
            experimentalMeshGatewayName.
Proof.
  unfold routeOwners, gatewaysOf. rewrite owners_mesh, owners_gateways. simpl.
  unfold owners at 1. by rewrite lookup_empty.
Qed.

Lemma fetchMeshRoutes_elem (hr : config.Config) (sel : k8s.RouteGateways)
    (ref : k8s.GatewayReference) :
  hr ∈ HTTPRoute r ->
  getGatewaySelectorFromSpec (config.spec hr) = Some sel ->
  ref ∈ k8s.rg_GatewayRefs sel ->
  k8s.gr_Name ref = experimentalMeshGatewayName ->
  toRouteKey hr ∈ fetchMeshRoutes r.
Proof.
  intros Hhr Hsel Href Hname. unfold fetchMeshRoutes.
  apply list_elem_of_In, in_flat_map. exists hr. split; [by apply list_elem_of_In|].
  rewrite Hsel. apply in_flat_map. exists ref. split; [by apply list_elem_of_In|].
  rewrite Hname. simpl. by left.
Qed.

(** C4: every HTTP route of the snapshot with a gateway reference named
    "mesh" is a key of the ownership map that [convertGateway] returns, and
    "mesh" is among its owners.  Nothing is asked of the gateways of the
    snapshot: there may be none. *)
Theorem mesh_route_owned (w : World) (hr : config.Config)
    (route : k8s.HTTPRouteSpec) (ref : k8s.GatewayReference) :
  Forall (typed w KGatewayClass) (GatewayClass r) ->
  Forall (typed w KGateway) (Gateway r) ->
  hr ∈ HTTPRoute r ->
  config.spec hr = config.HTTPRouteSpec route ->
  ref ∈ k8s.rg_GatewayRefs (k8s.hs_Gateways route) ->
  k8s.gr_Name ref = "mesh"%string ->
  exists gws m w' os,
    convertGateway env r w = Some ((gws, m), w') /\
    m !! toRouteKey hr = Some os /\
    "mesh"%string ∈ os.
Proof.
  intros Hc Hg Hhr Hspec Href Hname.
  destruct (convertGateway_run env r w Hc Hg) as (w' & Hrun & _).
  assert (toRouteKey hr ∈ fetchMeshRoutes r) as Hk.
  { apply (fetchMeshRoutes_elem hr (k8s.hs_Gateways route) ref); try done.
    by rewrite Hspec. }
  destruct (meshOwners_lookup (fetchMeshRoutes r) experimentalMeshGatewayName
              (acc_routeToGateway (gatewaysOf env r)) (toRouteKey hr) Hk)
    as (os & Hos & _ & Hin).
  by exists (acc_result (gatewaysOf env r)), (routeOwners env r), w', os.
Qed.

End OwnershipFacts.

(** ** Route status *)

Local Open Scope string_scope.

(** An owner is the mesh token or a namespace-qualified name. *)
Definition ownerWf (gw : string) : Prop :=
  gw = IstioMeshGateway \/ exists a b, gw = a ++ "/" ++ b.

Lemma Split_nonempty (s : string) (sep : ascii) : Split s sep <> [].
Proof.
  destruct s as [|c s]; simpl; [done|].
  destruct (Ascii.eqb c sep); [done|]. by destruct (Split s sep).
Qed.

Lemma Split_separated (a b : string) :
  exists x y rest, Split (a ++ "/" ++ b) "/" = x :: y :: rest.
Proof.
  induction a as [|c a IH].
  - change ("" ++ "/" ++ b) with (String "/" b). simpl.
    destruct (Split b "/") as [|y rest] eqn:Hb; [by apply Split_nonempty in Hb|].
    by exists "", y, rest.
  - change (String c a ++ "/" ++ b) with (String c (a ++ "/" ++ b)). simpl.
    destruct IH as (x & y & rest & ->).
    destruct (Ascii.eqb c "/"); by eexists _, _, _.
Qed.

(** The gateway reference that a route status reports for an owner. *)
Definition referenceOf (gw : string) : k8s.GatewayReference :=
  if gw =? IstioMeshGateway
  then {| k8s.gr_Name := experimentalMeshGatewayName; k8s.gr_Namespace := "default" |}
  else {| k8s.gr_Name := default "" (Split gw "/" !! 1%nat);
          k8s.gr_Namespace := default "" (Split gw "/" !! 0%nat) |}.

Lemma gatewayReferenceOf_run (gw : string) (w : World) :
  ownerWf gw -> gatewayReferenceOf gw w = Some (referenceOf gw, w).
Proof.
  intros Hwf. unfold gatewayReferenceOf, referenceOf.
  destruct (gw =? IstioMeshGateway) eqn:Hm; [reflexivity|].
  destruct Hwf as [->|(a & b & ->)]; [by rewrite String.eqb_refl in Hm|].
  destruct (Split_separated a b) as (x & y & rest & ->). reflexivity.
Qed.

Definition routeAdmitted (obj : config.Config) (now : Time) : metav1.Condition := {|
  metav1.Type_ := k8s.ConditionRouteAdmitted;
  metav1.Status := StatusTrue;
  metav1.ObservedGeneration := config.Generation (config.meta obj);
  metav1.LastTransitionTime := now;
  metav1.Reason := "RouteAdmitted";
  metav1.Message := "Route admitted"
|}.

(** The status entries of a route with the given owners, written when the
    clock has ticked [t0] times. *)
Definition routeStatusOf (obj : config.Config) (clk : nat -> Time) (t0 : nat)
    (gateways : list string) : list k8s.RouteGatewayStatus :=
  imap (fun i gw => {| k8s.rgs_GatewayRef := referenceOf gw;
                       k8s.rgs_Conditions := [routeAdmitted obj (clk (t0 + i)%nat)] |})
       gateways.

Lemma tick_0 (w : World) : tick w (statuses w) 0 = w.
Proof. unfold tick. destruct w. simpl. by rewrite Nat.add_0_r. Qed.

Lemma createRouteStatus_from (obj : config.Config) (gateways : list string) :
  forall (acc : list k8s.RouteGatewayStatus) (w : World),
  Forall ownerWf gateways ->
  foldM (fun gws gw =>
           let* ref := gatewayReferenceOf gw in
           let* now := Now in
           ret (gws ++ [ {|
             k8s.rgs_GatewayRef := ref;
             k8s.rgs_Conditions := [ {|
               metav1.Type_ := k8s.ConditionRouteAdmitted;
               metav1.Status := StatusTrue;
               metav1.ObservedGeneration := config.Generation (config.meta obj);
               metav1.LastTransitionTime := now;
               metav1.Reason := "RouteAdmitted";
               metav1.Message := "Route admitted" |} ] |} ])%list)
        acc gateways w =
  Some ((acc ++ routeStatusOf obj (clock w) (ticks w) gateways)%list,
        tick w (statuses w) (length gateways)).
Proof.
  induction gateways as [|gw gateways IH]; intros acc w Hwf.
  - simpl. unfold ret. by rewrite app_nil_r, tick_0.
  - inversion Hwf as [|? ? Hgw Hrest]; subst. cbn [foldM].
    erewrite bind_run.
    2:{ erewrite bind_run by (by apply gatewayReferenceOf_run).
        erewrite bind_run by reflexivity. reflexivity. }
    rewrite IH by done. unfold routeStatusOf. cbn [imap].
    rewrite <- app_assoc. simpl. rewrite Nat.add_0_r.
    f_equal. f_equal.
    + f_equal. f_equal. apply imap_ext. intros i x _. simpl.
      unfold routeAdmitted. repeat f_equal. lia.
    + unfold tick. simpl. f_equal. lia.
Qed.

Lemma createRouteStatus_run (obj : config.Config) (gateways : list string) (w : World) :
  Forall ownerWf gateways ->
  createRouteStatus gateways obj w =
  Some (routeStatusOf obj (clock w) (ticks w) gateways,
        tick w (statuses w) (length gateways)).
Proof. intros Hwf. unfold createRouteStatus. by rewrite createRouteStatus_from. Qed.

Lemma routeStatusOf_length (obj : config.Config) (clk : nat -> Time) (t0 : nat)
    (gateways : list string) :
  length (routeStatusOf obj clk t0 gateways) = length gateways.
Proof. apply length_imap. Qed.

Lemma routeStatusOf_refs (obj : config.Config) (clk : nat -> Time) (t0 : nat)
    (gateways : list string) :
  map k8s.rgs_GatewayRef (routeStatusOf obj clk t0 gateways) = map referenceOf gateways.
Proof.
  unfold routeStatusOf. revert t0. induction gateways as [|gw gateways IH]; intros t0.
  - reflexivity.
  - cbn [imap map]. f_equal. rewrite <- (IH (S t0)). f_equal.
    apply imap_ext. intros i x _. simpl. unfold routeAdmitted. repeat f_equal. lia.
Qed.

Local Close Scope string_scope.

(** ** The route converter *)

Lemma typed_HTTPRoute (w : World) (obj : config.Config) :
  typed w KHTTPRoute obj ->
  exists route l rs, config.spec obj = config.HTTPRouteSpec route /\
                     config.status obj = Some l /\
                     statuses w !! l = Some (config.HTTPRouteStatus rs).
Proof.
  intros [Hs (l & Hl & Hk)]. apply kinds_lookup in Hk as (s & Hsl & Hk).
  destruct (config.spec obj); try discriminate Hs.
  destruct s; try discriminate Hk. by eexists _, _, _.
Qed.

Lemma typed_TCPRoute (w : World) (obj : config.Config) :
  typed w KTCPRoute obj ->
  exists route l rs, config.spec obj = config.TCPRouteSpec route /\
                     config.status obj = Some l /\
                     statuses w !! l = Some (config.TCPRouteStatus rs).
Proof.
  intros [Hs (l & Hl & Hk)]. apply kinds_lookup in Hk as (s & Hsl & Hk).
  destruct (config.spec obj); try discriminate Hs.
  destruct s; try discriminate Hk. by eexists _, _, _.
Qed.

Lemma typed_TLSRoute (w : World) (obj : config.Config) :
  typed w KTLSRoute obj ->
  exists route l rs, config.spec obj = config.TLSRouteSpec route /\
                     config.status obj = Some l /\
                     statuses w !! l = Some (config.TLSRouteStatus rs).
Proof.
  intros [Hs (l & Hl & Hk)]. apply kinds_lookup in Hk as (s & Hsl & Hk).
  destruct (config.spec obj); try discriminate Hs.
  destruct s; try discriminate Hk. by eexists _, _, _.
Qed.

Section RouteFacts.

Variable env : Env.

Definition httpVirtualService (obj : config.Config) (route : k8s.HTTPRouteSpec)
    (gateways : list string) (domain : string) : config.Config := {|
  config.meta :=
    virtualServiceMeta env obj
      (config.Name (config.meta obj) ++ "-" ++ env_KubernetesGatewayName env)%string
      domain;
  config.spec := config.IstioVirtualService {|
    istio.vs_Hosts := hostnameToStringList (k8s.hs_Hostnames route);
    istio.vs_Gateways := gateways;
    istio.vs_Http :=
      map (fun r => {|
             istio.hr_Match :=
               map (fun match_ => {|
                      istio.mr_Uri := createURIMatch env match_;
                      istio.mr_Headers := createHeadersMatch match_ |})
                   (k8s.hr_Matches r);
             istio.hr_Headers := headersOfFilters (k8s.hr_Filters r);
             istio.hr_Route :=
               buildHTTPDestination env (k8s.hr_ForwardTo r)
                 (config.Namespace (config.meta obj)) domain |})
          (k8s.hs_Rules route);
    istio.vs_Tls := [];
    istio.vs_Tcp := [] |};
  config.status := None
|}.

Definition tcpVirtualService (obj : config.Config) (route : k8s.TCPRouteSpec)
    (gateways : list string) (domain : string) : config.Config := {|
  config.meta :=
    virtualServiceMeta env obj
      (config.Name (config.meta obj) ++ "-tcp-" ++ env_KubernetesGatewayName env)%string
      domain;
  config.spec := config.IstioVirtualService {|
    istio.vs_Hosts := ["*"%string];
    istio.vs_Gateways := gateways;
    istio.vs_Http := [];
    istio.vs_Tls := [];
    istio.vs_Tcp :=
      map (fun r => {|
             istio.tr_Match := buildTCPMatch (k8s.tr_Matches r);
             istio.tr_Route :=
               buildTCPDestination env (k8s.tr_ForwardTo r)
                 (config.Namespace (config.meta obj)) domain |})
          (k8s.ts_Rules route) |};
  config.status := None
|}.

Definition tlsVirtualService (obj : config.Config) (route : k8s.TLSRouteSpec)
    (gateways : list string) (domain : string) : config.Config := {|
  config.meta :=
    virtualServiceMeta env obj
      (config.Name (config.meta obj) ++ "-tls-" ++ env_KubernetesGatewayName env)%string
      domain;
  config.spec := config.IstioVirtualService {|
    istio.vs_Hosts := ["*"%string];
    istio.vs_Gateways := gateways;
    istio.vs_Http := [];
    istio.vs_Tls :=
      map (fun r => {|
             istio.lr_Match := buildTLSMatch (k8s.lr_Matches r);
             istio.lr_Route :=
               buildTCPDestination env (k8s.lr_ForwardTo r)
                 (config.Namespace (config.meta obj)) domain |})
          (k8s.ls_Rules route);
    istio.vs_Tcp := [] |};
  config.status := None
|}.

(** The world after the status of a route has been written. *)
Definition routeWritten (w : World) (l : config.loc)
    (wrap : k8s.RouteStatus -> config.Status) (obj : config.Config)
    (gateways : list string) : World :=
  tick w (<[l := wrap {| k8s.rs_Gateways :=
                           routeStatusOf obj (clock w) (ticks w) gateways |}]>
            (statuses w))
       (length gateways).

Lemma buildHTTPVirtualServices_run (obj : config.Config) (route : k8s.HTTPRouteSpec)
    (l : config.loc) (rs : k8s.RouteStatus) (gateways : list string)
    (domain : string) (w : World) :
  config.spec obj = config.HTTPRouteSpec route ->
  config.status obj = Some l ->
  statuses w !! l = Some (config.HTTPRouteStatus rs) ->
  Forall ownerWf gateways ->
  buildHTTPVirtualServices env obj gateways domain w =
  Some ([httpVirtualService obj route gateways domain],
        routeWritten w l config.HTTPRouteStatus obj gateways).
Proof.
  intros Hspec Hstatus Hst Hwf. unfold buildHTTPVirtualServices. rewrite Hspec.
  unfold asWrappedStatus. rewrite Hstatus. erewrite bind_run by reflexivity.
  erewrite bind_run.
  2:{ eapply Mutate_run; [exact Hst|]. cbv beta iota.
      erewrite bind_run by (by apply createRouteStatus_run). reflexivity. }
  reflexivity.
Qed.

Lemma buildTCPVirtualService_run (obj : config.Config) (route : k8s.TCPRouteSpec)
    (l : config.loc) (rs : k8s.RouteStatus) (gateways : list string)
    (domain : string) (w : World) :
  config.spec obj = config.TCPRouteSpec route ->
  config.status obj = Some l ->
  statuses w !! l = Some (config.TCPRouteStatus rs) ->
  Forall ownerWf gateways ->
  buildTCPVirtualService env obj gateways domain w =
  Some (tcpVirtualService obj route gateways domain,
        routeWritten w l config.TCPRouteStatus obj gateways).
Proof.
  intros Hspec Hstatus Hst Hwf. unfold buildTCPVirtualService. rewrite Hspec.
  unfold asWrappedStatus. rewrite Hstatus. erewrite bind_run by reflexivity.
  erewrite bind_run.
  2:{ eapply Mutate_run; [exact Hst|]. cbv beta iota.
      erewrite bind_run by (by apply createRouteStatus_run). reflexivity. }
  reflexivity.
Qed.

Lemma buildTLSVirtualService_run (obj : config.Config) (route : k8s.TLSRouteSpec)
    (l : config.loc) (rs : k8s.RouteStatus) (gateways : list string)
    (domain : string) (w : World) :
  config.spec obj = config.TLSRouteSpec route ->
  config.status obj = Some l ->
  statuses w !! l = Some (config.TLSRouteStatus rs) ->
  Forall ownerWf gateways ->
  buildTLSVirtualService env obj gateways domain w =
  Some (tlsVirtualService obj route gateways domain,
        routeWritten w l config.TLSRouteStatus obj gateways).
Proof.
  intros Hspec Hstatus Hst Hwf. unfold buildTLSVirtualService. rewrite Hspec.
  unfold asWrappedStatus. rewrite Hstatus. erewrite bind_run by reflexivity.
  erewrite bind_run.
  2:{ eapply Mutate_run; [exact Hst|]. cbv beta iota.
      erewrite bind_run by (by apply createRouteStatus_run). reflexivity. }
  reflexivity.
Qed.

End RouteFacts.

(** ** Owners are well formed and counted per listener *)

Definition ownersWf (m : gmap RouteKey (list string)) : Prop :=
  forall k os, m !! k = Some os -> Forall ownerWf os.

Lemma ownersWf_empty : ownersWf ∅.
Proof. intros k os H. by rewrite lookup_empty in H. Qed.

Lemma ownersWf_appendOwner (m : gmap RouteKey (list string)) (k : RouteKey)
    (gw : string) :
  ownersWf m -> ownerWf gw -> ownersWf (appendOwner m k gw).
Proof.
  intros Hm Hgw k' os. unfold appendOwner.
  destruct (decide (k = k')) as [->|Hne].
  - rewrite lookup_insert_eq. intros [= <-]. apply Forall_app. split; [|by constructor].
    destruct (m !! k') as [os'|] eqn:Hk; simpl; [by apply (Hm k')|constructor].
  - rewrite lookup_insert_ne by done. apply Hm.
Qed.

Lemma ownersWf_ownRoutes (routes : list config.Config) (owner : string)
    (m : gmap RouteKey (list string)) :
  ownersWf m -> ownerWf owner -> ownersWf (ownRoutes routes owner m).
Proof.
  unfold ownRoutes. revert m. induction routes as [|c routes IH]; intros m Hm Ho; simpl.
  - done.
  - apply IH; [|done]. by apply ownersWf_appendOwner.
Qed.

Lemma keyCount_absent (p : config.Config -> bool) (k : RouteKey)
    (routes : list config.Config) :
  k ∉ map toRouteKey routes -> keyCount k (List.filter p routes) = 0%nat.
Proof.
  unfold keyCount. induction routes as [|c routes IH]; intros Hk; simpl; [done|].
  simpl in Hk. apply not_elem_of_cons in Hk as [Hne Hk].
  destruct (p c); simpl; [|by apply IH].
  rewrite bool_decide_eq_false_2 by done. by apply IH.
Qed.

Lemma keyCount_unique (p : config.Config -> bool) (c : config.Config)
    (routes : list config.Config) :
  NoDup (map toRouteKey routes) -> c ∈ routes ->
  keyCount (toRouteKey c) (List.filter p routes) = if p c then 1%nat else 0%nat.
Proof.
  induction routes as [|c' routes IH]; intros Hnd Hc; simpl.
  - by apply elem_of_nil in Hc.
  - simpl in Hnd. apply NoDup_cons in Hnd as [Hnotin Hnd].
    apply elem_of_cons in Hc as [->|Hc].
    + pose proof (keyCount_absent p (toRouteKey c') routes Hnotin) as H0.
      unfold keyCount in *. destruct (p c'); simpl; [|done].
      rewrite bool_decide_eq_true_2 by done. simpl. by rewrite H0.
    + assert (toRouteKey c' <> toRouteKey c) as Hne.
      { intros Heq. apply Hnotin. rewrite Heq. by apply list_elem_of_fmap_2. }
      rewrite <- (IH Hnd Hc). unfold keyCount. destruct (p c'); simpl; [|done].
      by rewrite bool_decide_eq_false_2.
Qed.

Lemma sum_list_indicator {A} (p : A -> bool) (l : list A) :
  sum_list (map (fun x => if p x then 1%nat else 0%nat) l) = length (List.filter p l).
Proof. induction l as [|x l IH]; simpl; [done|]. destruct (p x); simpl; lia. Qed.

Section OwnershipCount.

Variable env : Env.
Variable r : KubernetesResources.

Lemma ownerName_wf (obj : config.Config) : ownerWf (ownerName env obj).
Proof. right. unfold ownerName. by eexists _, _. Qed.

Lemma ownersWf_listeners (obj : config.Config) (ls : list k8s.Listener)
    (m : gmap RouteKey (list string)) :
  ownersWf m -> ownersWf (foldl (listenerOwners env r obj) m ls).
Proof.
  revert m. induction ls as [|l ls IH]; intros m Hm; simpl; [done|].
  apply IH. unfold listenerOwners.
  repeat apply ownersWf_ownRoutes; auto using ownerName_wf.
Qed.

Lemma ownersWf_gateways (classes : gset string) (objs : list config.Config)
    (acc : gatewayAcc) :
  ownersWf (acc_routeToGateway acc) ->
  ownersWf (acc_routeToGateway (foldl (gatewayStep env r classes) acc objs)).
Proof.
  revert acc. induction objs as [|obj objs IH]; intros acc Hacc; simpl; [done|].
  apply IH. unfold gatewayStep. destruct (config.spec obj); try done.
  destruct (bool_decide _); [|done]. simpl. by apply ownersWf_listeners.
Qed.

Lemma ownersWf_routeOwners : ownersWf (routeOwners env r).
Proof.
  unfold routeOwners.
  assert (ownersWf (acc_routeToGateway (gatewaysOf env r))) as H
    by apply ownersWf_gateways, ownersWf_empty.
  revert H. generalize (acc_routeToGateway (gatewaysOf env r)).
  induction (fetchMeshRoutes r) as [|k keys IH]; intros m Hm; simpl; [done|].
  apply IH. apply ownersWf_appendOwner; [done|]. by left.
Qed.

(** When no two routes of the snapshot have the same key, a listener
    counts for a route exactly if it matches the route. *)
Lemma matchCount_unique (obj : config.Config) (c : config.Config) (l : k8s.Listener) :
  NoDup (map toRouteKey (HTTPRoute r ++ TCPRoute r ++ TLSRoute r)) ->
  c ∈ HTTPRoute r ++ TCPRoute r ++ TLSRoute r ->
  matchCount env r obj (toRouteKey c) l =
  if isRouteMatch env c (config.meta obj) (k8s.l_Routes l) (Namespaces r)
  then 1%nat else 0%nat.
Proof.
  intros Hnd Hc. unfold matchCount, fetchHTTPRoutes, fetchTCPRoutes, fetchTLSRoutes.
  rewrite !map_app in Hnd.
  apply NoDup_app in Hnd as (HndH & HdisH & Hnd).
  apply NoDup_app in Hnd as (HndT & HdisT & HndL).
  apply elem_of_app in Hc as [Hc|Hc]; [|apply elem_of_app in Hc as [Hc|Hc]].
  - rewrite (keyCount_unique _ c (HTTPRoute r)) by done.
    assert (toRouteKey c ∈ map toRouteKey (HTTPRoute r)) as Hk
      by (by apply list_elem_of_fmap_2).
    specialize (HdisH _ Hk). apply not_elem_of_app in HdisH as [HT HL].
    rewrite !keyCount_absent by done. lia.
  - rewrite (keyCount_unique _ c (TCPRoute r)) by done.
    assert (toRouteKey c ∈ map toRouteKey (TCPRoute r)) as Hk
      by (by apply list_elem_of_fmap_2).
    rewrite (keyCount_absent _ _ (TLSRoute r)) by (by apply HdisT).
    rewrite (keyCount_absent _ _ (HTTPRoute r)); [lia|].
    intros HH. apply (HdisH _ HH). apply elem_of_app. by left.
  - rewrite (keyCount_unique _ c (TLSRoute r)) by done.
    assert (toRouteKey c ∈ map toRouteKey (TLSRoute r)) as Hk
      by (by apply list_elem_of_fmap_2).
    rewrite (keyCount_absent _ _ (TCPRoute r)).
    2:{ intros HT. by apply (HdisT _ HT). }
    rewrite (keyCount_absent _ _ (HTTPRoute r)); [lia|].
    intros HH. apply (HdisH _ HH). apply elem_of_app. by right.
Qed.

Lemma gatewayMatches_unique (obj : config.Config) (kgw : k8s.GatewaySpec)
    (c : config.Config) :
  NoDup (map toRouteKey (HTTPRoute r ++ TCPRoute r ++ TLSRoute r)) ->
  config.spec obj = config.GatewaySpec kgw ->
  k8s.gs_GatewayClassName kgw ∈ ownedClasses r ->
  c ∈ HTTPRoute r ++ TCPRoute r ++ TLSRoute r ->
  gatewayMatches env r (ownedClasses r) (toRouteKey c) obj =
  length (List.filter
            (fun l => isRouteMatch env c (config.meta obj) (k8s.l_Routes l) (Namespaces r))
            (k8s.gs_Listeners kgw)).
Proof.
  intros Hnd Hspec Hcls Hc. unfold gatewayMatches. rewrite Hspec.
  rewrite bool_decide_eq_true_2 by done.
  rewrite <- sum_list_indicator. f_equal. apply map_ext.
  intros l. by apply matchCount_unique.
Qed.

End OwnershipCount.

(** ** Binary64 arithmetic: rounding loses at most one unit in the last place *)

Module Float64Facts.

Import Float64.

Lemma digits2_pos_bounds (p : positive) :
  2 ^ (Zpos (digits2_pos p) - 1) <= Zpos p < 2 ^ Zpos (digits2_pos p).
Proof.
  induction p as [p IH|p IH|]; simpl digits2_pos.
  - rewrite Pos2Z.inj_succ. replace (Z.succ (Zpos (digits2_pos p)) - 1)
      with (Z.succ (Zpos (digits2_pos p) - 1)) by lia.
    rewrite !Z.pow_succ_r by lia. lia.
  - rewrite Pos2Z.inj_succ. replace (Z.succ (Zpos (digits2_pos p)) - 1)
      with (Z.succ (Zpos (digits2_pos p) - 1)) by lia.
    rewrite !Z.pow_succ_r by lia. lia.
  - simpl. lia.
Qed.

Lemma Zdigits2_bounds (m : Z) :
  0 < m -> 2 ^ (Zdigits2 m - 1) <= m < 2 ^ Zdigits2 m.
Proof. destruct m as [|p|p]; try lia. intros _. apply digits2_pos_bounds. Qed.

Lemma Zdigits2_pos (m : Z) : 0 < m -> 0 < Zdigits2 m.
Proof. destruct m; simpl; lia. Qed.

Lemma Zdigits2_unique (m d : Z) :
  0 < d -> 2 ^ (d - 1) <= m < 2 ^ d -> Zdigits2 m = d.
Proof.
  intros Hd [Hlo Hhi].
  assert (0 < m) as Hm by (pose proof (Z.pow_pos_nonneg 2 (d - 1)); lia).
  pose proof (Zdigits2_bounds m Hm) as [Hlo' Hhi'].
  pose proof (Zdigits2_pos m Hm) as Hpos.
  destruct (Z.lt_trichotomy (Zdigits2 m) d) as [Hlt|[Heq|Hgt]]; [|done|].
  - assert (2 ^ Zdigits2 m <= 2 ^ (d - 1)) by (apply Z.pow_le_mono_r; lia). lia.
  - assert (2 ^ d <= 2 ^ (Zdigits2 m - 1)) by (apply Z.pow_le_mono_r; lia). lia.
Qed.

(** [k] applications of [f]. *)
Fixpoint applyN {A} (k : nat) (f : A -> A) (x : A) : A :=
  match k with
  | O => x
  | S k' => f (applyN k' f x)
  end.

Lemma applyN_add {A} (j k : nat) (f : A -> A) (x : A) :
  applyN (j + k) f x = applyN j f (applyN k f x).
Proof. induction j as [|j IH]; simpl; [done|]. by rewrite IH. Qed.

Lemma applyN_succ_r {A} (k : nat) (f : A -> A) (x : A) :
  applyN (S k) f x = applyN k f (f x).
Proof. replace (S k) with (k + 1)%nat by lia. by rewrite applyN_add. Qed.

Lemma iter_pos_nat {A} (f : A -> A) (p : positive) (x : A) :
  SpecFloat.iter_pos f p x = applyN (Pos.to_nat p) f x.
Proof.
  revert x. induction p as [p IH|p IH|]; intros x; simpl SpecFloat.iter_pos.
  - rewrite !IH. rewrite <- applyN_succ_r, <- applyN_add. f_equal. lia.
  - rewrite !IH. rewrite <- applyN_add. f_equal. lia.
  - reflexivity.
Qed.

Lemma shr_1_m (r : shr_record) :
  0 <= shr_m r -> shr_m (shr_1 r) = shr_m r / 2.
Proof.
  destruct r as [m b s]. simpl. intros Hm.
  destruct m as [|p|p]; [reflexivity| |lia].
  destruct p as [p|p|]; simpl.
  - rewrite Pos2Z.inj_xI. apply (Z.div_unique _ _ _ 1); lia.
  - rewrite Pos2Z.inj_xO. apply (Z.div_unique _ _ _ 0); lia.
  - reflexivity.
Qed.

Lemma shr_iter_m (k : nat) (r : shr_record) :
  0 <= shr_m r -> shr_m (applyN k shr_1 r) = shr_m r / 2 ^ Z.of_nat k.
Proof.
  intros Hm. induction k as [|k IH].
  - simpl. by rewrite Z.div_1_r.
  - rewrite Nat2Z.inj_succ, Z.pow_succ_r by lia. simpl.
    rewrite shr_1_m.
    + rewrite IH. rewrite Z.div_div by lia. f_equal. lia.
    + rewrite IH. apply Z.div_pos; lia.
Qed.

Lemma shr_record_of_loc_m (m : Z) (l : location) : shr_m (shr_record_of_loc m l) = m.
Proof. destruct l as [|[]]; reflexivity. Qed.

Lemma shr_m_spec (r : shr_record) (e n : Z) :
  0 <= shr_m r -> 0 <= n ->
  shr_m (shr r e n).1 = shr_m r / 2 ^ n /\ (shr r e n).2 = e + n.
Proof.
  intros Hm Hn. unfold shr. destruct n as [|p|p]; [| |lia].
  - simpl. rewrite Z.div_1_r. split; [done|lia].
  - simpl. rewrite iter_pos_nat, shr_iter_m by done.
    by rewrite positive_nat_Z.
Qed.

Lemma fexp_normal (e : Z) : -1021 <= e -> fexp prec emax e = e - 53.
Proof. intros He. unfold fexp, emin, prec, emax. lia. Qed.

Lemma shr_fexp_spec (m e : Z) (l : location) :
  2 ^ 52 <= m -> -1074 <= e ->
  let n := Zdigits2 m - 53 in
  shr_m (shr_fexp prec emax m e l).1 = m / 2 ^ n /\
  (shr_fexp prec emax m e l).2 = e + n /\ 0 <= n.
Proof.
  intros Hm He n.
  assert (53 <= Zdigits2 m) as Hd.
  { destruct (Z.lt_ge_cases (Zdigits2 m) 53) as [Hlt|]; [|done].
    pose proof (Zdigits2_bounds m ltac:(lia)) as [_ Hhi].
    assert (2 ^ Zdigits2 m <= 2 ^ 52) by (apply Z.pow_le_mono_r; lia). lia. }
  unfold shr_fexp. rewrite fexp_normal by lia.
  replace (Zdigits2 m + e - 53 - e) with n by (unfold n; lia).
  destruct (shr_m_spec (shr_record_of_loc m l) e n) as [H1 H2].
  { rewrite shr_record_of_loc_m. lia. }
  { unfold n. lia. }
  rewrite shr_record_of_loc_m in H1. split; [done|]. split; [done|]. unfold n. lia.
Qed.

Lemma round_nearest_even_cases (m : Z) (l : location) :
  round_nearest_even m l = m \/ round_nearest_even m l = m + 1.
Proof.
  unfold round_nearest_even. destruct l as [|[]]; auto. destruct (Z.even m); auto.
Qed.

(** What [binary_round_aux] returns for a mantissa of at least 53 bits, in
    the range of the normal numbers: the mantissa is cut to 53 bits and
    then kept or increased by one. *)
Lemma binary_round_aux_spec (s : bool) (m e : Z) (l : location) :
  2 ^ 52 <= m -> -1074 <= e -> e + (Zdigits2 m - 53) + 1 <= 971 ->
  let n := Zdigits2 m - 53 in
  let q := m / 2 ^ n in
  exists m' e',
    binary_round_aux prec emax s m e l = S754_finite s m' e' /\
    2 ^ 52 <= Zpos m' < 2 ^ 53 /\
    e + n <= e' <= e + n + 1 /\
    0 <= n /\ 2 ^ 52 <= q /\
    (Zpos m' * 2 ^ (e' - (e + n)) = q \/ Zpos m' * 2 ^ (e' - (e + n)) = q + 1).
Proof.
  intros Hm He Hmax n q.
  pose proof (Zdigits2_bounds m ltac:(lia)) as [Hlo Hhi].
  destruct (shr_fexp_spec m e l Hm He) as (H1 & H2 & Hn). fold n in H1, H2, Hn.
  fold q in H1.
  assert (2 ^ 52 <= q < 2 ^ 53) as Hq.
  { unfold q. split.
    - apply Z.div_le_lower_bound; [lia|].
      rewrite <- Z.pow_add_r by lia.
      replace (n + 52) with (Zdigits2 m - 1) by (unfold n; lia). done.
    - apply Z.div_lt_upper_bound; [lia|].
      rewrite <- Z.pow_add_r by lia.
      replace (n + 53) with (Zdigits2 m) by (unfold n; lia). done. }
  unfold binary_round_aux.
  destruct (shr_fexp prec emax m e l) as [mrs1 e1]. simpl in H1, H2. subst e1.
  rewrite H1.
  set (m1 := round_nearest_even q (loc_of_shr_record mrs1)).
  assert (m1 = q \/ m1 = q + 1) as Hm1 by apply round_nearest_even_cases.
  destruct (shr_fexp_spec m1 (e + n) loc_Exact) as (H3 & H4 & _); [lia|lia|].
  destruct (shr_fexp prec emax m1 (e + n) loc_Exact) as [mrs2 e2].
  simpl in H3, H4. subst e2. rewrite H3.
  destruct (Z.lt_ge_cases m1 (2 ^ 53)) as [Hlt|Hge].
  - rewrite (Zdigits2_unique m1 53) by lia.
    change (53 - 53) with 0. rewrite Z.pow_0_r, Z.div_1_r, Z.add_0_r.
    destruct m1 as [|p|p]; try lia.
    replace (e + n <=? emax - prec) with true
      by (symmetry; apply Z.leb_le; unfold emax, prec; lia).
    exists p, (e + n). rewrite Z.sub_diag, Z.pow_0_r, Z.mul_1_r.
    repeat split; try lia.
  - assert (m1 = 2 ^ 53) as -> by lia.
    rewrite (Zdigits2_unique (2 ^ 53) 54) by lia.
    change (54 - 53) with 1. change (2 ^ 53 / 2 ^ 1) with (Zpos (Z.to_pos (2 ^ 52))).
    replace (e + n + 1 <=? emax - prec) with true
      by (symmetry; apply Z.leb_le; unfold emax, prec; lia).
    eexists _, _. split; [reflexivity|].
    replace (e + n + 1 - (e + n)) with 1 by lia.
    repeat split; try lia.
Qed.

End Float64Facts.

(** ** The value of a binary64 number *)

Module Float64Real.

Import Float64 Float64Facts.

Local Open Scope R_scope.

Definition pw (e : Z) : R := powerRZ 2 e.

(** The real number that a nonnegative float stands for. *)
Definition val (x : float64) : R :=
  match x with
  | S754_finite false m e => IZR (Zpos m) * pw e
  | _ => 0
  end.

(** A positive normal number with its exponent between [lo] and [hi]. *)
Definition normal (lo hi : Z) (x : float64) : Prop :=
  exists m e, x = S754_finite false m e /\
              (2 ^ 52 <= Zpos m < 2 ^ 53)%Z /\ (lo <= e <= hi)%Z.

Lemma pw_add (a b : Z) : pw (a + b) = pw a * pw b.
Proof. unfold pw. apply powerRZ_add. lra. Qed.

Lemma pw_pos (e : Z) : 0 < pw e.
Proof. unfold pw. apply powerRZ_lt. lra. Qed.

Lemma pw_IZR (n : Z) : (0 <= n)%Z -> pw n = IZR (2 ^ n).
Proof.
  intros Hn. unfold pw. destruct n as [|p|p]; [reflexivity| |lia].
  simpl powerRZ. rewrite pow_IZR. by rewrite positive_nat_Z.
Qed.

Lemma pw_0 : pw 0 = 1.
Proof. reflexivity. Qed.

(** The unit roundoff bound used throughout: one unit in the last place. *)
Definition ulp1 : R := / IZR (2 ^ 52).

Lemma ulp1_pos : 0 < ulp1.
Proof. unfold ulp1. apply Rinv_0_lt_compat. apply IZR_lt. lia. Qed.

Lemma ulp1_small : ulp1 <= / 1000000.
Proof.
  unfold ulp1. apply Rinv_le_contravar; [lra|]. apply IZR_le. lia.
Qed.

(** [y] is [x] up to a relative error of one unit in the last place. *)
Definition close (y x : R) : Prop := x * (1 - ulp1) <= y <= x * (1 + ulp1).

(** Rounding a positive real that lies between [m * 2^e] and
    [(m+1) * 2^e], where [m] has at least 53 bits. *)
Lemma binary_round_aux_close (m e : Z) (l : location) (x : R) :
  (2 ^ 52 <= m)%Z -> (-1074 <= e)%Z -> (e + (Zdigits2 m - 53) + 1 <= 971)%Z ->
  IZR m * pw e <= x < (IZR m + 1) * pw e ->
  let r := binary_round_aux prec emax false m e l in
  normal (e + (Zdigits2 m - 53)) (e + (Zdigits2 m - 53) + 1) r /\ close (val r) x.
Proof.
  intros Hm He Hmax [Hlo Hhi] r.
  destruct (binary_round_aux_spec false m e l Hm He Hmax)
    as (m' & e' & Hr & Hm' & He' & Hn & Hq & Hcases).
  set (n := (Zdigits2 m - 53)%Z) in *. set (q := (m / 2 ^ n)%Z) in *.
  unfold r. rewrite Hr. split.
  { exists m', e'. repeat split; lia. }
  simpl val.
  assert (IZR (Zpos m') * pw e' = IZR (Zpos m' * 2 ^ (e' - (e + n))) * pw (e + n)) as Hv.
  { rewrite mult_IZR, <- pw_IZR by lia. rewrite Rmult_assoc, <- pw_add.
    f_equal. f_equal. lia. }
  rewrite Hv.
  assert (pw (e + n) = IZR (2 ^ n) * pw e) as Hpw.
  { rewrite Z.add_comm, pw_add, pw_IZR by lia. reflexivity. }
  assert (q * 2 ^ n <= m < (q + 1) * 2 ^ n)%Z as [Hq1 Hq2].
  { unfold q. pose proof (Z.pow_pos_nonneg 2 n ltac:(lia) Hn) as Hp.
    pose proof (Z.mul_div_le m (2 ^ n) Hp).
    pose proof (Z.mul_succ_div_gt m (2 ^ n) Hp). lia. }
  pose proof (pw_pos e) as Hpe. pose proof (pw_pos (e + n)) as Hpen.
  assert (IZR q * pw (e + n) <= x) as Hx1.
  { rewrite Hpw, <- Rmult_assoc, <- mult_IZR.
    apply Rle_trans with (IZR m * pw e); [|done].
    apply Rmult_le_compat_r; [lra|]. by apply IZR_le. }
  assert (x <= (IZR q + 1) * pw (e + n)) as Hx2.
  { rewrite Hpw, <- Rmult_assoc. rewrite <- (plus_IZR q 1), <- mult_IZR.
    apply Rle_trans with ((IZR m + 1) * pw e); [lra|].
    apply Rmult_le_compat_r; [lra|]. rewrite <- (plus_IZR m 1). apply IZR_le. lia. }
  assert (IZR (2 ^ 52) * pw (e + n) <= x) as Hx3.
  { apply Rle_trans with (IZR q * pw (e + n)); [|done].
    apply Rmult_le_compat_r; [lra|]. by apply IZR_le. }
  assert (pw (e + n) <= x * ulp1) as Hu.
  { unfold ulp1. apply (Rmult_le_reg_l (IZR (2 ^ 52))); [apply IZR_lt; lia|].
    replace (IZR (2 ^ 52) * (x * / IZR (2 ^ 52))) with x; [done|].
    field. apply not_0_IZR. lia. }
  unfold close. destruct Hcases as [-> | ->].
  - split; lra.
  - rewrite plus_IZR. split; lra.
Qed.

Lemma iter_xO_spec (p d : positive) :
  Zpos (Pos.iter xO p d) = (Zpos p * 2 ^ Zpos d)%Z.
Proof.
  induction d as [|d IH] using Pos.peano_ind.
  - simpl. lia.
  - rewrite Pos.iter_succ, Pos2Z.inj_xO, IH, Pos2Z.inj_succ, Z.pow_succ_r by lia. lia.
Qed.

Lemma shl_align_spec (p : positive) (e e' : Z) :
  let '(mz, ez) := shl_align p e e' in
  ez = Z.min e e' /\ Zpos mz = (Zpos p * 2 ^ (e - ez))%Z.
Proof.
  unfold shl_align. destruct (e' - e)%Z as [|d|d] eqn:Hd.
  - split; [lia|]. rewrite Z.sub_diag. simpl. lia.
  - split; [lia|]. rewrite Z.sub_diag. simpl. lia.
  - split; [lia|]. rewrite iter_xO_spec. f_equal. f_equal. lia.
Qed.

Lemma Zdigits2_shift (m k : Z) :
  (0 < m)%Z -> (0 <= k)%Z -> Zdigits2 (m * 2 ^ k) = (Zdigits2 m + k)%Z.
Proof.
  intros Hm Hk. pose proof (Zdigits2_bounds m Hm) as [Hlo Hhi].
  pose proof (Zdigits2_pos m Hm) as Hd.
  pose proof (Z.pow_pos_nonneg 2 k ltac:(lia) Hk) as Hp.
  apply Zdigits2_unique; [lia|].
  replace (Zdigits2 m + k - 1)%Z with ((Zdigits2 m - 1) + k)%Z by lia.
  rewrite !Z.pow_add_r by lia. split; nia.
Qed.

(** [float64(w)] for a positive 64-bit integer. *)
Lemma of_int_close (w : Z) :
  (0 < w < 2 ^ 63)%Z ->
  normal (-52) 11 (of_int w) /\ close (val (of_int w)) (IZR w).
Proof.
  intros [Hw0 Hw1]. destruct w as [|p|p]; try lia.
  unfold of_int, binary_normalize, binary_round.
  pose proof (shl_align_spec p 0 (fexp prec emax (Zpos (digits2_pos p) + 0))) as Hsh.
  destruct (shl_align p 0 (fexp prec emax (Zpos (digits2_pos p) + 0))) as [mz ez].
  destruct Hsh as [Hez Hmz].
  change (Zpos (digits2_pos p)) with (Zdigits2 (Zpos p)) in Hez.
  pose proof (Zdigits2_bounds (Zpos p) Hw0) as [Hlo Hhi].
  pose proof (Zdigits2_pos (Zpos p) Hw0) as Hd.
  assert (Zdigits2 (Zpos p) <= 63)%Z as Hd63.
  { destruct (Z.le_gt_cases (Zdigits2 (Zpos p)) 63) as [|Hgt]; [done|].
    assert (2 ^ 63 <= 2 ^ (Zdigits2 (Zpos p) - 1))%Z by (apply Z.pow_le_mono_r; lia).
    lia. }
  rewrite fexp_normal in Hez by lia.
  assert (Zdigits2 (Zpos mz) = Zdigits2 (Zpos p) + (0 - ez))%Z as Hdz.
  { rewrite Hmz. apply Zdigits2_shift; lia. }
  assert (2 ^ 52 <= Zpos mz)%Z as Hmz52.
  { pose proof (Zdigits2_bounds (Zpos mz) ltac:(lia)) as [Hlo' _].
    apply Z.le_trans with (2 ^ (Zdigits2 (Zpos mz) - 1))%Z; [|done].
    apply Z.pow_le_mono_r; lia. }
  destruct (binary_round_aux_close (Zpos mz) ez loc_Exact (IZR (Zpos p)))
    as [Hnorm Hclose]; try lia.
  { assert (IZR (Zpos mz) * pw ez = IZR (Zpos p)) as Heq.
    { rewrite Hmz, mult_IZR, <- pw_IZR by lia. rewrite Rmult_assoc, <- pw_add.
      replace (0 - ez + ez)%Z with 0%Z by lia. rewrite pw_0. lra. }
    pose proof (pw_pos ez). rewrite Rmult_plus_distr_r, Heq. lra. }
  split; [|exact Hclose].
  destruct Hnorm as (m' & e' & Hr & Hm' & He').
  exists m', e'. split; [exact Hr|]. split; [exact Hm'|]. lia.
Qed.

Lemma SFdiv_core_normal (mx my : positive) (ex ey : Z) :
  (2 ^ 52 <= Zpos mx < 2 ^ 53)%Z -> (2 ^ 52 <= Zpos my < 2 ^ 53)%Z ->
  (-200 <= ex - ey)%Z ->
  SFdiv_core_binary prec emax (Zpos mx) ex (Zpos my) ey =
  ((Zpos mx * 2 ^ 53) / Zpos my, ex - ey - 53,
   new_location (Zpos my) ((Zpos mx * 2 ^ 53) mod Zpos my))%Z.
Proof.
  intros Hmx Hmy He. unfold SFdiv_core_binary.
  rewrite (Zdigits2_unique (Zpos mx) 53), (Zdigits2_unique (Zpos my) 53) by lia.
  replace (53 + ex - (53 + ey))%Z with (ex - ey)%Z by lia.
  rewrite fexp_normal by lia.
  replace (Z.min (ex - ey - 53) (ex - ey)) with (ex - ey - 53)%Z by lia.
  replace (ex - ey - (ex - ey - 53))%Z with 53%Z by lia.
  cbv zeta iota beta. rewrite Z.shiftl_mul_pow2 by lia.
  unfold Z.div, Z.modulo.
  destruct (Z.div_eucl (Zpos mx * 2 ^ 53) (Zpos my)) as [q r]. reflexivity.
Qed.

(** The quotient of two normal numbers. *)
Lemma div_close (x y : float64) :
  normal (-52) 11 x -> normal (-52) 11 y ->
  normal (-116) 12 (div x y) /\ close (val (div x y)) (val x / val y).
Proof.
  intros (mx & ex & -> & Hmx & Hex) (my & ey & -> & Hmy & Hey).
  unfold div, SFdiv. rewrite SFdiv_core_normal by lia. cbn [xorb].
  set (q := (Zpos mx * 2 ^ 53 / Zpos my)%Z).
  assert (q * Zpos my <= Zpos mx * 2 ^ 53 < (q + 1) * Zpos my)%Z as [Hq1 Hq2].
  { unfold q. pose proof (Z.mul_div_le (Zpos mx * 2 ^ 53) (Zpos my) ltac:(lia)).
    pose proof (Z.mul_succ_div_gt (Zpos mx * 2 ^ 53) (Zpos my) ltac:(lia)). lia. }
  assert (2 ^ 52 <= q < 2 ^ 54)%Z as [Hq52 Hq54] by (split; nia).
  assert (53 <= Zdigits2 q <= 54)%Z as Hdq.
  { pose proof (Zdigits2_bounds q ltac:(lia)) as [Hlo Hhi]. split.
    - destruct (Z.lt_ge_cases (Zdigits2 q) 53) as [Hlt|]; [|done].
      assert (2 ^ Zdigits2 q <= 2 ^ 52)%Z by (apply Z.pow_le_mono_r; lia). lia.
    - destruct (Z.le_gt_cases (Zdigits2 q) 54) as [|Hgt]; [done|].
      assert (2 ^ 54 <= 2 ^ (Zdigits2 q - 1))%Z by (apply Z.pow_le_mono_r; lia). lia. }
  simpl val.
  pose proof (pw_pos ex) as Hpx. pose proof (pw_pos ey) as Hpy.
  pose proof (pw_pos (ex - ey - 53)) as Hpe.
  assert (0 < IZR (Zpos my)) as Hmy0 by (apply IZR_lt; lia).
  assert (pw ex = pw (ex - ey - 53) * pw ey * IZR (2 ^ 53)) as Hsplit.
  { rewrite <- pw_IZR, <- !pw_add by lia. f_equal. lia. }
  set (X := IZR (Zpos mx) * pw ex / (IZR (Zpos my) * pw ey)).
  assert (X * IZR (Zpos my) = IZR (Zpos mx * 2 ^ 53) * pw (ex - ey - 53)) as HX.
  { unfold X. rewrite Hsplit, mult_IZR. field. split; lra. }
  destruct (binary_round_aux_close q (ex - ey - 53)
              (new_location (Zpos my) ((Zpos mx * 2 ^ 53) mod Zpos my)) X)
    as [Hnorm Hclose]; try lia.
  { split.
    - apply (Rmult_le_reg_r (IZR (Zpos my))); [done|]. rewrite HX.
      replace (IZR q * pw (ex - ey - 53) * IZR (Zpos my))
        with (IZR (q * Zpos my) * pw (ex - ey - 53)) by (rewrite mult_IZR; ring).
      apply Rmult_le_compat_r; [lra|]. by apply IZR_le.
    - apply (Rmult_lt_reg_r (IZR (Zpos my))); [done|]. rewrite HX.
      replace ((IZR q + 1) * pw (ex - ey - 53) * IZR (Zpos my))
        with (IZR ((q + 1) * Zpos my) * pw (ex - ey - 53))
        by (rewrite mult_IZR, plus_IZR; ring).
      apply Rmult_lt_compat_r; [lra|]. by apply IZR_lt. }
  split; [|exact Hclose].
  destruct Hnorm as (m' & e' & Hr & Hm' & He').
  exists m', e'. split; [exact Hr|]. split; [exact Hm'|]. lia.
Qed.

Lemma of_int_100 : of_int 100 = S754_finite false 7036874417766400 (-46).
Proof. reflexivity. Qed.

(** [perc * 100] for a normal [perc]. *)
Lemma mul100_close (c : float64) :
  normal (-116) 12 c ->
  normal (-110) 20 (mul c (of_int 100)) /\
  close (val (mul c (of_int 100))) (val c * 100).
Proof.
  intros (mc & ec & -> & Hmc & Hec). rewrite of_int_100.
  unfold mul, SFmul. cbn [xorb].
  set (mh := 7036874417766400%positive).
  assert (Zpos mh = 100 * 2 ^ 46)%Z as Hmh by reflexivity.
  rewrite Pos2Z.inj_mul.
  assert (2 ^ 104 <= Zpos mc * Zpos mh < 2 ^ 106)%Z as [Hlo Hhi] by (rewrite Hmh; lia).
  assert (105 <= Zdigits2 (Zpos mc * Zpos mh) <= 106)%Z as Hd.
  { pose proof (Zdigits2_bounds (Zpos mc * Zpos mh) ltac:(lia)) as [Hlo' Hhi']. split.
    - destruct (Z.lt_ge_cases (Zdigits2 (Zpos mc * Zpos mh)) 105) as [Hlt|]; [|done].
      assert (2 ^ Zdigits2 (Zpos mc * Zpos mh) <= 2 ^ 104)%Z
        by (apply Z.pow_le_mono_r; lia). lia.
    - destruct (Z.le_gt_cases (Zdigits2 (Zpos mc * Zpos mh)) 106) as [|Hgt]; [done|].
      assert (2 ^ 106 <= 2 ^ (Zdigits2 (Zpos mc * Zpos mh) - 1))%Z
        by (apply Z.pow_le_mono_r; lia). lia. }
  simpl val.
  assert (IZR (Zpos mc) * pw ec * 100 = IZR (Zpos mc * Zpos mh) * pw (ec + -46)) as Hx.
  { rewrite mult_IZR, Hmh, mult_IZR, <- pw_IZR, pw_add by lia.
    assert (pw 46 * pw (-46) = 1) as H1 by (rewrite <- pw_add; reflexivity).
    replace (IZR (Zpos mc) * (100 * pw 46) * (pw ec * pw (-46)))
      with (IZR (Zpos mc) * pw ec * 100 * (pw 46 * pw (-46))) by ring.
    rewrite H1. ring. }
  destruct (binary_round_aux_close (Zpos mc * Zpos mh) (ec + -46) loc_Exact
              (IZR (Zpos mc) * pw ec * 100)) as [Hnorm Hclose]; try lia.
  { rewrite Hx. pose proof (pw_pos (ec + -46)). split; [lra|].
    rewrite Rmult_plus_distr_r. lra. }
  split; [|exact Hclose].
  destruct Hnorm as (m' & e' & Hr & Hm' & He').
  exists m', e'. split; [exact Hr|]. split; [exact Hm'|]. lia.
Qed.

(** [int(x)] is the integer part of a normal [x] that fits. *)
Lemma to_int_floor (lo hi : Z) (x : float64) :
  normal lo hi x -> val x < IZR (2 ^ 62) ->
  (0 <= to_int x)%Z /\ IZR (to_int x) <= val x < IZR (to_int x) + 1.
Proof.
  intros (m & e & -> & Hm & He) Hlt. simpl val in *. unfold to_int.
  set (a := Z.shiftl (Zpos m) e).
  assert ((0 <= a)%Z /\ IZR a <= IZR (Zpos m) * pw e < IZR a + 1) as (Ha0 & Ha1 & Ha2).
  { unfold a. destruct (Z.le_gt_cases 0 e) as [Hpos|Hneg].
    - rewrite Z.shiftl_mul_pow2 by done. split; [lia|].
      rewrite mult_IZR, <- pw_IZR by done. lra.
    - rewrite Z.shiftl_div_pow2 by lia.
      pose proof (Z.pow_pos_nonneg 2 (- e) ltac:(lia) ltac:(lia)) as Hp.
      pose proof (Z.mul_div_le (Zpos m) (2 ^ (- e)) Hp) as H1.
      pose proof (Z.mul_succ_div_gt (Zpos m) (2 ^ (- e)) Hp) as H2.
      set (d := (Zpos m / 2 ^ (- e))%Z) in *.
      split; [apply Z.div_pos; lia|].
      assert (IZR (Zpos m) * pw e * IZR (2 ^ (- e)) = IZR (Zpos m)) as Hval.
      { rewrite <- pw_IZR by lia. rewrite Rmult_assoc, <- pw_add.
        replace (e + - e)%Z with 0%Z by lia. rewrite pw_0. ring. }
      assert (0 < IZR (2 ^ (- e))) as Hp' by (apply IZR_lt; lia).
      split.
      + apply (Rmult_le_reg_r (IZR (2 ^ (- e)))); [done|]. rewrite Hval.
        rewrite <- mult_IZR. apply IZR_le. lia.
      + apply (Rmult_lt_reg_r (IZR (2 ^ (- e)))); [done|]. rewrite Hval.
        rewrite <- (plus_IZR d 1), <- mult_IZR. apply IZR_lt. lia. }
  assert (a < 2 ^ 62)%Z as Ha62 by (apply lt_IZR; lra).
  replace ((- 2 ^ 63 <=? a)%Z && (a <? 2 ^ 63)%Z) with true.
  2:{ symmetry. apply andb_true_intro. split; [apply Z.leb_le|apply Z.ltb_lt]; lia. }
  done.
Qed.

End Float64Real.

(** ** One share of a hundred *)

Module ShareBounds.

Import Float64 Float64Facts Float64Real.

Local Open Scope R_scope.

(** The chain of four roundings, on real numbers. *)
Lemma chain_bounds (W TT A B C F K u : R) :
  0 <= W -> 0 < TT -> 0 <= u <= / 1000000 ->
  W * (1 - u) <= A <= W * (1 + u) ->
  TT * (1 - u) <= B <= TT * (1 + u) ->
  A * (1 - u) <= C * B <= A * (1 + u) ->
  C * 100 * (1 - u) <= F <= C * 100 * (1 + u) ->
  0 <= K -> K <= F < K + 1 ->
  1000 * (K * TT) <= 100100 * W /\ 99900 * W <= 1000 * ((K + 1) * TT).
Proof.
  intros HW HT [Hu0 Hu1] [HA1 HA2] [HB1 HB2] [HC1 HC2] [HF1 HF2] HK [HK1 HK2].
  assert (/ 1000000 = 0.000001) as Hdec by lra. rewrite Hdec in Hu1.
  assert (0 < B) as HB by nra.
  assert (0 <= A) as HA by nra.
  assert (0 <= C * B) as HCB by nra.
  assert (F * B <= 100 * (1 + u) * (C * B)) as H1 by nra.
  assert (100 * (1 - u) * (C * B) <= F * B) as H1' by nra.
  assert (C * B <= (1 + u) * (1 + u) * W) as H2 by nra.
  assert ((1 - u) * (1 - u) * W <= C * B) as H2' by nra.
  assert (K * B <= F * B) as H3 by nra.
  assert (F * B <= (K + 1) * B) as H3' by nra.
  assert (K * TT * (1 - u) <= K * B) as H4 by nra.
  assert ((K + 1) * B <= (K + 1) * TT * (1 + u)) as H4' by nra.
  assert (K * TT * (1 - u) <= 100 * (1 + u) * ((1 + u) * (1 + u) * W)) as H5 by nra.
  assert (100 * (1 - u) * ((1 - u) * (1 - u) * W) <= (K + 1) * TT * (1 + u)) as H5' by nra.
  assert (0 <= K * TT) as HP by nra.
  assert (0 <= (K + 1) * TT) as HP' by nra.
  assert ((1 + u) * ((1 + u) * (1 + u)) <= 1.0005) as Hc by nra.
  assert (0.9995 <= (1 - u) * ((1 - u) * (1 - u))) as Hc' by nra.
  split; nra.
Qed.

End ShareBounds.

Module Shares.

Import Float64 Float64Facts Float64Real ShareBounds.

Lemma roundedOf_zero (total : Z) :
  (0 < total < 2 ^ 63)%Z -> roundedOf total 0 = 0%Z.
Proof.
  intros Ht. unfold roundedOf.
  destruct (of_int_close total Ht) as [(m & e & -> & _) _].
  reflexivity.
Qed.

(** The integer part of the share of [w] in [total], computed in binary64,
    is the exact share up to one part in a thousand. *)
Lemma roundedOf_bounds (total w : Z) :
  (0 <= w <= total)%Z -> (0 < total < 2 ^ 63)%Z ->
  (0 <= roundedOf total w /\
   1000 * (roundedOf total w * total) <= 100100 * w /\
   99900 * w <= 1000 * ((roundedOf total w + 1) * total))%Z.
Proof.
  intros Hw Ht. destruct (Z.eq_dec w 0) as [->|Hw0].
  { rewrite roundedOf_zero by done. lia. }
  unfold roundedOf.
  destruct (of_int_close w ltac:(lia)) as [Hna Hca].
  destruct (of_int_close total Ht) as [Hnb Hcb].
  destruct (div_close _ _ Hna Hnb) as [Hnc Hcc].
  destruct (mul100_close _ Hnc) as [Hnf Hcf].
  set (a := of_int w) in *. set (b := of_int total) in *.
  set (c := div a b) in *. set (f := mul c (of_int 100)) in *.
  pose proof ulp1_pos as Hu0. pose proof ulp1_small as Hu1.
  assert (0 < IZR w)%R as HW by (apply IZR_lt; lia).
  assert (0 < IZR total)%R as HT by (apply IZR_lt; lia).
  assert (IZR w <= IZR total)%R as HWT by (apply IZR_le; lia).
  unfold close in Hca, Hcb, Hcc, Hcf.
  assert (0 < val b)%R as Hb by nra.
  assert (val a * (1 - ulp1) <= val c * val b <= val a * (1 + ulp1))%R as Hcc'.
  { destruct Hcc as [H1 H2]. split.
    - apply (Rmult_le_compat_r (val b)) in H1; [|lra].
      replace (val a / val b * (1 - ulp1) * val b)%R with (val a * (1 - ulp1))%R in H1
        by (field; lra). exact H1.
    - apply (Rmult_le_compat_r (val b)) in H2; [|lra].
      replace (val a / val b * (1 + ulp1) * val b)%R with (val a * (1 + ulp1))%R in H2
        by (field; lra). exact H2. }
  assert (val f < IZR (2 ^ 62))%R as Hf62.
  { assert (val c * val b <= 1.01 * val b)%R as H1 by nra.
    assert (val c <= 1.01)%R as H2 by nra.
    assert (val f <= 102)%R as H3 by nra.
    apply Rle_lt_trans with 102%R; [done|]. apply IZR_lt. lia. }
  destruct (to_int_floor _ _ f Hnf Hf62) as (Hk0 & Hk1 & Hk2).
  set (k := to_int f) in *.
  destruct (chain_bounds (IZR w) (IZR total) (val a) (val b) (val c) (val f) (IZR k) ulp1)
    as [Hup Hlow]; try lra.
  { apply IZR_le. lia. }
  split; [exact Hk0|]. split.
  - apply le_IZR. rewrite !mult_IZR. exact Hup.
  - apply le_IZR. rewrite !mult_IZR, plus_IZR. exact Hlow.
Qed.

End Shares.

(** ** Distributing the remainder *)

Section Distribute.

(** [results[i]++] for every index of a list. *)
Definition bump (L : list nat) (res : list Z) : list Z :=
  foldl (fun r i => alter (fun x => GoInt.add x 1) i r) res L.

Lemma distribute_bump (order : list nat) (remaining : Z) (res : list Z) :
  remaining < 2 ^ 63 ->
  distribute order remaining res = bump (take (Z.to_nat remaining) order) res.
Proof.
  revert remaining res. induction order as [|i order IH]; intros remaining res Hr.
  - simpl. by rewrite take_nil.
  - simpl. destruct (Z.leb_spec remaining 0) as [Hle|Hgt].
    + replace (Z.to_nat remaining) with 0%nat by lia. reflexivity.
    + unfold GoInt.sub. rewrite wrap64_id by lia. rewrite IH by lia.
      replace (Z.to_nat remaining) with (S (Z.to_nat (remaining - 1))) by lia.
      reflexivity.
Qed.

Lemma bump_length (L : list nat) (res : list Z) : length (bump L res) = length res.
Proof.
  unfold bump. revert res. induction L as [|i L IH]; intros res; simpl; [done|].
  by rewrite IH, length_alter.
Qed.

Lemma Zsum_alter (f : Z -> Z) (i : nat) (res : list Z) (x : Z) :
  res !! i = Some x -> Zsum (alter f i res) = Zsum res - x + f x.
Proof.
  revert i. induction res as [|y res IH]; intros [|i] Hi; simpl in *; try discriminate.
  - injection Hi as ->. lia.
  - specialize (IH i Hi). unfold alter in IH. lia.
Qed.

Lemma Forall_alter_le (i : nat) (res : list Z) (c : Z) :
  c + 1 < 2 ^ 63 ->
  Forall (fun x => 0 <= x <= c) res ->
  Forall (fun x => 0 <= x <= c + 1) (alter (fun x => GoInt.add x 1) i res).
Proof.
  intros Hc Hres. apply Forall_forall. intros y Hy.
  apply list_elem_of_lookup in Hy as [j Hj].
  destruct (decide (i = j)) as [->|Hne].
  - rewrite list_lookup_alter_eq in Hj.
    destruct (res !! j) as [x|] eqn:Hx; [|discriminate]. simpl in Hj. injection Hj as <-.
    pose proof (Forall_lookup_1 _ _ _ _ Hres Hx) as Hbx; simpl in Hbx.
    unfold GoInt.add. rewrite wrap64_id; lia.
  - rewrite list_lookup_alter_ne in Hj by done.
    pose proof (Forall_lookup_1 _ _ _ _ Hres Hj) as Hby; simpl in Hby. lia.
Qed.

Lemma bump_sum (L : list nat) :
  forall (res : list Z) (c : Z),
  Forall (fun i => (i < length res)%nat) L ->
  Forall (fun x => 0 <= x <= c) res ->
  c + Z.of_nat (length L) < 2 ^ 63 ->
  Zsum (bump L res) = Zsum res + Z.of_nat (length L).
Proof.
  unfold bump. induction L as [|i L IH]; intros res c HL Hres Hc; simpl.
  - lia.
  - inversion HL as [|? ? Hi HL']; subst. simpl length in *.
    destruct (lookup_lt_is_Some_2 res i Hi) as [x Hx].
    pose proof (Forall_lookup_1 _ _ _ _ Hres Hx) as Hbx; simpl in Hbx.
    rewrite (IH _ (c + 1)).
    + rewrite (Zsum_alter _ i res x Hx). unfold GoInt.add. rewrite wrap64_id; lia.
    + by rewrite length_alter.
    + apply Forall_alter_le; [|done]. lia.
    + lia.
Qed.

Lemma bump_lookup (L : list nat) :
  forall (res : list Z) (c : Z) (i : nat) (x : Z),
  NoDup L ->
  Forall (fun x => 0 <= x <= c) res ->
  c + Z.of_nat (length L) < 2 ^ 63 ->
  res !! i = Some x ->
  bump L res !! i = Some (if bool_decide (i ∈ L) then x + 1 else x).
Proof.
  unfold bump. induction L as [|j L IH]; intros res c i x Hnd Hres Hc Hi; simpl.
  - done.
  - apply NoDup_cons in Hnd as [Hj Hnd]. simpl length in Hc.
    pose proof (Forall_lookup_1 _ _ _ _ Hres Hi) as Hbx; simpl in Hbx.
    destruct (decide (i = j)) as [->|Hne].
    + rewrite (IH _ (c + 1) j (GoInt.add x 1)); try done.
      * rewrite bool_decide_eq_false_2 by done.
        rewrite bool_decide_eq_true_2 by (apply elem_of_cons; by left).
        unfold GoInt.add. rewrite wrap64_id; [done|lia].
      * apply Forall_alter_le; [lia|done].
      * lia.
      * by rewrite list_lookup_alter_eq, Hi.
    + rewrite (IH _ (c + 1) i x); try done.
      * f_equal. rewrite (bool_decide_ext (i ∈ j :: L) (i ∈ L)); [done|].
        rewrite elem_of_cons. split; [by intros [?|?] | by right].
      * apply Forall_alter_le; [lia|done].
      * lia.
      * by rewrite list_lookup_alter_ne.
Qed.

End Distribute.

(** ** The normalized weights sum to a hundred *)

Section Hundred.

Variable sorter : GoSort.Sorter.

Lemma Zsum_member_le (ws : list Z) (w : Z) :
  Forall (fun w => 0 <= w) ws -> w ∈ ws -> 0 <= w <= Zsum ws.
Proof.
  induction 1 as [|x ws Hx Hws IH]; intros Hw.
  - by apply elem_of_nil in Hw.
  - pose proof (Zsum_nonneg ws Hws). simpl.
    apply elem_of_cons in Hw as [->|Hw]; [lia|]. specialize (IH Hw). lia.
Qed.

Lemma Zsum_positive (ws : list Z) :
  Forall (fun w => 0 <= w) ws -> Exists (fun w => 0 < w) ws -> 0 < Zsum ws.
Proof.
  intros Hws Hex. apply Exists_exists in Hex as (w & Hw & Hpos).
  pose proof (Zsum_member_le ws w Hws Hw). lia.
Qed.

Lemma rounded_sum_bounds (total : Z) (ws : list Z) :
  0 < total < 2 ^ 63 ->
  Forall (fun w => 0 <= w <= total) ws ->
  Forall (fun k => 0 <= k <= 100) (map (roundedOf total) ws) /\
  1000 * (Zsum (map (roundedOf total) ws) * total) <= 100100 * Zsum ws /\
  99900 * Zsum ws <=
    1000 * ((Zsum (map (roundedOf total) ws) + Z.of_nat (length ws)) * total).
Proof.
  intros Ht. induction 1 as [|w ws Hw Hws (IH1 & IH2 & IH3)].
  - simpl. split; [constructor|lia].
  - destruct (Shares.roundedOf_bounds total w Hw Ht) as (Hk0 & Hk1 & Hk2).
    simpl map. simpl Zsum. simpl length. split; [|split].
    + constructor; [|done]. split; [done|]. nia.
    + lia.
    + lia.
Qed.

Lemma argsort_take_bound (n : list Float64.float64) (k : nat) (len : nat) :
  length n = len ->
  Forall (fun i => (i < len)%nat) (take k (argsort sorter n)).
Proof.
  intros <-. apply Forall_forall. intros i Hi.
  apply (argsort_bound sorter). by apply elem_of_take in Hi as (j & Hj & _);
    apply list_elem_of_lookup_2 in Hj.
Qed.

(** The result of a run whose rounded shares lack [0 <= rem <= 100] of a
    hundred. *)
Lemma run_bump (ws : list Z) :
  length ws <> 1%nat ->
  let res := map (roundedOf (divisorOf ws)) (effectiveWeights ws) in
  Forall (fun k => 0 <= k <= 100) res ->
  0 <= 100 - Zsum res <= 100 ->
  standardizeWeights sorter ws =
  bump (take (Z.to_nat (100 - Zsum res))
             (argsort sorter (map (remainderOf (divisorOf ws)) (effectiveWeights ws))))
       res.
Proof.
  intros Hlen res Hres Hrem. unfold standardizeWeights.
  rewrite standardizeWeights_run_eq by done. cbn [fst]. fold res.
  assert (Forall (fun x => 0 <= x) res) as Hnn
    by (eapply Forall_impl; [exact Hres|]; simpl; intros; lia).
  rewrite intSum_exact by (done || lia).
  unfold GoInt.sub. rewrite wrap64_id by lia. apply distribute_bump. lia.
Qed.

(** C1, amended by the range of the integers: for at least two
    non-negative weights, one of them positive, whose sum stays below
    2^63, the result has the length of the input and sums to exactly 100. *)
Theorem standardizeWeights_sum (ws : list Z) :
  (2 <= length ws)%nat ->
  Forall (fun w => 0 <= w) ws ->
  Exists (fun w => 0 < w) ws ->
  Zsum ws < 2 ^ 63 ->
  length (standardizeWeights sorter ws) = length ws /\
  Zsum (standardizeWeights sorter ws) = 100.
Proof.
  intros Hlen Hnn Hex Hsum. split; [apply standardizeWeights_length|].
  pose proof (Zsum_positive ws Hnn Hex) as Hpos.
  assert (intSum ws = Zsum ws) as Hint by (by apply intSum_exact).
  assert (divisorOf ws = Zsum ws) as Hdiv.
  { unfold divisorOf. rewrite Hint. destruct (Z.eqb_spec (Zsum ws) 0); [lia|done]. }
  assert (effectiveWeights ws = ws) as Heff.
  { unfold effectiveWeights. rewrite Hint. destruct (Z.eqb_spec (Zsum ws) 0); [lia|done]. }
  destruct (rounded_sum_bounds (Zsum ws) ws) as (Hres & Hup & Hlow); [lia| |].
  { apply Forall_forall. intros w Hw. by apply Zsum_member_le. }
  set (res := map (roundedOf (Zsum ws)) ws) in *.
  assert (0 <= 100 - Zsum res <= 100) as Hrem.
  { pose proof (Zsum_nonneg res ltac:(eapply Forall_impl; [exact Hres|]; simpl; intros; lia)).
    nia. }
  assert (100 - Zsum res <= Z.of_nat (length ws)) as HremN by nia.
  rewrite run_bump; rewrite ?Hdiv, ?Heff; try done; [|lia].
  fold res. rewrite (bump_sum _ res 100).
  - rewrite length_take, argsort_length, length_map. lia.
  - apply argsort_take_bound. unfold res. by rewrite !length_map.
  - done.
  - rewrite length_take. lia.
Qed.

End Hundred.

(** ** All weights zero *)

Section Uniform.

Variable sorter : GoSort.Sorter.

Lemma Zsum_zeros (ws : list Z) : Forall (fun w => w = 0) ws -> Zsum ws = 0.
Proof. induction 1 as [|w ws -> _ IH]; simpl; lia. Qed.

Lemma Zsum_const {A} (c : Z) (l : list A) :
  Zsum (map (fun _ => c) l) = c * Z.of_nat (length l).
Proof. induction l as [|x l IH]; simpl Zsum; simpl length; lia. Qed.

(** C6: for at least two weights that are all zero the result is a uniform
    split: it has the length of the input, sums to exactly 100, and every
    entry is the integer part of 100/N or one more.  (A slice has fewer
    than 2^63 entries.) *)
Theorem standardizeWeights_uniform (ws : list Z) :
  Forall (fun w => w = 0) ws ->
  (2 <= length ws)%nat ->
  Z.of_nat (length ws) < 2 ^ 63 ->
  length (standardizeWeights sorter ws) = length ws /\
  Zsum (standardizeWeights sorter ws) = 100 /\
  Forall (fun x => x = 100 / Z.of_nat (length ws) \/
                   x = 100 / Z.of_nat (length ws) + 1)
         (standardizeWeights sorter ws).
Proof.
  intros Hz Hlen HN. split; [apply standardizeWeights_length|].
  set (N := Z.of_nat (length ws)) in *.
  assert (Forall (fun w => 0 <= w) ws) as Hnn
    by (eapply Forall_impl; [exact Hz|]; simpl; intros; lia).
  assert (intSum ws = 0) as Hint
    by (rewrite intSum_exact; rewrite ?Zsum_zeros; done || lia).
  assert (divisorOf ws = N) as Hdiv by (unfold divisorOf; by rewrite Hint).
  assert (effectiveWeights ws = map (fun _ => 1) ws) as Heff
    by (unfold effectiveWeights; by rewrite Hint).
  destruct (rounded_sum_bounds N (map (fun _ => 1) ws)) as (Hres & Hup & Hlow); [lia| |].
  { apply Forall_forall. intros w Hw. apply list_elem_of_fmap in Hw as (? & -> & _). lia. }
  rewrite map_map in Hres, Hup, Hlow. rewrite length_map in Hlow.
  set (k := roundedOf N 1) in *.
  rewrite !Zsum_const in Hup, Hlow. fold N in Hup, Hlow.
  set (res := map (fun _ : Z => k) ws) in *.
  assert (Zsum res = k * N) as Hsum by apply Zsum_const.
  set (q := 100 / N).
  assert (q * N <= 100 < (q + 1) * N) as [Hq1 Hq2].
  { unfold q. pose proof (Z.mul_div_le 100 N ltac:(lia)).
    pose proof (Z.mul_succ_div_gt 100 N ltac:(lia)). lia. }
  assert (k * N <= 100) as HkN by nia.
  assert (100 <= (k + 1) * N) as HkN' by nia.
  assert (k = q \/ (k = q - 1 /\ q * N = 100)) as Hk by nia.
  assert (0 <= 100 - Zsum res <= 100) as Hrem.
  { rewrite Hsum. split; [lia|].
    assert (0 <= k) by (destruct ws; [simpl in Hlen; lia|];
                        by inversion Hres as [|? ? [? ?] ?]).
    nia. }
  assert (standardizeWeights sorter ws =
          bump (take (Z.to_nat (100 - Zsum res))
                     (argsort sorter (map (remainderOf N) (map (fun _ => 1) ws)))) res)
    as Hrun.
  { rewrite run_bump; rewrite ?Hdiv, ?Heff, ?map_map; try done. lia. }
  set (order := argsort sorter (map (remainderOf N) (map (fun _ => 1) ws))) in *.
  assert (length order = length ws) as Hlo
    by (unfold order; by rewrite argsort_length, !length_map).
  assert (NoDup (take (Z.to_nat (100 - Zsum res)) order)) as Hnd.
  { eapply sublist_NoDup; first [apply sublist_take | apply argsort_NoDup]. }
  rewrite Hrun. split.
  - rewrite (bump_sum _ res 100).
    + rewrite length_take, Hlo. lia.
    + apply argsort_take_bound. unfold res. by rewrite !length_map.
    + done.
    + rewrite length_take. lia.
  - apply Forall_lookup. intros i x Hi.
    assert (i < length ws)%nat as Hlt.
    { apply lookup_lt_Some in Hi. rewrite bump_length in Hi. unfold res in Hi.
      by rewrite length_map in Hi. }
    assert (res !! i = Some k) as Hri.
    { unfold res. rewrite list_lookup_fmap.
      destruct (lookup_lt_is_Some_2 ws i Hlt) as [w ->]. reflexivity. }
    rewrite (bump_lookup _ res 100 i k) in Hi; try done.
    2:{ rewrite length_take. lia. }
    injection Hi as <-. fold q.
    destruct Hk as [->|[-> HqN]].
    + destruct (bool_decide _); [by right|by left].
    + rewrite bool_decide_eq_true_2; [left; lia|].
      rewrite take_ge by (rewrite Hlo, Hsum; lia).
      unfold order. rewrite (argsort_Permutation sorter). rewrite !length_map.
      apply elem_of_seq. lia.
Qed.

End Uniform.

(** ** Statuses up to transition timestamps *)

Definition eraseCondition (c : metav1.Condition) : metav1.Condition := {|
  metav1.Type_ := metav1.Type_ c;
  metav1.Status := metav1.Status c;
  metav1.ObservedGeneration := metav1.ObservedGeneration c;
  metav1.LastTransitionTime := 0;
  metav1.Reason := metav1.Reason c;
  metav1.Message := metav1.Message c
|}.

Definition eraseListener (ls : k8s.ListenerStatus) : k8s.ListenerStatus := {|
  k8s.lst_Port := k8s.lst_Port ls;
  k8s.lst_Protocol := k8s.lst_Protocol ls;
  k8s.lst_Hostname := k8s.lst_Hostname ls;
  k8s.lst_Conditions := map eraseCondition (k8s.lst_Conditions ls)
|}.

Definition eraseRouteGateway (g : k8s.RouteGatewayStatus) : k8s.RouteGatewayStatus := {|
  k8s.rgs_GatewayRef := k8s.rgs_GatewayRef g;
  k8s.rgs_Conditions := map eraseCondition (k8s.rgs_Conditions g)
|}.

Definition eraseRoute (rs : k8s.RouteStatus) : k8s.RouteStatus :=
  {| k8s.rs_Gateways := map eraseRouteGateway (k8s.rs_Gateways rs) |}.

(** A status with every transition timestamp set to zero. *)
Definition eraseStatus (s : config.Status) : config.Status :=
  match s with
  | config.GatewayClassStatus gcs =>
      config.GatewayClassStatus
        {| k8s.gcst_Conditions := map eraseCondition (k8s.gcst_Conditions gcs) |}
  | config.GatewayStatus gs =>
      config.GatewayStatus {|
        k8s.gst_Addresses := k8s.gst_Addresses gs;
        k8s.gst_Conditions := map eraseCondition (k8s.gst_Conditions gs);
        k8s.gst_Listeners := map eraseListener (k8s.gst_Listeners gs) |}
  | config.HTTPRouteStatus rs => config.HTTPRouteStatus (eraseRoute rs)
  | config.TCPRouteStatus rs => config.TCPRouteStatus (eraseRoute rs)
  | config.TLSRouteStatus rs => config.TLSRouteStatus (eraseRoute rs)
  | config.OtherStatus => config.OtherStatus
  end.

(** Two worlds hold the same statuses apart from transition timestamps. *)
Definition sameStatuses (w1 w2 : World) : Prop :=
  eraseStatus <$> statuses w1 = eraseStatus <$> statuses w2.

#[global] Instance sameStatuses_equiv : Equivalence sameStatuses.
Proof.
  unfold sameStatuses. split.
  - by intros w.
  - by intros w1 w2.
  - intros w1 w2 w3 H1 H2. by rewrite H1.
Qed.

Lemma eraseCondition_same (a b c : metav1.Condition) :
  eraseCondition a = eraseCondition b ->
  sameCondition a c = sameCondition b c /\
  (metav1.Type_ a =? metav1.Type_ c)%string = (metav1.Type_ b =? metav1.Type_ c)%string.
Proof.
  intros H. unfold sameCondition.
  assert (metav1.Type_ a = metav1.Type_ b) as -> by exact (f_equal metav1.Type_ H).
  assert (metav1.Status a = metav1.Status b) as -> by exact (f_equal metav1.Status H).
  assert (metav1.Reason a = metav1.Reason b) as -> by exact (f_equal metav1.Reason H).
  assert (metav1.Message a = metav1.Message b) as -> by exact (f_equal metav1.Message H).
  assert (metav1.ObservedGeneration a = metav1.ObservedGeneration b) as ->
    by exact (f_equal metav1.ObservedGeneration H).
  done.
Qed.

Lemma eraseCondition_same_r (a c d : metav1.Condition) :
  eraseCondition c = eraseCondition d ->
  sameCondition a c = sameCondition a d /\
  (metav1.Type_ a =? metav1.Type_ c)%string = (metav1.Type_ a =? metav1.Type_ d)%string.
Proof.
  intros H. unfold sameCondition.
  assert (metav1.Type_ c = metav1.Type_ d) as -> by exact (f_equal metav1.Type_ H).
  assert (metav1.Status c = metav1.Status d) as -> by exact (f_equal metav1.Status H).
  assert (metav1.Reason c = metav1.Reason d) as -> by exact (f_equal metav1.Reason H).
  assert (metav1.Message c = metav1.Message d) as -> by exact (f_equal metav1.Message H).
  assert (metav1.ObservedGeneration c = metav1.ObservedGeneration d) as ->
    by exact (f_equal metav1.ObservedGeneration H).
  done.
Qed.

(** The reconciler of conditions does not look at timestamps. *)
Lemma ConditionallyUpdateCondition_erase (cs1 cs2 : list metav1.Condition)
    (c1 c2 : metav1.Condition) :
  map eraseCondition cs1 = map eraseCondition cs2 ->
  eraseCondition c1 = eraseCondition c2 ->
  map eraseCondition (ConditionallyUpdateCondition cs1 c1) =
  map eraseCondition (ConditionallyUpdateCondition cs2 c2).
Proof.
  intros Hcs Hc. revert cs2 Hcs. induction cs1 as [|a cs1 IH]; intros [|b cs2] Hcs;
    simpl in Hcs; try discriminate.
  - simpl. by rewrite Hc.
  - assert (eraseCondition a = eraseCondition b) as Hab by congruence.
    assert (map eraseCondition cs1 = map eraseCondition cs2) as Hcs' by congruence.
    clear Hcs. rename Hcs' into Hcs. simpl.
    destruct (eraseCondition_same a b c1 Hab) as [Hs Ht].
    destruct (eraseCondition_same_r b c1 c2 Hc) as [Hs' Ht'].
    rewrite Hs, Ht, Hs', Ht'.
    destruct (metav1.Type_ b =? metav1.Type_ c2)%string.
    + destruct (sameCondition b c2); simpl; by rewrite ?Hab, ?Hc, ?Hcs.
    + simpl. by rewrite Hab, (IH cs2 Hcs).
Qed.

(** ** Two runs side by side *)

(** Started in worlds with the same statuses apart from timestamps, at any
    time, both computations panic, or both return, with related results and
    again the same statuses apart from timestamps. *)
Definition rel {A} (R : A -> A -> Prop) (m1 m2 : M A) : Prop :=
  forall w1 w2, sameStatuses w1 w2 ->
    match m1 w1, m2 w2 with
    | Some (a1, w1'), Some (a2, w2') => R a1 a2 /\ sameStatuses w1' w2'
    | None, None => True
    | _, _ => False
    end.

Lemma rel_ret {A} (R : A -> A -> Prop) (a1 a2 : A) : R a1 a2 -> rel R (ret a1) (ret a2).
Proof. intros H w1 w2 Hw. by simpl. Qed.

Lemma rel_panic {A} (R : A -> A -> Prop) : rel R panic panic.
Proof. by intros w1 w2 Hw. Qed.

Lemma rel_bind {A B} (R : A -> A -> Prop) (S : B -> B -> Prop)
    (m1 m2 : M A) (k1 k2 : A -> M B) :
  rel R m1 m2 -> (forall a1 a2, R a1 a2 -> rel S (k1 a1) (k2 a2)) ->
  rel S (bind m1 k1) (bind m2 k2).
Proof.
  intros Hm Hk w1 w2 Hw. unfold bind. specialize (Hm w1 w2 Hw).
  destruct (m1 w1) as [[a1 w1']|], (m2 w2) as [[a2 w2']|]; try done.
  destruct Hm as [Ha Hw']. by apply Hk.
Qed.

Lemma rel_impl {A} (R S : A -> A -> Prop) (m1 m2 : M A) :
  (forall a1 a2, R a1 a2 -> S a1 a2) -> rel R m1 m2 -> rel S m1 m2.
Proof.
  intros HRS Hm w1 w2 Hw. specialize (Hm w1 w2 Hw).
  destruct (m1 w1) as [[a1 w1']|], (m2 w2) as [[a2 w2']|]; try done.
  destruct Hm. split; auto.
Qed.

Lemma rel_Now : rel (fun _ _ => True) Now Now.
Proof. intros w1 w2 Hw. by simpl. Qed.

Lemma rel_asWrappedStatus (obj : config.Config) :
  rel eq (asWrappedStatus obj) (asWrappedStatus obj).
Proof.
  unfold asWrappedStatus. destruct (config.status obj); [by apply rel_ret|apply rel_panic].
Qed.

Lemma rel_Mutate (l : config.loc) (f1 f2 : config.Status -> M config.Status) :
  (forall s1 s2, eraseStatus s1 = eraseStatus s2 ->
     rel (fun a b => eraseStatus a = eraseStatus b) (f1 s1) (f2 s2)) ->
  rel eq (Mutate l f1) (Mutate l f2).
Proof.
  intros Hf w1 w2 Hw. unfold Mutate.
  assert (eraseStatus <$> (statuses w1 !! l) = eraseStatus <$> (statuses w2 !! l)) as Hl
    by (rewrite <- !lookup_fmap; by rewrite Hw).
  destruct (statuses w1 !! l) as [s1|], (statuses w2 !! l) as [s2|]; try done.
  injection Hl as Hs. specialize (Hf s1 s2 Hs w1 w2 Hw).
  destruct (f1 s1 w1) as [[a1 w1']|], (f2 s2 w2) as [[a2 w2']|]; try done.
  destruct Hf as [Ha Hw']. split; [done|]. unfold sameStatuses in *. simpl.
  by rewrite !fmap_insert, Ha, Hw'.
Qed.

Lemma rel_foldM {A B} (R : A -> A -> Prop) (f1 f2 : A -> B -> M A) (l : list B) :
  (forall a1 a2 x, R a1 a2 -> rel R (f1 a1 x) (f2 a2 x)) ->
  forall a1 a2, R a1 a2 -> rel R (foldM f1 a1 l) (foldM f2 a2 l).
Proof.
  intros Hf. induction l as [|x l IH]; intros a1 a2 Ha; simpl.
  - by apply rel_ret.
  - eapply rel_bind; [by apply Hf|]. intros b1 b2 Hb. by apply IH.
Qed.

(** ** The conversion does not depend on the time *)

Section Reproducible.

Variable env : Env.

(** One step of a side-by-side run: a bind, a return or a panic. *)
Ltac rel_step :=
  first [ apply rel_panic
        | apply rel_ret
        | apply rel_asWrappedStatus
        | eapply rel_bind; [apply rel_asWrappedStatus | intros ? ? <-]
        | eapply rel_bind; [apply rel_Now | intros ? ? _] ].

Lemma rel_gatewayReferenceOf (gw : string) :
  rel eq (gatewayReferenceOf gw) (gatewayReferenceOf gw).
Proof.
  unfold gatewayReferenceOf. destruct (gw =? IstioMeshGateway)%string; [by rel_step|].
  destruct (Split gw "/" !! 1%nat), (Split gw "/" !! 0%nat); by rel_step.
Qed.

Lemma rel_createRouteStatus (gateways : list string) (obj : config.Config) :
  rel (fun g1 g2 => map eraseRouteGateway g1 = map eraseRouteGateway g2)
      (createRouteStatus gateways obj) (createRouteStatus gateways obj).
Proof.
  unfold createRouteStatus. apply rel_foldM; [|done]. intros a1 a2 gw Ha.
  eapply rel_bind; [apply rel_gatewayReferenceOf|]. intros r1 r2 <-.
  rel_step. rel_step. rewrite !map_app, Ha. reflexivity.
Qed.

Lemma eraseStatus_route (wrap : k8s.RouteStatus -> config.Status)
    (g1 g2 : list k8s.RouteGatewayStatus) :
  (forall rs, eraseStatus (wrap rs) = wrap (eraseRoute rs)) ->
  map eraseRouteGateway g1 = map eraseRouteGateway g2 ->
  eraseStatus (wrap {| k8s.rs_Gateways := g1 |}) =
  eraseStatus (wrap {| k8s.rs_Gateways := g2 |}).
Proof. intros Hw Hg. rewrite !Hw. unfold eraseRoute. simpl. by rewrite Hg. Qed.

Lemma rel_buildHTTPVirtualServices (obj : config.Config) (gateways : list string)
    (domain : string) :
  rel eq (buildHTTPVirtualServices env obj gateways domain)
         (buildHTTPVirtualServices env obj gateways domain).
Proof.
  unfold buildHTTPVirtualServices. destruct (config.spec obj); try apply rel_panic.
  rel_step. eapply rel_bind; [|intros ? ? _; by rel_step].
  apply rel_Mutate. intros s1 s2 Hs.
  destruct s1, s2; simpl in Hs; try discriminate Hs; try apply rel_panic.
  eapply rel_bind; [apply rel_createRouteStatus|]. intros g1 g2 Hg.
  rel_step. by apply (eraseStatus_route config.HTTPRouteStatus).
Qed.

Lemma rel_buildTCPVirtualService (obj : config.Config) (gateways : list string)
    (domain : string) :
  rel eq (buildTCPVirtualService env obj gateways domain)
         (buildTCPVirtualService env obj gateways domain).
Proof.
  unfold buildTCPVirtualService. destruct (config.spec obj); try apply rel_panic.
  rel_step. eapply rel_bind; [|intros ? ? _; by rel_step].
  apply rel_Mutate. intros s1 s2 Hs.
  destruct s1, s2; simpl in Hs; try discriminate Hs; try apply rel_panic.
  eapply rel_bind; [apply rel_createRouteStatus|]. intros g1 g2 Hg.
  rel_step. by apply (eraseStatus_route config.TCPRouteStatus).
Qed.

Lemma rel_buildTLSVirtualService (obj : config.Config) (gateways : list string)
    (domain : string) :
  rel eq (buildTLSVirtualService env obj gateways domain)
         (buildTLSVirtualService env obj gateways domain).
Proof.
  unfold buildTLSVirtualService. destruct (config.spec obj); try apply rel_panic.
  rel_step. eapply rel_bind; [|intros ? ? _; by rel_step].
  apply rel_Mutate. intros s1 s2 Hs.
  destruct s1, s2; simpl in Hs; try discriminate Hs; try apply rel_panic.
  eapply rel_bind; [apply rel_createRouteStatus|]. intros g1 g2 Hg.
  rel_step. by apply (eraseStatus_route config.TLSRouteStatus).
Qed.

Lemma rel_convertVirtualService (r : KubernetesResources)
    (routeMap : gmap RouteKey (list string)) :
  rel eq (convertVirtualService env r routeMap) (convertVirtualService env r routeMap).
Proof.
  unfold convertVirtualService.
  eapply (rel_bind eq).
  { apply rel_foldM; [|done]. intros a1 a2 obj <-.
    destruct (routeMap !! toRouteKey obj); [|by rel_step].
    eapply rel_bind; [apply rel_buildTCPVirtualService|]. intros ? ? <-. by rel_step. }
  intros res1 ? <-. eapply (rel_bind eq).
  { apply rel_foldM; [|done]. intros b1 b2 obj <-.
    destruct (routeMap !! toRouteKey obj); [|by rel_step].
    eapply rel_bind; [apply rel_buildTLSVirtualService|]. intros ? ? <-. by rel_step. }
  intros res2 ? <-.
  apply rel_foldM; [|done]. intros c1 c2 obj <-.
  destruct (routeMap !! toRouteKey obj); [|by rel_step].
  eapply rel_bind; [apply rel_buildHTTPVirtualServices|]. intros ? ? <-. by rel_step.
Qed.

Lemma rel_convertDestinationRule (r : KubernetesResources) :
  rel eq (convertDestinationRule env r) (convertDestinationRule env r).
Proof.
  unfold convertDestinationRule. apply rel_foldM; [|done]. intros a1 a2 obj <-.
  destruct (config.spec obj); by rel_step.
Qed.

Lemma rel_getGatewayClasses (r : KubernetesResources) :
  rel eq (getGatewayClasses r) (getGatewayClasses r).
Proof.
  unfold getGatewayClasses. apply rel_foldM; [|done]. intros a1 a2 obj <-.
  destruct (config.spec obj); try apply rel_panic.
  destruct (k8s.gcs_Controller s =? ControllerName)%string; [|by rel_step].
  rel_step. eapply rel_bind; [|intros ? ? _; by rel_step].
  apply rel_Mutate. intros s1 s2 Hs.
  destruct s1 as [g1| | | | |], s2 as [g2| | | | |]; simpl in Hs;
    try discriminate Hs; try apply rel_panic.
  rel_step. rel_step. simpl. f_equal. f_equal.
  apply ConditionallyUpdateCondition_erase; [congruence|reflexivity].
Qed.

Lemma rel_convertListener (r : KubernetesResources) (obj : config.Config)
    (st : config.loc) (name : string)
    (acc : list istio.Server * gmap RouteKey (list string)) (il : nat * k8s.Listener) :
  rel eq (convertListener env r obj st name acc il)
         (convertListener env r obj st name acc il).
Proof.
  unfold convertListener. destruct acc as [servers m], il as [i l].
  eapply rel_bind; [|intros ? ? _; by rel_step].
  apply rel_Mutate. intros s1 s2 Hs.
  destruct s1 as [|g1| | | |], s2 as [|g2| | | |]; simpl in Hs;
    try discriminate Hs; try apply rel_panic.
  assert (eraseListener <$> k8s.gst_Listeners g1 =
          eraseListener <$> k8s.gst_Listeners g2) as Hls.
  { change (map eraseListener (k8s.gst_Listeners g1) =
            map eraseListener (k8s.gst_Listeners g2)). congruence. }
  assert (eraseListener <$> (k8s.gst_Listeners g1 !! i) =
          eraseListener <$> (k8s.gst_Listeners g2 !! i)) as Hli
    by (rewrite <- !list_lookup_fmap; by rewrite Hls).
  destruct (k8s.gst_Listeners g1 !! i) as [l1|], (k8s.gst_Listeners g2 !! i) as [l2|];
    try discriminate Hli; try apply rel_panic.
  rel_step. rel_step. simpl. f_equal.
  assert (k8s.gst_Addresses g1 = k8s.gst_Addresses g2) as -> by congruence.
  assert (map eraseCondition (k8s.gst_Conditions g1) =
          map eraseCondition (k8s.gst_Conditions g2)) as -> by congruence.
  f_equal.
  etransitivity; [apply (list_fmap_insert eraseListener)|].
  etransitivity; [|symmetry; apply (list_fmap_insert eraseListener)].
  rewrite Hls. f_equal.
  unfold eraseListener. simpl. f_equal.
  apply ConditionallyUpdateCondition_erase; [|reflexivity].
  injection Hli as _ _ _ Hc. exact Hc.
Qed.

Lemma rel_convertOneGateway (r : KubernetesResources) (classes : gset string)
    (acc : gatewayAcc) (obj : config.Config) :
  rel eq (convertOneGateway env r classes acc obj)
         (convertOneGateway env r classes acc obj).
Proof.
  unfold convertOneGateway. destruct (config.spec obj); try apply rel_panic.
  destruct (negb _); [by rel_step|].
  rel_step. eapply rel_bind.
  { apply rel_Mutate. intros s1 s2 Hs.
    destruct s1 as [|g1| | | |], s2 as [|g2| | | |]; simpl in Hs;
      try discriminate Hs; try apply rel_panic.
    rel_step. simpl. f_equal.
    assert (map eraseCondition (k8s.gst_Conditions g1) =
            map eraseCondition (k8s.gst_Conditions g2)) as -> by congruence.
    assert (map eraseListener (k8s.gst_Listeners g1) =
            map eraseListener (k8s.gst_Listeners g2)) as Hls by congruence.
    f_equal.
    assert (length (k8s.gst_Listeners g1) = length (k8s.gst_Listeners g2)) as ->
      by (rewrite <- (length_map eraseListener), Hls; apply length_map).
    destruct (negb _); [reflexivity|exact Hls]. }
  intros ? ? _. eapply (rel_bind eq).
  { apply rel_foldM; [|reflexivity]. intros acc1 acc2 il <-. apply rel_convertListener. }
  intros [servers m] ? <-. eapply rel_bind; [|intros ? ? _; by rel_step].
  apply rel_Mutate. intros s1 s2 Hs.
  destruct s1 as [|g1| | | |], s2 as [|g2| | | |]; simpl in Hs;
    try discriminate Hs; try apply rel_panic.
  rel_step. rel_step. rel_step. simpl. f_equal.
  assert (k8s.gst_Addresses g1 = k8s.gst_Addresses g2) as -> by congruence.
  assert (map eraseListener (k8s.gst_Listeners g1) =
          map eraseListener (k8s.gst_Listeners g2)) as -> by congruence.
  f_equal.
  apply ConditionallyUpdateCondition_erase; [|reflexivity].
  apply ConditionallyUpdateCondition_erase; [congruence|reflexivity].
Qed.

Lemma rel_convertGateway (r : KubernetesResources) :
  rel eq (convertGateway env r) (convertGateway env r).
Proof.
  unfold convertGateway.
  eapply rel_bind; [apply rel_getGatewayClasses|]. intros classes ? <-.
  eapply (rel_bind eq).
  { apply rel_foldM; [|reflexivity]. intros acc1 acc2 obj <-. apply rel_convertOneGateway. }
  intros acc ? <-. by rel_step.
Qed.

Lemma rel_convertResources (r : KubernetesResources) :
  rel eq (convertResources env r) (convertResources env r).
Proof.
  unfold convertResources.
  eapply rel_bind; [apply rel_convertGateway|]. intros [gw routeMap] ? <-.
  eapply rel_bind; [apply rel_convertVirtualService|]. intros vs ? <-.
  eapply rel_bind; [apply rel_convertDestinationRule|]. intros dr ? <-.
  by rel_step.
Qed.

End Reproducible.

(** ** Running again on the statuses of a run

    A computation settles the statuses at the locations [L] when, from a world
    whose statuses have the kinds [K], it returns, writes only at [L], keeps
    the kinds, and returns the same result from any world that holds at [L]
    what the run has written there (apart from timestamps), then changing
    nothing but timestamps. *)

Definition settles {A} (K : gmap config.loc StatusKind) (L : gset config.loc)
    (m : M A) : Prop :=
  forall w, kinds w = K ->
    exists a w1,
      m w = Some (a, w1) /\
      kinds w1 = K /\
      (forall l, l ∉ L -> statuses w1 !! l = statuses w !! l) /\
      forall v,
        (forall l, l ∈ L ->
           eraseStatus <$> (statuses v !! l) = eraseStatus <$> (statuses w1 !! l)) ->
        exists v', m v = Some (a, v') /\ sameStatuses v' v.

Lemma settles_ret {A} (K : gmap config.loc StatusKind) (a : A) : settles K ∅ (ret a).
Proof.
  intros w Hk. exists a, w. repeat split; try done. intros v _. by exists v.
Qed.

Lemma settles_mono {A} (K : gmap config.loc StatusKind) (L L' : gset config.loc)
    (m : M A) :
  L ⊆ L' -> settles K L m -> settles K L' m.
Proof.
  intros Hsub Hm w Hk. destruct (Hm w Hk) as (a & w1 & Hrun & Hk1 & Hfr & Hre).
  exists a, w1. split; [done|]. split; [done|]. split.
  - intros l Hl. apply Hfr. set_solver.
  - intros v Hv. apply Hre. intros l Hl. apply Hv. set_solver.
Qed.

Lemma settles_bind {A B} (K : gmap config.loc StatusKind) (L1 L2 : gset config.loc)
    (m : M A) (k : A -> M B) :
  settles K L1 m ->
  (forall a w w1, kinds w = K -> m w = Some (a, w1) -> settles K L2 (k a)) ->
  L1 ## L2 ->
  settles K (L1 ∪ L2) (bind m k).
Proof.
  intros Hm Hk Hdis w Hw.
  destruct (Hm w Hw) as (a & w1 & Hrun1 & Hk1 & Hfr1 & Hre1).
  destruct (Hk a w w1 Hw Hrun1 w1 Hk1) as (b & w2 & Hrun2 & Hk2 & Hfr2 & Hre2).
  exists b, w2. split; [by rewrite (bind_run _ _ _ _ _ Hrun1)|]. split; [done|]. split.
  - intros l Hl. rewrite Hfr2, Hfr1 by set_solver. done.
  - intros v Hv.
    destruct (Hre1 v) as (v1 & Hv1 & Hs1).
    { intros l Hl. rewrite Hv by set_solver. rewrite Hfr2; [done|set_solver]. }
    destruct (Hre2 v1) as (v2 & Hv2 & Hs2).
    { intros l Hl. rewrite <- Hv by set_solver.
      unfold sameStatuses in Hs1. by rewrite <- !lookup_fmap, Hs1. }
    exists v2. split; [by rewrite (bind_run _ _ _ _ _ Hv1)|].
    by etransitivity.
Qed.

(** The location of the status object of a resource. *)
Definition statusLoc (obj : config.Config) : gset config.loc :=
  match config.status obj with
  | Some l => {[ l ]}
  | None => ∅
  end.

Definition statusLocsOf (objs : list config.Config) : gset config.loc :=
  ⋃ (statusLoc <$> objs).

Lemma statusLocsOf_cons (obj : config.Config) (objs : list config.Config) :
  statusLocsOf (obj :: objs) = statusLoc obj ∪ statusLocsOf objs.
Proof. reflexivity. Qed.

Lemma elem_of_statusLocsOf (objs : list config.Config) (l : config.loc) :
  l ∈ statusLocsOf objs <-> l ∈ omap config.status objs.
Proof.
  induction objs as [|obj objs IH]; simpl.
  - unfold statusLocsOf. simpl. set_solver.
  - rewrite statusLocsOf_cons, elem_of_union, IH. unfold statusLoc.
    destruct (config.status obj) as [l'|]; simpl.
    + rewrite elem_of_cons, elem_of_singleton. tauto.
    + rewrite elem_of_empty. tauto.
Qed.

Lemma settles_foldM {A} (K : gmap config.loc StatusKind)
    (f : A -> config.Config -> M A) (objs : list config.Config) :
  (forall acc obj, obj ∈ objs -> settles K (statusLoc obj) (f acc obj)) ->
  NoDup (omap config.status objs) ->
  forall acc, settles K (statusLocsOf objs) (foldM f acc objs).
Proof.
  induction objs as [|obj objs IH]; intros Hf Hnd acc.
  - simpl. apply settles_ret.
  - rewrite statusLocsOf_cons. cbn [foldM]. apply settles_bind.
    + apply Hf. by left.
    + intros a w w1 _ _. apply IH.
      * intros acc' obj' Hobj'. apply Hf. by right.
      * simpl in Hnd. destruct (config.status obj); [by apply NoDup_cons in Hnd as [_ ?]|done].
    + intros l Hl1 Hl2. apply elem_of_statusLocsOf in Hl2.
      unfold statusLoc in Hl1. simpl in Hnd.
      destruct (config.status obj) as [l'|]; [|set_solver].
      apply elem_of_singleton in Hl1 as ->. by apply NoDup_cons in Hnd as [? _].
Qed.

(** ** The reconciler of conditions is idempotent *)

Lemma sameCondition_refl (c : metav1.Condition) : sameCondition c c = true.
Proof.
  unfold sameCondition. by rewrite !String.eqb_refl, Z.eqb_refl.
Qed.

Lemma ConditionallyUpdateCondition_idem (cs : list metav1.Condition)
    (c : metav1.Condition) :
  ConditionallyUpdateCondition (ConditionallyUpdateCondition cs c) c =
  ConditionallyUpdateCondition cs c.
Proof.
  induction cs as [|a cs IH]; simpl.
  - by rewrite String.eqb_refl, sameCondition_refl.
  - destruct (metav1.Type_ a =? metav1.Type_ c)%string eqn:Ht.
    + destruct (sameCondition a c) eqn:Hs; simpl.
      * by rewrite Ht, Hs.
      * by rewrite String.eqb_refl, sameCondition_refl.
    + simpl. by rewrite Ht, IH.
Qed.

(** A condition that is in place stays in place when a condition of another
    type is reconciled. *)
Lemma ConditionallyUpdateCondition_other (cs : list metav1.Condition)
    (c d : metav1.Condition) :
  metav1.Type_ c <> metav1.Type_ d ->
  ConditionallyUpdateCondition cs c = cs ->
  ConditionallyUpdateCondition (ConditionallyUpdateCondition cs d) c =
  ConditionallyUpdateCondition cs d.
Proof.
  intros Hne. induction cs as [|a cs IH]; intros Hset; simpl in *.
  - discriminate Hset.
  - destruct (metav1.Type_ a =? metav1.Type_ c)%string eqn:Hac.
    + apply String.eqb_eq in Hac.
      assert ((metav1.Type_ a =? metav1.Type_ d)%string = false) as Had
        by (apply String.eqb_neq; congruence).
      rewrite Had. simpl. rewrite (proj2 (String.eqb_eq _ _) Hac).
      destruct (sameCondition a c) eqn:Hs; [done|].
      injection Hset as Hca. subst a. by rewrite sameCondition_refl in Hs.
    + injection Hset as Hset.
      destruct (metav1.Type_ a =? metav1.Type_ d)%string eqn:Had.
      * apply String.eqb_eq in Had.
        destruct (sameCondition a d); simpl.
        -- by rewrite Hac, Hset.
        -- assert ((metav1.Type_ d =? metav1.Type_ c)%string = false) as ->
             by (apply String.eqb_neq; congruence).
           by rewrite Hset.
      * simpl. rewrite Hac. by rewrite (IH Hset).
Qed.

Lemma ConditionallyUpdateCondition_pair (cs : list metav1.Condition)
    (c d : metav1.Condition) :
  metav1.Type_ c <> metav1.Type_ d ->
  let cs' := ConditionallyUpdateCondition (ConditionallyUpdateCondition cs c) d in
  ConditionallyUpdateCondition (ConditionallyUpdateCondition cs' c) d = cs'.
Proof.
  intros Hne cs'. unfold cs'.
  rewrite (ConditionallyUpdateCondition_other _ c d Hne)
    by apply ConditionallyUpdateCondition_idem.
  apply ConditionallyUpdateCondition_idem.
Qed.

Lemma sameStatuses_insert (v : World) (l : config.loc) (s2 s3 : config.Status) (n : nat) :
  statuses v !! l = Some s2 -> eraseStatus s3 = eraseStatus s2 ->
  sameStatuses (tick v (<[l := s3]> (statuses v)) n) v.
Proof.
  intros Hl Hs. unfold sameStatuses, tick. simpl. rewrite fmap_insert, Hs.
  apply insert_id. by rewrite lookup_fmap, Hl.
Qed.

Lemma erased_lookup (v w1 : World) (l : config.loc) (s1 : config.Status) :
  statuses w1 !! l = Some s1 ->
  eraseStatus <$> (statuses v !! l) = eraseStatus <$> (statuses w1 !! l) ->
  exists s2, statuses v !! l = Some s2 /\ eraseStatus s2 = eraseStatus s1.
Proof.
  intros H1 H. rewrite H1 in H. destruct (statuses v !! l) as [s2|]; [|discriminate].
  exists s2. split; [done|]. by injection H.
Qed.

Lemma statusKind_erase (s : config.Status) : statusKind (eraseStatus s) = statusKind s.
Proof. by destruct s. Qed.

Lemma kinds_written (w w1 : World) (l : config.loc) (s s' : config.Status) :
  statuses w !! l = Some s -> statusKind s' = statusKind s ->
  statuses w1 = <[l := s']> (statuses w) -> kinds w1 = kinds w.
Proof.
  intros Hl Hk Hw. unfold kinds. rewrite Hw, fmap_insert, Hk.
  apply insert_id. by rewrite lookup_fmap, Hl.
Qed.

Lemma sameStatuses_written (v v1 : World) (l : config.loc) (s2 s3 : config.Status) :
  statuses v !! l = Some s2 -> eraseStatus s3 = eraseStatus s2 ->
  statuses v1 = <[l := s3]> (statuses v) -> sameStatuses v1 v.
Proof.
  intros Hl Hs Hv. unfold sameStatuses. rewrite Hv, fmap_insert, Hs.
  apply insert_id. by rewrite lookup_fmap, Hl.
Qed.

(** A computation that does nothing but write one status object. *)
Lemma settles_write {A} (K : gmap config.loc StatusKind) (l : config.loc)
    (k : StatusKind) (m : M A) (a : A)
    (U : config.Status -> config.Status -> Prop) :
  K !! l = Some k ->
  (forall w s, statuses w !! l = Some s -> statusKind s = k ->
     exists s' w1, m w = Some (a, w1) /\
                   statuses w1 = <[l := s']> (statuses w) /\ U s s') ->
  (forall s s', statusKind s = k -> U s s' -> statusKind s' = k) ->
  (forall s s' s2 s3, statusKind s = k -> U s s' ->
     eraseStatus s2 = eraseStatus s' -> U s2 s3 -> eraseStatus s3 = eraseStatus s2) ->
  settles K {[ l ]} m.
Proof.
  intros HK Hrun Hkind Hidem w Hw.
  assert (kinds w !! l = Some k) as Hl by (by rewrite Hw).
  apply kinds_lookup in Hl as (s & Hs & Hsk).
  destruct (Hrun w s Hs Hsk) as (s' & w1 & Hm & Hw1 & HU).
  exists a, w1. split; [done|]. split.
  { rewrite <- Hw. apply (kinds_written w w1 l s s' Hs); [|done].
    rewrite Hsk. by apply (Hkind s). }
  split.
  { intros l' Hl'. rewrite Hw1. apply lookup_insert_ne. set_solver. }
  intros v Hv.
  destruct (erased_lookup v w1 l s') as (s2 & Hs2 & He).
  { rewrite Hw1. apply lookup_insert_eq. }
  { apply Hv. set_solver. }
  assert (statusKind s2 = k) as Hs2k.
  { rewrite <- (statusKind_erase s2), He, statusKind_erase. by apply (Hkind s). }
  destruct (Hrun v s2 Hs2 Hs2k) as (s3 & v1 & Hm3 & Hv1 & HU3).
  exists v1. split; [exact Hm3|].
  apply (sameStatuses_written v v1 l s2 s3 Hs2); [|done]. by apply (Hidem s s').
Qed.

Lemma settles_write_at {A} (K : gmap config.loc StatusKind) (obj : config.Config)
    (l : config.loc) (k : StatusKind) (m : M A) (a : A)
    (U : config.Status -> config.Status -> Prop) :
  config.status obj = Some l ->
  K !! l = Some k ->
  (forall w s, statuses w !! l = Some s -> statusKind s = k ->
     exists s' w1, m w = Some (a, w1) /\
                   statuses w1 = <[l := s']> (statuses w) /\ U s s') ->
  (forall s s', statusKind s = k -> U s s' -> statusKind s' = k) ->
  (forall s s' s2 s3, statusKind s = k -> U s s' ->
     eraseStatus s2 = eraseStatus s' -> U s2 s3 -> eraseStatus s3 = eraseStatus s2) ->
  settles K (statusLoc obj) m.
Proof.
  intros Hst. unfold statusLoc. rewrite Hst. apply settles_write.
Qed.

(** Resources typed against the kinds of the statuses. *)
Definition typedK (K : gmap config.loc StatusKind) (k : StatusKind)
    (obj : config.Config) : Prop :=
  specKind (config.spec obj) = k /\
  exists l, config.status obj = Some l /\ K !! l = Some k.

Lemma typed_typedK (w : World) (k : StatusKind) (obj : config.Config) :
  typed w k obj <-> typedK (kinds w) k obj.
Proof. reflexivity. Qed.

Section Settling.

Variable env : Env.
Variable r : KubernetesResources.
Variable K : gmap config.loc StatusKind.

(** The body of the loop of [getGatewayClasses]. *)
Definition classBody (classes : gset string) (obj : config.Config) : M (gset string) :=
  match config.spec obj with
  | config.GatewayClassSpec gwc =>
    if (k8s.gcs_Controller gwc =? ControllerName)%string then
      let classes := classes ∪ {[ config.Name (config.meta obj) ]} in
      let* l := asWrappedStatus obj in
      let* _ := Mutate l (fun s =>
        match s with
        | config.GatewayClassStatus gcs =>
          let* now := Now in
          ret (config.GatewayClassStatus {|
            k8s.gcst_Conditions :=
              ConditionallyUpdateCondition (k8s.gcst_Conditions gcs) {|
                metav1.Type_ := k8s.GatewayClassConditionStatusAdmitted;
                metav1.Status := StatusTrue;
                metav1.ObservedGeneration := config.Generation (config.meta obj);
                metav1.LastTransitionTime := now;
                metav1.Reason := "Handled";
                metav1.Message := "Handled by Istio controller" |} |})
        | _ => panic
        end) in
      ret classes
    else ret classes
  | _ => panic
  end.

Lemma getGatewayClasses_classBody :
  getGatewayClasses r = foldM classBody ∅ (GatewayClass r).
Proof. reflexivity. Qed.

Definition classAdmitted (obj : config.Config) (now : Time) : metav1.Condition := {|
  metav1.Type_ := k8s.GatewayClassConditionStatusAdmitted;
  metav1.Status := StatusTrue;
  metav1.ObservedGeneration := config.Generation (config.meta obj);
  metav1.LastTransitionTime := now;
  metav1.Reason := "Handled";
  metav1.Message := "Handled by Istio controller"
|}.

Lemma settles_classBody (classes : gset string) (obj : config.Config) :
  typedK K KGatewayClass obj ->
  settles K (statusLoc obj) (classBody classes obj).
Proof.
  intros [Hspec (l & Hst & HK)]. unfold classBody.
  destruct (config.spec obj) as [gwc| | | | | | | | |]; try discriminate Hspec.
  destruct (k8s.gcs_Controller gwc =? ControllerName)%string.
  2:{ eapply settles_mono; [|apply settles_ret]. set_solver. }
  apply (settles_write_at K obj l KGatewayClass _
           (classes ∪ {[config.Name (config.meta obj)]})
           (fun s s' => exists gcs t,
              s = config.GatewayClassStatus gcs /\
              s' = config.GatewayClassStatus {|
                k8s.gcst_Conditions :=
                  ConditionallyUpdateCondition (k8s.gcst_Conditions gcs)
                                               (classAdmitted obj t) |})); try done.
  - intros w s Hs Hk. destruct s as [gcs| | | | |]; try discriminate Hk.
    eexists _, _. split; [|split; [|by eexists _, (clock w (ticks w))]].
    + unfold asWrappedStatus. rewrite Hst. erewrite bind_run by reflexivity.
      erewrite bind_run by (eapply Mutate_run; [exact Hs | reflexivity]).
      reflexivity.
    + reflexivity.
  - by intros s s' _ (gcs & t & -> & ->).
  - intros s s' s2 s3 _ (gcs & t & -> & ->) He (gcs2 & t2 & -> & ->).
    simpl in *. f_equal. f_equal.
    assert (map eraseCondition (k8s.gcst_Conditions gcs2) =
            map eraseCondition (ConditionallyUpdateCondition (k8s.gcst_Conditions gcs)
                                  (classAdmitted obj t))) as Hc by congruence.
    transitivity (map eraseCondition
                    (ConditionallyUpdateCondition
                       (ConditionallyUpdateCondition (k8s.gcst_Conditions gcs)
                                                     (classAdmitted obj t))
                       (classAdmitted obj t))).
    + by apply ConditionallyUpdateCondition_erase.
    + by rewrite ConditionallyUpdateCondition_idem.
Qed.

End Settling.

Lemma settles_ext {A} (K : gmap config.loc StatusKind) (L : gset config.loc)
    (m m' : M A) :
  (forall w, m w = m' w) -> settles K L m' -> settles K L m.
Proof.
  intros Heq Hm w Hk. destruct (Hm w Hk) as (a & w1 & Hrun & Hk1 & Hfr & Hre).
  exists a, w1. rewrite Heq. repeat split; try done.
  intros v Hv. destruct (Hre v Hv) as (v' & Hv' & Hs). exists v'. by rewrite Heq.
Qed.

Lemma map_lookup {A B} (f : A -> B) (l : list A) (j : nat) :
  map f l !! j = f <$> (l !! j).
Proof. apply (list_lookup_fmap f). Qed.

(** What converting an admitted gateway does to its status. *)
Definition gatewayUpdate (obj : config.Config) (kgw : k8s.GatewaySpec)
    (gs gs' : k8s.GatewayStatus) : Prop :=
  k8s.gst_Addresses gs' = [] /\
  (exists t1 t2,
     k8s.gst_Conditions gs' =
     ConditionallyUpdateCondition
       (ConditionallyUpdateCondition (k8s.gst_Conditions gs) (gatewayReady obj t1))
       (gatewayScheduled obj t2)) /\
  length (k8s.gst_Listeners gs') = length (k8s.gs_Listeners kgw) /\
  (forall j x, k8s.gs_Listeners kgw !! j = Some x ->
     exists li t,
       k8s.gst_Listeners (resetListeners kgw gs) !! j = Some li /\
       k8s.gst_Listeners gs' !! j = Some (listenerStatusOf obj x li t)).

Lemma gatewayUpdate_idem (obj : config.Config) (kgw : k8s.GatewaySpec)
    (gs gs' gs2 gs3 : k8s.GatewayStatus) :
  gatewayUpdate obj kgw gs gs' ->
  eraseStatus (config.GatewayStatus gs2) = eraseStatus (config.GatewayStatus gs') ->
  gatewayUpdate obj kgw gs2 gs3 ->
  eraseStatus (config.GatewayStatus gs3) = eraseStatus (config.GatewayStatus gs2).
Proof.
  intros (Ha & (t1 & t2 & Hc) & Hl & Hli) He (Ha3 & (u1 & u2 & Hc3) & Hl3 & Hli3).
  simpl in He. injection He as HeA HeC HeL.
  assert (length (k8s.gst_Listeners gs2) = length (k8s.gs_Listeners kgw)) as Hl2.
  { rewrite <- Hl. rewrite <- (length_map eraseListener (k8s.gst_Listeners gs2)), HeL.
    apply length_map. }
  simpl. f_equal. f_equal.
  - congruence.
  - rewrite Hc3.
    transitivity (map eraseCondition
      (ConditionallyUpdateCondition
         (ConditionallyUpdateCondition (k8s.gst_Conditions gs') (gatewayReady obj t1))
         (gatewayScheduled obj t2))).
    + apply ConditionallyUpdateCondition_erase; [|done].
      by apply ConditionallyUpdateCondition_erase.
    + rewrite HeC, Hc.
      by rewrite (ConditionallyUpdateCondition_pair (k8s.gst_Conditions gs)
                    (gatewayReady obj t1) (gatewayScheduled obj t2)).
  - apply list_eq. intros j. rewrite !map_lookup.
    destruct (k8s.gs_Listeners kgw !! j) as [x|] eqn:Hx.
    + destruct (Hli j x Hx) as (li & t & _ & Hj).
      destruct (Hli3 j x Hx) as (li2 & u & Hr2 & Hj3).
      unfold resetListeners in Hr2. simpl in Hr2.
      rewrite Hl2, Nat.eqb_refl in Hr2. simpl in Hr2.
      rewrite Hj3, Hr2. simpl. f_equal.
      assert (eraseListener li2 = eraseListener (listenerStatusOf obj x li t)) as Hli2.
      { assert (map eraseListener (k8s.gst_Listeners gs2) !! j =
                map eraseListener (k8s.gst_Listeners gs') !! j) as Hj2 by (by rewrite HeL).
        rewrite !map_lookup, Hr2, Hj in Hj2. simpl in Hj2. congruence. }
      rewrite Hli2. unfold eraseListener, listenerStatusOf. simpl. f_equal.
      assert (map eraseCondition (k8s.lst_Conditions li2) =
              map eraseCondition (ConditionallyUpdateCondition (k8s.lst_Conditions li)
                                    (readyCondition obj t))) as Hcs.
      { unfold eraseListener, listenerStatusOf in Hli2. simpl in Hli2. congruence. }
      transitivity (map eraseCondition
        (ConditionallyUpdateCondition
           (ConditionallyUpdateCondition (k8s.lst_Conditions li) (readyCondition obj t))
           (readyCondition obj t))).
      * by apply ConditionallyUpdateCondition_erase.
      * by rewrite ConditionallyUpdateCondition_idem.
    + apply lookup_ge_None in Hx.
      rewrite (proj2 (lookup_ge_None (k8s.gst_Listeners gs3) j)) by lia.
      by rewrite (proj2 (lookup_ge_None (k8s.gst_Listeners gs2) j)) by lia.
Qed.

Section SettlingGateways.

Variable env : Env.
Variable r : KubernetesResources.
Variable K : gmap config.loc StatusKind.

Lemma settles_convertOneGateway (classes : gset string) (acc : gatewayAcc)
    (obj : config.Config) :
  typedK K KGateway obj ->
  settles K (statusLoc obj) (convertOneGateway env r classes acc obj).
Proof.
  intros [Hspec (l & Hst & HK)].
  destruct (config.spec obj) as [|kgw| | | | | | | |] eqn:Hsp; try discriminate Hspec.
  destruct (decide (k8s.gs_GatewayClassName kgw ∈ classes)) as [Hin|Hout].
  2:{ apply (settles_ext K _ _ (ret acc)).
      - intros w. by apply (convertOneGateway_skipped env r classes acc obj kgw).
      - eapply settles_mono; [|apply settles_ret]. set_solver. }
  apply (settles_write_at K obj l KGateway _
           {| acc_result := acc_result acc ++ [gatewayConfigOf env r obj kgw];
              acc_routeToGateway :=
                foldl (listenerOwners env r obj) (acc_routeToGateway acc)
                      (k8s.gs_Listeners kgw) |}
           (fun s s' => exists gs gs',
              s = config.GatewayStatus gs /\ s' = config.GatewayStatus gs' /\
              gatewayUpdate obj kgw gs gs')); try done.
  - intros w s Hs Hk. destruct s as [|gs| | | |]; try discriminate Hk.
    destruct (convertOneGateway_admitted env r classes acc obj kgw l w gs Hsp Hin Hst Hs)
      as (gs' & Hrun & Hupd).
    eexists _, _. split; [exact Hrun|]. split; [reflexivity|]. by exists gs, gs'.
  - by intros s s' _ (gs & gs' & -> & -> & _).
  - intros s s' s2 s3 _ (gs & gs' & -> & -> & Hu) He (gs2 & gs3 & -> & -> & Hu3).
    by apply (gatewayUpdate_idem obj kgw gs gs').
Qed.

End SettlingGateways.

Lemma routeStatusOf_erase (obj : config.Config) (c1 c2 : nat -> Time) (t1 t2 : nat)
    (gateways : list string) :
  map eraseRouteGateway (routeStatusOf obj c1 t1 gateways) =
  map eraseRouteGateway (routeStatusOf obj c2 t2 gateways).
Proof.
  apply list_eq. intros j. rewrite !map_lookup. unfold routeStatusOf.
  rewrite !list_lookup_imap. by destruct (gateways !! j).
Qed.

(** A computation that replaces the status of a route by the entries of its
    owners. *)
Lemma settles_route {A} (K : gmap config.loc StatusKind) (obj : config.Config)
    (l : config.loc) (k : StatusKind) (wrap : k8s.RouteStatus -> config.Status)
    (m : M A) (a : A) (gateways : list string) :
  config.status obj = Some l ->
  K !! l = Some k ->
  (forall rs, statusKind (wrap rs) = k) ->
  (forall s, statusKind s = k -> exists rs, s = wrap rs) ->
  (forall rs, eraseStatus (wrap rs) = wrap (eraseRoute rs)) ->
  (forall w rs, statuses w !! l = Some (wrap rs) ->
     m w = Some (a, routeWritten w l wrap obj gateways)) ->
  settles K (statusLoc obj) m.
Proof.
  intros Hst HK Hwk Hkw Hwe Hrun.
  apply (settles_write_at K obj l k m a
           (fun _ s' => exists clk t,
              s' = wrap {| k8s.rs_Gateways := routeStatusOf obj clk t gateways |}));
    try done.
  - intros w s Hs Hk. destruct (Hkw s Hk) as (rs & ->).
    eexists _, _. split; [by apply (Hrun w rs)|]. split; [reflexivity|].
    by exists (clock w), (ticks w).
  - by intros s s' _ (clk & t & ->).
  - intros s s' s2 s3 _ (c1 & t1 & ->) He (c3 & t3 & ->).
    rewrite He, !Hwe. unfold eraseRoute. simpl. do 2 f_equal. apply routeStatusOf_erase.
Qed.

Section SettlingRoutes.

Variable env : Env.
Variable r : KubernetesResources.
Variable K : gmap config.loc StatusKind.
Variable routeMap : gmap RouteKey (list string).
Hypothesis routeMap_wf : ownersWf routeMap.

Definition tcpBody (result : list config.Config) (obj : config.Config)
    : M (list config.Config) :=
  match routeMap !! toRouteKey obj with
  | None => ret result
  | Some gateways =>
      let* vsConfig := buildTCPVirtualService env obj gateways (Domain r) in
      ret (result ++ [vsConfig])
  end.

Definition tlsBody (result : list config.Config) (obj : config.Config)
    : M (list config.Config) :=
  match routeMap !! toRouteKey obj with
  | None => ret result
  | Some gateways =>
      let* vsConfig := buildTLSVirtualService env obj gateways (Domain r) in
      ret (result ++ [vsConfig])
  end.

Definition httpBody (result : list config.Config) (obj : config.Config)
    : M (list config.Config) :=
  match routeMap !! toRouteKey obj with
  | None => ret result
  | Some gateways =>
      let* vs := buildHTTPVirtualServices env obj gateways (Domain r) in
      ret (result ++ vs)
  end.

Lemma convertVirtualService_bodies :
  convertVirtualService env r routeMap =
  let* result := foldM tcpBody [] (TCPRoute r) in
  let* result := foldM tlsBody result (TLSRoute r) in
  foldM httpBody result (HTTPRoute r).
Proof. reflexivity. Qed.

Lemma settles_skip {A} (L : gset config.loc) (a : A) : settles K L (ret a).
Proof. eapply settles_mono; [|apply settles_ret]. set_solver. Qed.

Lemma settles_tcpBody (result : list config.Config) (obj : config.Config) :
  typedK K KTCPRoute obj -> settles K (statusLoc obj) (tcpBody result obj).
Proof.
  intros [Hspec (l & Hst & HK)]. unfold tcpBody.
  destruct (routeMap !! toRouteKey obj) as [gateways|] eqn:Hg; [|apply settles_skip].
  destruct (config.spec obj) as [| | |route| | | | | |] eqn:Hsp; try discriminate Hspec.
  apply (settles_route K obj l KTCPRoute config.TCPRouteStatus _
           (result ++ [tcpVirtualService env obj route gateways (Domain r)]) gateways);
    try done.
  - intros s Hs. destruct s; try discriminate Hs. by eexists.
  - intros w rs Hw.
    erewrite bind_run
      by (apply (buildTCPVirtualService_run env obj route l rs); eauto using routeMap_wf).
    reflexivity.
Qed.

Lemma settles_tlsBody (result : list config.Config) (obj : config.Config) :
  typedK K KTLSRoute obj -> settles K (statusLoc obj) (tlsBody result obj).
Proof.
  intros [Hspec (l & Hst & HK)]. unfold tlsBody.
  destruct (routeMap !! toRouteKey obj) as [gateways|] eqn:Hg; [|apply settles_skip].
  destruct (config.spec obj) as [| | | |route| | | | |] eqn:Hsp; try discriminate Hspec.
  apply (settles_route K obj l KTLSRoute config.TLSRouteStatus _
           (result ++ [tlsVirtualService env obj route gateways (Domain r)]) gateways);
    try done.
  - intros s Hs. destruct s; try discriminate Hs. by eexists.
  - intros w rs Hw.
    erewrite bind_run
      by (apply (buildTLSVirtualService_run env obj route l rs); eauto using routeMap_wf).
    reflexivity.
Qed.

Lemma settles_httpBody (result : list config.Config) (obj : config.Config) :
  typedK K KHTTPRoute obj -> settles K (statusLoc obj) (httpBody result obj).
Proof.
  intros [Hspec (l & Hst & HK)]. unfold httpBody.
  destruct (routeMap !! toRouteKey obj) as [gateways|] eqn:Hg; [|apply settles_skip].
  destruct (config.spec obj) as [| |route| | | | | | |] eqn:Hsp; try discriminate Hspec.
  apply (settles_route K obj l KHTTPRoute config.HTTPRouteStatus _
           (result ++ [httpVirtualService env obj route gateways (Domain r)]) gateways);
    try done.
  - intros s Hs. destruct s; try discriminate Hs. by eexists.
  - intros w rs Hw.
    erewrite bind_run
      by (apply (buildHTTPVirtualServices_run env obj route l rs); eauto using routeMap_wf).
    reflexivity.
Qed.

End SettlingRoutes.

Lemma statusLocsOf_app (l1 l2 : list config.Config) :
  statusLocsOf (l1 ++ l2) = statusLocsOf l1 ∪ statusLocsOf l2.
Proof.
  apply set_eq. intros l.
  rewrite elem_of_union, !elem_of_statusLocsOf, omap_app, elem_of_app. tauto.
Qed.

Lemma statusLocsOf_NoDup_app (l1 l2 : list config.Config) :
  NoDup (omap config.status (l1 ++ l2)) ->
  NoDup (omap config.status l1) /\ NoDup (omap config.status l2) /\
  statusLocsOf l1 ## statusLocsOf l2.
Proof.
  rewrite omap_app. intros (H1 & H12 & H2)%NoDup_app. repeat split; try done.
  intros l Hl1 Hl2. apply elem_of_statusLocsOf in Hl1, Hl2. by apply (H12 l).
Qed.

Section SettlingAll.

Variable env : Env.
Variable r : KubernetesResources.
Variable w0 : World.
Hypothesis r_typed : wellTyped r w0.

(** The resources that carry a status, in the order of conversion. *)
Definition statusCarriers : list config.Config :=
  GatewayClass r ++ Gateway r ++ TCPRoute r ++ TLSRoute r ++ HTTPRoute r.

Hypothesis r_NoDup : NoDup (omap config.status statusCarriers).

Lemma statusCarriers_separate :
  (NoDup (omap config.status (GatewayClass r)) /\
   NoDup (omap config.status (Gateway r)) /\
   NoDup (omap config.status (TCPRoute r)) /\
   NoDup (omap config.status (TLSRoute r)) /\
   NoDup (omap config.status (HTTPRoute r))) /\
  statusLocsOf (GatewayClass r) ##
    statusLocsOf (Gateway r) ∪
    (statusLocsOf (TCPRoute r) ∪ (statusLocsOf (TLSRoute r) ∪ statusLocsOf (HTTPRoute r))) /\
  statusLocsOf (Gateway r) ##
    statusLocsOf (TCPRoute r) ∪ (statusLocsOf (TLSRoute r) ∪ statusLocsOf (HTTPRoute r)) /\
  statusLocsOf (TCPRoute r) ## statusLocsOf (TLSRoute r) ∪ statusLocsOf (HTTPRoute r) /\
  statusLocsOf (TLSRoute r) ## statusLocsOf (HTTPRoute r).
Proof.
  pose proof r_NoDup as H. unfold statusCarriers in H.
  apply statusLocsOf_NoDup_app in H as (H1 & H & D1).
  apply statusLocsOf_NoDup_app in H as (H2 & H & D2).
  apply statusLocsOf_NoDup_app in H as (H3 & H & D3).
  apply statusLocsOf_NoDup_app in H as (H4 & H5 & D4).
  repeat rewrite statusLocsOf_app in D1. repeat rewrite statusLocsOf_app in D2.
  rewrite statusLocsOf_app in D3.
  exact (conj (conj H1 (conj H2 (conj H3 (conj H4 H5))))
              (conj D1 (conj D2 (conj D3 D4)))).
Qed.

Lemma settles_getGatewayClasses :
  settles (kinds w0) (statusLocsOf (GatewayClass r)) (getGatewayClasses r).
Proof.
  rewrite getGatewayClasses_classBody. apply settles_foldM.
  - intros acc obj Hin. apply settles_classBody.
    by apply (proj1 (Forall_forall _ _) (wt_GatewayClass r w0 r_typed)).
  - apply statusCarriers_separate.
Qed.

Lemma settles_convertGateway :
  settles (kinds w0) (statusLocsOf (GatewayClass r) ∪ (statusLocsOf (Gateway r) ∪ ∅))
          (convertGateway env r).
Proof.
  unfold convertGateway. apply settles_bind.
  - apply settles_getGatewayClasses.
  - intros classes w w1 _ _. apply settles_bind.
    + apply settles_foldM.
      * intros acc obj Hin. apply settles_convertOneGateway.
        by apply (proj1 (Forall_forall _ _) (wt_Gateway r w0 r_typed)).
      * apply statusCarriers_separate.
    + intros acc w' w1' _ _. apply settles_ret.
    + apply disjoint_empty_r.
  - destruct statusCarriers_separate as (_ & D & _).
    intros l Hl Hl'. apply (D l Hl). revert Hl'.
    rewrite !elem_of_union, elem_of_empty. tauto.
Qed.

Lemma settles_convertVirtualService (routeMap : gmap RouteKey (list string)) :
  ownersWf routeMap ->
  settles (kinds w0)
    (statusLocsOf (TCPRoute r) ∪ (statusLocsOf (TLSRoute r) ∪ statusLocsOf (HTTPRoute r)))
    (convertVirtualService env r routeMap).
Proof.
  intros Hwf. rewrite convertVirtualService_bodies.
  destruct statusCarriers_separate as ((_ & _ & N3 & N4 & N5) & _ & _ & D3 & D4).
  apply settles_bind; [| |exact D3].
  - apply settles_foldM; [|done]. intros acc obj Hin. apply settles_tcpBody; [done|].
    by apply (proj1 (Forall_forall _ _) (wt_TCPRoute r w0 r_typed)).
  - intros res1 w w1 _ _. apply settles_bind; [| |exact D4].
    + apply settles_foldM; [|done]. intros acc obj Hin. apply settles_tlsBody; [done|].
      by apply (proj1 (Forall_forall _ _) (wt_TLSRoute r w0 r_typed)).
    + intros res2 w' w1' _ _.
      apply settles_foldM; [|done]. intros acc obj Hin. apply settles_httpBody; [done|].
      by apply (proj1 (Forall_forall _ _) (wt_HTTPRoute r w0 r_typed)).
Qed.

Lemma convertDestinationRule_pure :
  exists dr, forall w, convertDestinationRule env r w = Some (dr, w).
Proof.
  unfold convertDestinationRule. generalize (@nil config.Config).
  pose proof (wt_BackendPolicy r w0 r_typed) as H.
  induction H as [|obj objs [bp Hbp] _ IH]; intros acc.
  - by exists acc.
  - cbn [foldM]. rewrite Hbp.
    destruct (IH (acc ++ mjoin (imap (destinationRuleOf env r obj bp)
                                  (k8s.bp_BackendRefs bp)))) as (dr & Hdr).
    exists dr. intros w. erewrite bind_run by reflexivity. apply Hdr.
Qed.

Lemma settles_convertDestinationRule :
  settles (kinds w0) ∅ (convertDestinationRule env r).
Proof.
  destruct convertDestinationRule_pure as (dr & Hdr).
  apply (settles_ext _ _ _ (ret dr)); [exact Hdr | apply settles_ret].
Qed.

Lemma settles_convertResources :
  exists L, settles (kinds w0) L (convertResources env r).
Proof.
  eexists. unfold convertResources. apply settles_bind.
  - apply settles_convertGateway.
  - intros gateways w w1 Hk Hrun.
    destruct (convertGateway_run env r w) as (w' & Hrun' & _).
    { eapply Forall_typed_kinds; [exact Hk | apply r_typed]. }
    { eapply Forall_typed_kinds; [exact Hk | apply r_typed]. }
    rewrite Hrun' in Hrun. injection Hrun as <- _.
    apply settles_bind.
    + apply settles_convertVirtualService, ownersWf_routeOwners.
    + intros vs w2 w3 _ _. apply settles_bind.
      * apply settles_convertDestinationRule.
      * intros dr w4 w5 _ _. apply settles_ret.
      * apply disjoint_empty_r.
    + intros l _. rewrite elem_of_union, elem_of_empty. tauto.
  - destruct statusCarriers_separate as (_ & D1 & D2 & _).
    intros l Hl Hl'. revert Hl Hl'. rewrite !elem_of_union, !elem_of_empty.
    intros [Hl|[Hl|[]]] [Hl'|[[]|[]]].
    + apply (D1 l Hl). rewrite !elem_of_union. tauto.
    + apply (D2 l Hl). rewrite !elem_of_union. tauto.
Qed.

(** Run on the statuses that a first run has left, whatever the timestamps
    and the clock, the conversion returns the same resources and leaves every
    status as it was apart from timestamps. *)
Lemma convertResources_settled :
  exists out w1,
    convertResources env r w0 = Some (out, w1) /\
    forall v, sameStatuses v w1 ->
      exists v', convertResources env r v = Some (out, v') /\ sameStatuses v' v.
Proof.
  destruct settles_convertResources as (L & HL).
  destruct (HL w0 eq_refl) as (out & w1 & Hrun & _ & _ & Hre).
  exists out, w1. split; [done|]. intros v Hv. apply Hre. intros l _.
  unfold sameStatuses in Hv.
  assert ((eraseStatus <$> statuses v) !! l = (eraseStatus <$> statuses w1) !! l) as H
    by (by rewrite Hv).
  by rewrite !lookup_fmap in H.
Qed.

End SettlingAll.

(** C2: converting the same snapshot twice gives identical bundles and the
    same statuses apart from timestamps.  Two runs on the same snapshot,
    from statuses that agree apart from timestamps and with any two clocks,
    both panic or both return, with equal bundles and with final statuses
    that agree apart from timestamps.  When every resource has a status
    object of its kind and no two resources share one, the first run returns,
    and a run on the statuses it has left (with any timestamps and any clock)
    returns the same bundle and changes no status apart from timestamps. *)
Theorem conversion_reproducible (env : Env) (r : KubernetesResources) :
  (forall w1 w2, sameStatuses w1 w2 ->
     match convertResources env r w1, convertResources env r w2 with
     | Some (out1, w1'), Some (out2, w2') => out1 = out2 /\ sameStatuses w1' w2'
     | None, None => True
     | _, _ => False
     end) /\
  (forall w0, wellTyped r w0 -> NoDup (omap config.status (statusCarriers r)) ->
     exists out w1,
       convertResources env r w0 = Some (out, w1) /\
       forall v, sameStatuses v w1 ->
         exists v', convertResources env r v = Some (out, v') /\ sameStatuses v' v).
Proof.
  split.
  - exact (rel_convertResources env r).
  - intros w0 Hwt Hnd. by apply convertResources_settled.
Qed.

Lemma Example_typed (k : StatusKind) (obj : config.Config) (l : config.loc) :
  specKind (config.spec obj) = k ->
  config.status obj = Some l ->
  statusKind <$> (statuses Example.world !! l) = Some k ->
  typed Example.world k obj.
Proof.
  intros Hs Hl Hk. split; [done|]. exists l. split; [done|].
  unfold kinds. by rewrite lookup_fmap.
Qed.

Lemma Example_wellTyped : wellTyped Example.snapshot Example.world.
Proof.
  split.
  - apply Forall_cons_2; [|apply Forall_nil_2].
    apply (Example_typed _ _ 1%positive); vm_compute; reflexivity.
  - apply Forall_cons_2; [|apply Forall_nil_2].
    apply (Example_typed _ _ 2%positive); vm_compute; reflexivity.
  - apply Forall_cons_2; [|apply Forall_nil_2].
    apply (Example_typed _ _ 3%positive); vm_compute; reflexivity.
  - apply Forall_nil_2.
  - apply Forall_nil_2.
  - apply Forall_nil_2.
Qed.

Lemma conversion_reproducible_witness :
  exists out w1 w2,
    convertResources Example.env Example.snapshot Example.world = Some (out, w1) /\
    convertResources Example.env Example.snapshot w1 = Some (out, w2) /\
    sameStatuses w2 w1.
Proof.
  destruct (proj2 (conversion_reproducible Example.env Example.snapshot)
              Example.world Example_wellTyped) as (out & w1 & Hrun & Hre).
  { apply (bool_decide_unpack _). vm_compute. exact I. }
  destruct (Hre w1 (reflexivity w1)) as (w2 & Hrun2 & Hs).
  exists out, w1, w2. split; [exact Hrun|]. split; [exact Hrun2 | exact Hs].
Defined.

(** ** Concrete runs *)

Section ConcreteRuns.

Local Open Scope string_scope.

(** C3, counterexample: a rule that forwards to one service and to one
    backendRef gets two destinations, the second one with an empty host,
    where the claim expects the single destination of the service. *)
Lemma unsupported_target_kept :
  map istio.hrd_Destination
      (buildHTTPDestination Example.env
         [Example.toService "reviews" 1; Example.toBackendRef 1] "apps" "cluster.local")
  = [ {| istio.d_Host := "reviews.apps.svc.cluster.local";
         istio.d_Port := Some {| istio.Number := 80 |} |};
      {| istio.d_Host := ""; istio.d_Port := None |} ] /\
  length (buildHTTPDestination Example.env
            [Example.toService "reviews" 1; Example.toBackendRef 1] "apps" "cluster.local")
  = 2%nat /\
  length (List.filter (fun to => bool_decide (is_Some (k8s.hfw_ServiceName to)))
            [Example.toService "reviews" 1; Example.toBackendRef 1])
  = 1%nat.
Proof. split; [|split]; vm_compute; reflexivity. Qed.

Lemma forwarding_target_one_destination_witness :
  exists rd y,
    buildHTTPDestination Example.env
      [Example.toService "reviews" 1; Example.toBackendRef 1] "apps" "cluster.local"
      !! 1%nat = Some rd /\
    istio.hrd_Destination rd =
      buildDestination (Example.toBackendRef 1) "apps" "cluster.local" /\
    istio.d_Port (istio.hrd_Destination rd) =
      match k8s.hfw_Port (Example.toBackendRef 1) with
      | Some p => Some {| istio.Number := p mod 2 ^ 32 |}
      | None => None
      end /\
    standardizeWeights InsertionSorter.sorter
      (map k8s.hfw_Weight [Example.toService "reviews" 1; Example.toBackendRef 1])
      !! 1%nat = Some y /\
    istio.hrd_Weight rd = GoInt.wrap32 y /\
    (k8s.hfw_ServiceName (Example.toBackendRef 1) = None ->
     istio.d_Host (istio.hrd_Destination rd) = "").
Proof.
  apply (proj2 (proj1 (forwarding_target_one_destination Example.env)
                  [Example.toService "reviews" 1; Example.toBackendRef 1]
                  "apps" "cluster.local")).
  reflexivity.
Defined.

Lemma isRouteMatch_SameNamespace_witness :
  isRouteMatch Example.env
    (Example.httpRoute "reviews" "other" Example.sameNamespace 3%positive)
    (config.meta Example.gateway) Example.httpRoutes ∅ = false.
Proof.
  apply (isRouteMatch_SameNamespace Example.env _ _ _ _ Example.sameNamespace).
  - reflexivity.
  - reflexivity.
  - vm_compute. discriminate.
Defined.

(** C1, counterexample: the sum of two weights of 2^62 wraps around to
    -2^63; both shares come out as -50 and the result sums to -98. *)
Lemma standardizeWeights_overflow :
  standardizeWeights InsertionSorter.sorter [2 ^ 62; 2 ^ 62] = [-49; -49] /\
  Zsum (standardizeWeights InsertionSorter.sorter [2 ^ 62; 2 ^ 62]) = -98.
Proof. split; vm_compute; reflexivity. Qed.

Lemma standardizeWeights_sum_witness :
  length (standardizeWeights InsertionSorter.sorter [1; 3]) = length [1; 3] /\
  Zsum (standardizeWeights InsertionSorter.sorter [1; 3]) = 100.
Proof.
  apply (standardizeWeights_sum InsertionSorter.sorter [1; 3]).
  - simpl. lia.
  - repeat constructor; lia.
  - apply Exists_cons_hd. lia.
  - vm_compute. reflexivity.
Defined.

Lemma standardizeWeights_uniform_witness :
  length (standardizeWeights InsertionSorter.sorter [0; 0; 0]) = length [0; 0; 0] /\
  Zsum (standardizeWeights InsertionSorter.sorter [0; 0; 0]) = 100 /\
  Forall (fun x => x = 100 / Z.of_nat (length [0; 0; 0]) \/
                   x = 100 / Z.of_nat (length [0; 0; 0]) + 1)
         (standardizeWeights InsertionSorter.sorter [0; 0; 0]).
Proof.
  apply (standardizeWeights_uniform InsertionSorter.sorter [0; 0; 0]).
  - repeat constructor.
  - simpl. lia.
  - vm_compute. reflexivity.
Defined.

(** The examples of the specification, with the insertion sort of short
    slices. *)
Example standardizeWeights_four_zeros :
  standardizeWeights InsertionSorter.sorter [0; 0; 0; 0] = [25; 25; 25; 25].
Proof. vm_compute. reflexivity. Qed.

Example standardizeWeights_three_zeros :
  standardizeWeights InsertionSorter.sorter [0; 0; 0] = [34; 33; 33].
Proof. vm_compute. reflexivity. Qed.

Example standardizeWeights_one_three :
  standardizeWeights InsertionSorter.sorter [1; 3] = [25; 75].
Proof. vm_compute. reflexivity. Qed.


Lemma mesh_route_owned_witness :
  exists gws m w' os,
    convertGateway Example.env Example.meshSnapshot Example.world = Some ((gws, m), w') /\
    m !! toRouteKey (Example.httpRoute "reviews" "apps" Example.meshOnly 3%positive)
      = Some os /\
    "mesh" ∈ os.
Proof.
  eapply (mesh_route_owned Example.env Example.meshSnapshot Example.world
            (Example.httpRoute "reviews" "apps" Example.meshOnly 3%positive)).
  - apply Forall_nil_2.
  - apply Forall_nil_2.
  - apply list_elem_of_here.
  - reflexivity.
  - apply list_elem_of_here.
  - reflexivity.
Defined.

(** The gateway of the example has two listeners and a status with three
    entries. *)
Definition exampleGatewaySpec : k8s.GatewaySpec := {|
  k8s.gs_GatewayClassName := "istio";
  k8s.gs_Listeners := [Example.listener 80; Example.listener 8080]
|}.



(** The route of the example is selected by both listeners of its gateway:
    the gateway is listed twice. *)
Example owners_listed_twice :
  owners (routeOwners Example.env Example.snapshot)
         (toRouteKey (Example.httpRoute "reviews" "apps" Example.sameNamespace 3%positive))
  = ["apps/gateway-istio-autogenerated-k8s-gateway";
     "apps/gateway-istio-autogenerated-k8s-gateway"].
Proof. vm_compute. reflexivity. Qed.

End ConcreteRuns.

(** * Further properties of the conversion *)

(** ** The weight normalizer *)

Section WeightShares.

Variable sorter : GoSort.Sorter.

(** X1: [argsort] returns every index of its input exactly once, whatever
    the order that the sort produces. *)
Theorem argsort_indices (n : list Float64.float64) :
  argsort sorter n ≡ₚ seq 0 (length n) /\
  NoDup (argsort sorter n) /\
  (forall i, i ∈ argsort sorter n <-> (i < length n)%nat).
Proof.
  split; [apply (argsort_Permutation sorter n)|]. split.
  - rewrite (argsort_Permutation sorter n). apply NoDup_seq.
  - intros i. rewrite (argsort_Permutation sorter n), elem_of_seq. lia.
Qed.


(** X2: the result has as many entries as the input, for every input: the
    callers may index it by the positions of their forwarding targets. *)
Theorem standardizeWeights_same_length (ws : list Z) :
  length (standardizeWeights sorter ws) = length ws /\
  forall i, (i < length ws)%nat -> is_Some (standardizeWeights sorter ws !! i).
Proof.
  split; [apply standardizeWeights_length|].
  intros i Hi. apply lookup_lt_is_Some. by rewrite standardizeWeights_length.
Qed.

(** The run on weights in range: the integer parts of the shares, and one
    more for the first indices of [argsort]. *)
Lemma standardizeWeights_bumped (ws : list Z) :
  (2 <= length ws)%nat ->
  Forall (fun w => 0 <= w) ws ->
  Exists (fun w => 0 < w) ws ->
  Zsum ws < 2 ^ 63 ->
  let res := map (roundedOf (Zsum ws)) ws in
  let order := argsort sorter (map (remainderOf (Zsum ws)) ws) in
  let rem := 100 - Zsum res in
  0 <= rem <= 100 /\ rem <= Z.of_nat (length ws) /\
  Forall (fun k => 0 <= k <= 100) res /\
  standardizeWeights sorter ws = bump (take (Z.to_nat rem) order) res.
Proof.
  intros Hlen Hnn Hex Hsum res order rem.
  pose proof (Zsum_positive ws Hnn Hex) as Hpos.
  assert (intSum ws = Zsum ws) as Hint by (by apply intSum_exact).
  assert (divisorOf ws = Zsum ws) as Hdiv.
  { unfold divisorOf. rewrite Hint. destruct (Z.eqb_spec (Zsum ws) 0); [lia|done]. }
  assert (effectiveWeights ws = ws) as Heff.
  { unfold effectiveWeights. rewrite Hint. destruct (Z.eqb_spec (Zsum ws) 0); [lia|done]. }
  destruct (rounded_sum_bounds (Zsum ws) ws) as (Hres & Hup & Hlow); [lia| |].
  { apply Forall_forall. intros w Hw. by apply Zsum_member_le. }
  fold res in Hres, Hup, Hlow.
  assert (0 <= Zsum res) as Hs0.
  { apply Zsum_nonneg. eapply Forall_impl; [exact Hres|]. simpl. intros. lia. }
  assert (0 <= rem <= 100) as Hrem by (unfold rem; nia).
  assert (rem <= Z.of_nat (length ws)) as HremN by (unfold rem; nia).
  repeat split; try lia; try done.
  rewrite (run_bump sorter ws); rewrite ?Hdiv, ?Heff; try done. lia.
Qed.

Lemma bump_entry (ws : list Z) (i : nat) (y : Z) :
  (2 <= length ws)%nat ->
  Forall (fun w => 0 <= w) ws ->
  Exists (fun w => 0 < w) ws ->
  Zsum ws < 2 ^ 63 ->
  standardizeWeights sorter ws !! i = Some y ->
  exists w, ws !! i = Some w /\
            (y = roundedOf (Zsum ws) w \/ y = roundedOf (Zsum ws) w + 1).
Proof.
  intros Hlen Hnn Hex Hsum Hy.
  destruct (standardizeWeights_bumped ws Hlen Hnn Hex Hsum) as (Hrem & HremN & Hres & Heq).
  assert (i < length ws)%nat as Hi.
  { apply lookup_lt_Some in Hy. by rewrite standardizeWeights_length in Hy. }
  destruct (lookup_lt_is_Some_2 ws i Hi) as [w Hw]. exists w. split; [done|].
  rewrite Heq in Hy.
  erewrite (bump_lookup _ _ 100 i (roundedOf (Zsum ws) w)) in Hy; try done.
  - injection Hy as <-. destruct (bool_decide _); [by right | by left].
  - eapply sublist_NoDup; first [apply sublist_take | apply argsort_NoDup].
  - rewrite length_take. lia.
  - by rewrite list_lookup_fmap, Hw.
Qed.

(** X3: for at least two non-negative weights, one of them positive, with a
    sum below 2^63, every normalized weight lies between 0 and 100. *)
Theorem standardizeWeights_range (ws : list Z) :
  (2 <= length ws)%nat ->
  Forall (fun w => 0 <= w) ws ->
  Exists (fun w => 0 < w) ws ->
  Zsum ws < 2 ^ 63 ->
  Forall (fun y => 0 <= y <= 100) (standardizeWeights sorter ws).
Proof.
  intros Hlen Hnn Hex Hsum.
  destruct (standardizeWeights_bumped ws Hlen Hnn Hex Hsum) as (Hrem & HremN & Hres & Heq).
  assert (Forall (fun y => 0 <= y) (standardizeWeights sorter ws)) as Hnn'.
  { apply Forall_lookup. intros i y Hy.
    destruct (bump_entry ws i y Hlen Hnn Hex Hsum Hy) as (w & Hw & Hyw).
    assert (0 <= roundedOf (Zsum ws) w); [|lia].
    eapply (Forall_lookup_1 (fun k => 0 <= k <= 100)); [exact Hres|].
    by rewrite list_lookup_fmap, Hw. }
  assert (Zsum (standardizeWeights sorter ws) = 100) as H100.
  { rewrite Heq. rewrite (bump_sum _ _ 100).
    - rewrite length_take, argsort_length, !length_map. lia.
    - apply argsort_take_bound. by rewrite !length_map.
    - done.
    - rewrite length_take. lia. }
  apply Forall_forall. intros y Hy.
  pose proof (Zsum_member_le _ y Hnn' Hy). lia.
Qed.

(** X4: under the same conditions the normalized weight of an entry stays
    next to its exact share: with q the integer part of 100*w/total, it is
    at least q-1 and at most q+2; it is the integer part that binary64
    arithmetic gives for the share, or one more. *)
Theorem standardizeWeights_proportional (ws : list Z) (i : nat) (w y : Z) :
  (2 <= length ws)%nat ->
  Forall (fun w => 0 <= w) ws ->
  Exists (fun w => 0 < w) ws ->
  Zsum ws < 2 ^ 63 ->
  ws !! i = Some w ->
  standardizeWeights sorter ws !! i = Some y ->
  (y = roundedOf (Zsum ws) w \/ y = roundedOf (Zsum ws) w + 1) /\
  100 * w / Zsum ws - 1 <= y <= 100 * w / Zsum ws + 2.
Proof.
  intros Hlen Hnn Hex Hsum Hw Hy.
  destruct (bump_entry ws i y Hlen Hnn Hex Hsum Hy) as (w' & Hw' & Hyw).
  assert (w' = w) as -> by congruence. split; [done|].
  pose proof (Zsum_positive ws Hnn Hex) as Hpos.
  assert (0 <= w <= Zsum ws) as Hwb.
  { apply Zsum_member_le; [done|]. by apply list_elem_of_lookup_2 in Hw. }
  destruct (Shares.roundedOf_bounds (Zsum ws) w Hwb ltac:(lia)) as (Hk0 & Hk1 & Hk2).
  set (T := Zsum ws) in *. set (k := roundedOf T w) in *. set (q := 100 * w / T).
  assert (q * T <= 100 * w < (q + 1) * T) as Hq.
  { unfold q. pose proof (Z.mul_div_le (100 * w) T Hpos).
    pose proof (Z.mul_succ_div_gt (100 * w) T Hpos). lia. }
  assert (0 <= q <= 100) as Hq100.
  { split; [apply Z.div_pos; lia|]. apply Z.div_le_upper_bound; lia. }
  assert (k <= q + 1) as Hup by nia.
  assert (q - 1 <= k) as Hlow by nia.
  lia.
Qed.

End WeightShares.

(** ** Destinations and their weights *)

Section DestinationWeights.

Variable env : Env.

Lemma imap_total_lookup {A B} (f : nat -> A -> Z -> B) (l : list A) (ws : list Z) :
  length ws = length l ->
  forall i x, l !! i = Some x ->
    imap (fun i x => f i x (ws !!! i)) l !! i =
    (fun y => f i x y) <$> (ws !! i).
Proof.
  intros Hlen i x Hx. rewrite list_lookup_imap, Hx. simpl.
  destruct (lookup_lt_is_Some_2 ws i) as [y Hy].
  { rewrite Hlen. by apply lookup_lt_Some in Hx. }
  by rewrite (list_lookup_total_correct _ _ _ Hy), Hy.
Qed.

Lemma Zsum_int32 (ws : list Z) :
  Forall (fun w => 0 <= w < 2 ^ 31) ws -> Zsum ws <= (2 ^ 31 - 1) * Z.of_nat (length ws).
Proof. induction 1 as [|w ws Hw _ IH]; simpl Zsum; simpl length; lia. Qed.

Lemma weights_in_range (ws : list Z) :
  (2 <= length ws)%nat -> Z.of_nat (length ws) < 2 ^ 32 ->
  Forall (fun w => 0 <= w < 2 ^ 31) ws ->
  Exists (fun w => 0 < w) ws ->
  map GoInt.wrap32 (standardizeWeights (env_sorter env) ws) =
    standardizeWeights (env_sorter env) ws /\
  Zsum (standardizeWeights (env_sorter env) ws) = 100 /\
  Forall (fun y => 0 <= y <= 100) (standardizeWeights (env_sorter env) ws).
Proof.
  intros Hlen Hlen32 Hws Hex.
  assert (Forall (fun w => 0 <= w) ws) as Hnn
    by (eapply Forall_impl; [exact Hws|]; simpl; intros; lia).
  assert (Zsum ws < 2 ^ 63) as Hsum.
  { pose proof (Zsum_int32 ws Hws). nia. }
  pose proof (standardizeWeights_range (env_sorter env) ws ltac:(lia) Hnn Hex Hsum) as Hr.
  destruct (standardizeWeights_bumped (env_sorter env) ws ltac:(lia) Hnn Hex Hsum)
    as (Hrem & HremN & Hres & Heq).
  split; [|split; [|done]].
  - rewrite <- (map_id (standardizeWeights (env_sorter env) ws)) at 2.
    apply map_ext_Forall. eapply Forall_impl; [exact Hr|]. simpl.
    intros y Hy. apply wrap32_id. lia.
  - rewrite Heq. rewrite (bump_sum _ _ 100).
    + rewrite length_take, argsort_length, !length_map. lia.
    + apply argsort_take_bound. by rewrite !length_map.
    + done.
    + rewrite length_take. lia.
Qed.

Lemma buildHTTPDestination_weights_eq (action : list k8s.HTTPRouteForwardTo)
    (ns domain : string) :
  map istio.hrd_Weight (buildHTTPDestination env action ns domain) =
  map GoInt.wrap32 (standardizeWeights (env_sorter env) (map k8s.hfw_Weight action)).
Proof.
  apply list_eq. intros i. unfold buildHTTPDestination. rewrite !map_lookup.
  destruct (action !! i) as [x|] eqn:Hx.
  - rewrite (imap_total_lookup
               (fun i fwd y => {|
                  istio.hrd_Destination := buildDestination fwd ns domain;
                  istio.hrd_Weight := GoInt.wrap32 y;
                  istio.hrd_Headers := headersOfFilters (k8s.hfw_Filters fwd) |})
               action _ ltac:(by rewrite standardizeWeights_length, length_map) i x Hx).
    by destruct (standardizeWeights _ _ !! i).
  - rewrite list_lookup_imap, Hx. simpl.
    rewrite (proj2 (lookup_ge_None _ i)); [done|].
    rewrite standardizeWeights_length, length_map. by apply lookup_ge_None.
Qed.

Lemma buildTCPDestination_weights_eq (action : list k8s.RouteForwardTo)
    (ns domain : string) :
  action <> [] ->
  map istio.rd_Weight (buildTCPDestination env action ns domain) =
  map GoInt.wrap32 (standardizeWeights (env_sorter env) (map k8s.fw_Weight action)).
Proof.
  intros Hne. apply list_eq. intros i. unfold buildTCPDestination.
  destruct action as [|a action']; [done|]. cbn [length Nat.eqb].
  set (action := a :: action') in *. rewrite !map_lookup.
  assert (length (standardizeWeights (env_sorter env) (map k8s.fw_Weight action)) =
          length action) as Hlen by (by rewrite standardizeWeights_length, length_map).
  destruct (action !! i) as [x|] eqn:Hx.
  - rewrite (imap_total_lookup
               (fun i fwd y => {|
                  istio.rd_Destination := buildGenericDestination fwd ns domain;
                  istio.rd_Weight := GoInt.wrap32 y |})
               action _ Hlen i x Hx).
    by destruct (standardizeWeights _ _ !! i).
  - rewrite list_lookup_imap, Hx.
    rewrite (proj2 (lookup_ge_None _ i)) by (rewrite Hlen; by apply lookup_ge_None).
    done.
Qed.

(** X5: a rule of an HTTP route with at least two forwarding targets, whose
    weights are non-negative 32-bit integers, one of them positive, gets one
    destination per target, with weights between 0 and 100 that sum to 100. *)
Theorem buildHTTPDestination_weights (action : list k8s.HTTPRouteForwardTo)
    (ns domain : string) :
  (2 <= length action)%nat -> Z.of_nat (length action) < 2 ^ 32 ->
  Forall (fun to => 0 <= k8s.hfw_Weight to < 2 ^ 31) action ->
  Exists (fun to => 0 < k8s.hfw_Weight to) action ->
  let dests := buildHTTPDestination env action ns domain in
  length dests = length action /\
  Zsum (map istio.hrd_Weight dests) = 100 /\
  Forall (fun d => 0 <= istio.hrd_Weight d <= 100) dests.
Proof.
  intros Hlen Hlen32 Hws Hex dests.
  destruct (weights_in_range (map k8s.hfw_Weight action)) as (Hw & Hs & Hr).
  { by rewrite length_map. }
  { by rewrite length_map. }
  { by apply Forall_fmap. }
  { apply Exists_exists in Hex as (to & Hto & Hpos). apply Exists_exists.
    exists (k8s.hfw_Weight to). split; [|done]. by apply list_elem_of_fmap_2. }
  unfold dests. split; [|split].
  - unfold buildHTTPDestination. by rewrite length_imap.
  - by rewrite buildHTTPDestination_weights_eq, Hw.
  - assert (Forall (fun y => 0 <= y <= 100)
              (map istio.hrd_Weight (buildHTTPDestination env action ns domain))) as H
      by (by rewrite buildHTTPDestination_weights_eq, Hw).
    by apply (Forall_fmap istio.hrd_Weight) in H.
Qed.

(** X6: the same for a rule of a TCP or TLS route; a rule without any
    forwarding target gets no destination. *)
Theorem buildTCPDestination_weights (action : list k8s.RouteForwardTo)
    (ns domain : string) :
  buildTCPDestination env [] ns domain = [] /\
  ((2 <= length action)%nat -> Z.of_nat (length action) < 2 ^ 32 ->
   Forall (fun to => 0 <= k8s.fw_Weight to < 2 ^ 31) action ->
   Exists (fun to => 0 < k8s.fw_Weight to) action ->
   length (buildTCPDestination env action ns domain) = length action /\
   Zsum (map istio.rd_Weight (buildTCPDestination env action ns domain)) = 100 /\
   Forall (fun d => 0 <= istio.rd_Weight d <= 100)
          (buildTCPDestination env action ns domain)).
Proof.
  split; [reflexivity|]. intros Hlen Hlen32 Hws Hex.
  assert (action <> []) as Hne by (destruct action; simpl in Hlen; [lia|done]).
  destruct (weights_in_range (map k8s.fw_Weight action)) as (Hw & Hs & Hr).
  { by rewrite length_map. }
  { by rewrite length_map. }
  { by apply Forall_fmap. }
  { apply Exists_exists in Hex as (to & Hto & Hpos). apply Exists_exists.
    exists (k8s.fw_Weight to). split; [|done]. by apply list_elem_of_fmap_2. }
  split; [|split].
  - unfold buildTCPDestination. destruct action as [|a action']; [done|].
    change (length (a :: action') =? 0)%nat with false. cbv iota.
    by rewrite length_imap.
  - by rewrite buildTCPDestination_weights_eq, Hw.
  - assert (Forall (fun y => 0 <= y <= 100)
              (map istio.rd_Weight (buildTCPDestination env action ns domain))) as H
      by (by rewrite buildTCPDestination_weights_eq, Hw).
    by apply (Forall_fmap istio.rd_Weight) in H.
Qed.

End DestinationWeights.

(** ** Binding of routes to gateways *)

Section BindingRules.

Variable env : Env.

Local Open Scope string_scope.

(** The group that a listener selects, with the default of the API. *)
Definition selectedGroup (routes : k8s.RouteBindingSelector) : string :=
  if k8s.rbs_Group routes =? "" then "networking.x-k8s.io" else k8s.rbs_Group routes.

Local Ltac split_match H :=
  repeat match type of H with
         | (if negb ?b then _ else _) = true =>
             let E := fresh "E" in destruct b eqn:E; cbn [negb] in H; try discriminate H
         | (if ?b then _ else _) = true =>
             let E := fresh "E" in destruct b eqn:E; try discriminate H
         | match ?o with Some _ => _ | None => _ end = true =>
             let E := fresh "E" in destruct o eqn:E; try discriminate H
         end.

(** X7: a route is matched only if its kind is the kind that the listener
    selects, its group is the selected group (networking.x-k8s.io when the
    listener names none), and the label selector of the listener can be
    built and accepts the labels of the route. *)
Theorem isRouteMatch_needs (cfg : config.Config) (gateway : config.Meta)
    (routes : k8s.RouteBindingSelector) (namespaces : gmap string corev1.Namespace) :
  isRouteMatch env cfg gateway routes namespaces = true ->
  k8s.rbs_Kind routes = config.Kind (config.GVK (config.meta cfg)) /\
  selectedGroup routes = config.Group (config.GVK (config.meta cfg)) /\
  exists ls, env_LabelSelectorAsSelector env (k8s.rbs_Selector routes) = Some ls /\
             ls (config.Labels (config.meta cfg)) = true.
Proof.
  unfold isRouteMatch. fold (selectedGroup routes). intros H.
  destruct (k8s.rbs_Kind routes =? config.Kind (config.GVK (config.meta cfg))) eqn:Ek;
    [|discriminate H].
  destruct (selectedGroup routes =? config.Group (config.GVK (config.meta cfg))) eqn:Eg;
    [|discriminate H].
  cbn [negb] in H.
  destruct (env_LabelSelectorAsSelector env (k8s.rbs_Selector routes)) as [ls|] eqn:Els;
    [|discriminate H].
  destruct (ls (config.Labels (config.meta cfg))) eqn:El; [|discriminate H].
  apply String.eqb_eq in Ek, Eg. repeat split; try done. by exists ls.
Qed.

(** X8: a route that allows gateways "FromList" is matched only by a gateway
    whose name and namespace are both in one entry of its list. *)
Theorem isRouteMatch_FromList (cfg : config.Config) (gateway : config.Meta)
    (routes : k8s.RouteBindingSelector) (namespaces : gmap string corev1.Namespace)
    (sel : k8s.RouteGateways) :
  getGatewaySelectorFromSpec (config.spec cfg) = Some sel ->
  k8s.rg_Allow sel = "FromList" ->
  isRouteMatch env cfg gateway routes namespaces = true ->
  exists ref, ref ∈ k8s.rg_GatewayRefs sel /\
              k8s.gr_Name ref = config.Name gateway /\
              k8s.gr_Namespace ref = config.Namespace gateway.
Proof.
  intros Hsel Hallow Hm. apply isRouteMatch_gatewayAllows in Hm.
  unfold gatewayAllows in Hm. rewrite Hsel, Hallow in Hm. cbn [String.eqb] in Hm.
  change ("FromList" =? k8s.GatewayAllowAll) with false in Hm.
  change ("FromList" =? k8s.GatewayAllowFromList) with true in Hm. cbv iota in Hm.
  apply existsb_exists in Hm as (ref & Hin & Href).
  apply andb_true_iff in Href as [Hn Hns]. apply String.eqb_eq in Hn, Hns.
  exists ref. split; [by apply list_elem_of_In|done].
Qed.

(** X9: a listener that selects routes from the "Same" namespace, or names
    no namespace policy at all, never matches a route of another namespace
    than the gateway's. *)
Theorem isRouteMatch_Same (cfg : config.Config) (gateway : config.Meta)
    (routes : k8s.RouteBindingSelector) (namespaces : gmap string corev1.Namespace) :
  k8s.rn_From (k8s.rbs_Namespaces routes) = "" \/
  k8s.rn_From (k8s.rbs_Namespaces routes) = "Same" ->
  config.Namespace gateway <> config.Namespace (config.meta cfg) ->
  isRouteMatch env cfg gateway routes namespaces = false.
Proof.
  intros Hfrom Hns. apply String.eqb_neq in Hns.
  destruct (isRouteMatch env cfg gateway routes namespaces) eqn:Hm; [|reflexivity].
  unfold isRouteMatch in Hm.
  assert ((if k8s.rn_From (k8s.rbs_Namespaces routes) =? ""
           then k8s.RouteSelectSame
           else k8s.rn_From (k8s.rbs_Namespaces routes)) = "Same") as Hf
    by (destruct Hfrom as [-> | ->]; reflexivity).
  cbv zeta in Hm. rewrite Hf in Hm.
  change ("Same" =? k8s.RouteSelectAll) with false in Hm.
  change ("Same" =? k8s.RouteSelectSame) with true in Hm.
  rewrite Hns in Hm. cbn [negb] in Hm.
  split_match Hm.
Qed.

(** X10: a listener that selects the namespaces of its routes by labels
    never matches a route whose namespace is missing from the snapshot. *)
Theorem isRouteMatch_unknown_namespace (cfg : config.Config) (gateway : config.Meta)
    (routes : k8s.RouteBindingSelector) (namespaces : gmap string corev1.Namespace) :
  k8s.rn_From (k8s.rbs_Namespaces routes) = "Selector" ->
  namespaces !! config.Namespace (config.meta cfg) = None ->
  isRouteMatch env cfg gateway routes namespaces = false.
Proof.
  intros Hfrom Hns.
  destruct (isRouteMatch env cfg gateway routes namespaces) eqn:Hm; [|reflexivity].
  unfold isRouteMatch in Hm. cbv zeta in Hm. rewrite Hfrom, Hns in Hm.
  change ("Selector" =? "") with false in Hm. cbv iota in Hm.
  change ("Selector" =? k8s.RouteSelectAll) with false in Hm.
  change ("Selector" =? k8s.RouteSelectSame) with false in Hm.
  change ("Selector" =? k8s.RouteSelectSelector) with true in Hm.
  split_match Hm.
Qed.

(** X11: when the kind, the group and the labels of a route pass, a listener
    open to "All" namespaces matches every route that allows "All" gateways,
    wherever the route and the gateway live. *)
Theorem isRouteMatch_All (cfg : config.Config) (gateway : config.Meta)
    (routes : k8s.RouteBindingSelector) (namespaces : gmap string corev1.Namespace)
    (sel : k8s.RouteGateways) (ls : metav1.Selector) :
  k8s.rbs_Kind routes = config.Kind (config.GVK (config.meta cfg)) ->
  selectedGroup routes = config.Group (config.GVK (config.meta cfg)) ->
  env_LabelSelectorAsSelector env (k8s.rbs_Selector routes) = Some ls ->
  ls (config.Labels (config.meta cfg)) = true ->
  k8s.rn_From (k8s.rbs_Namespaces routes) = "All" ->
  getGatewaySelectorFromSpec (config.spec cfg) = Some sel ->
  k8s.rg_Allow sel = "All" ->
  isRouteMatch env cfg gateway routes namespaces = true.
Proof.
  intros Hk Hg Hls Hl Hfrom Hsel Hallow. unfold isRouteMatch.
  fold (selectedGroup routes). rewrite Hk, Hg, !String.eqb_refl. cbn [negb].
  cbv zeta. rewrite Hls, Hl, Hfrom. cbn [negb].
  change ("All" =? "") with false. cbv iota.
  change ("All" =? k8s.RouteSelectAll) with true. cbv iota.
  unfold gatewayAllows. rewrite Hsel, Hallow. reflexivity.
Qed.

(** X12: the keys that [fetchMeshRoutes] returns are the keys of the HTTP
    routes of the snapshot with a gateway reference named "mesh", whatever
    the namespace of the reference; TCP and TLS routes are not looked at. *)
Theorem fetchMeshRoutes_keys (r : KubernetesResources) (k : RouteKey) :
  k ∈ fetchMeshRoutes r <->
  exists hr sel ref,
    hr ∈ HTTPRoute r /\
    getGatewaySelectorFromSpec (config.spec hr) = Some sel /\
    ref ∈ k8s.rg_GatewayRefs sel /\
    k8s.gr_Name ref = "mesh" /\
    k = toRouteKey hr.
Proof.
  unfold fetchMeshRoutes. rewrite list_elem_of_In, in_flat_map. split.
  - intros (hr & Hhr & Hk).
    destruct (getGatewaySelectorFromSpec (config.spec hr)) as [sel|] eqn:Hsel; [|done].
    apply in_flat_map in Hk as (ref & Href & Hk).
    destruct (k8s.gr_Name ref =? experimentalMeshGatewayName) eqn:Hn; [|done].
    apply String.eqb_eq in Hn. destruct Hk as [<-|[]].
    exists hr, sel, ref. by rewrite <- !list_elem_of_In in *.
  - intros (hr & sel & ref & Hhr & Hsel & Href & Hn & ->).
    exists hr. split; [by apply list_elem_of_In|]. rewrite Hsel.
    apply in_flat_map. exists ref. split; [by apply list_elem_of_In|].
    rewrite Hn. by left.
Qed.

End BindingRules.

(** ** Matchers, headers and TLS settings *)

Section Matchers.

Variable env : Env.

Local Open Scope string_scope.

Lemma substring_all (s : string) : String.substring 0 (String.length s) s = s.
Proof. induction s as [|c s IH]; simpl; [done|]. by rewrite IH. Qed.

Lemma substring_app_l (p q : string) :
  String.substring 0 (String.length p) (String.append p q) = p.
Proof.
  induction p as [|c p IH]; simpl.
  - by destruct q.
  - by rewrite IH.
Qed.

Lemma substring_app_r (p q : string) :
  String.substring (String.length p) (String.length q) (String.append p q) = q.
Proof. induction p as [|c p IH]; simpl; [apply substring_all | exact IH]. Qed.

Lemma length_app_string (p q : string) :
  String.length (String.append p q) = (String.length p + String.length q)%nat.
Proof. induction p as [|c p IH]; simpl; [done|]. by rewrite IH. Qed.

Lemma TrimSuffix_app (p suffix : string) : TrimSuffix (String.append p suffix) suffix = p.
Proof.
  unfold TrimSuffix. rewrite length_app_string.
  replace (String.length p + String.length suffix - String.length suffix)%nat
    with (String.length p) by lia.
  rewrite substring_app_r, substring_app_l, String.eqb_refl.
  by rewrite (proj2 (Nat.leb_le _ _)) by lia.
Qed.

(** X13: for a path match of type "Prefix" (or "ImplementationSpecific", or
    of no type), one slash at the end of the path is dropped before the path
    is quoted: the paths [p ++ "/"] and [p] give the same regular
    expression whenever [p] does not itself lose a slash. *)
Theorem createURIMatch_trailing_slash (ty p : string)
    (headers : option k8s.HTTPHeaderMatch) :
  ty = "" \/ ty = "ImplementationSpecific" \/ ty = "Prefix" ->
  createURIMatch env {| k8s.m_Path := {| k8s.pm_Type := ty; k8s.pm_Value := p ++ "/" |};
                        k8s.m_Headers := headers |} =
    Some (istio.StringMatch_Regex (env_QuoteMeta env p ++ "((\/).*)?")) /\
  (TrimSuffix p "/" = p ->
   createURIMatch env {| k8s.m_Path := {| k8s.pm_Type := ty; k8s.pm_Value := p |};
                         k8s.m_Headers := headers |} =
   createURIMatch env {| k8s.m_Path := {| k8s.pm_Type := ty; k8s.pm_Value := p ++ "/" |};
                         k8s.m_Headers := headers |}).
Proof.
  intros Hty. unfold createURIMatch. cbn [k8s.m_Path k8s.pm_Type k8s.pm_Value].
  assert ((ty =? "") || (ty =? k8s.PathMatchImplementationSpecific) ||
          (ty =? k8s.PathMatchPrefix) = true) as ->.
  { destruct Hty as [-> | [-> | ->]]; reflexivity. }
  change (p ++ "/") with (String.append p "/"). rewrite TrimSuffix_app.
  split; [reflexivity|]. by intros ->.
Qed.

(** The last header modifier among the filters of a rule. *)
Definition lastModifier (filters : list k8s.HTTPRouteFilter)
    : option k8s.HTTPRouteFilter :=
  last (List.filter (fun f => k8s.f_Type f =? k8s.HTTPRouteFilterRequestHeaderModifier)
                    filters).

(** X14: of the filters of a rule or of a forwarding target only the last
    one of type "RequestHeaderModifier" takes effect: the headers are those
    of that filter, and there are none when it carries no modifier or when
    no filter has that type. *)
Theorem headersOfFilters_last (filters : list k8s.HTTPRouteFilter) :
  headersOfFilters filters =
  match lastModifier filters with
  | Some f => createHeadersFilter (k8s.f_RequestHeaderModifier f)
  | None => None
  end.
Proof.
  unfold headersOfFilters, lastModifier.
  induction filters as [|f filters IH] using rev_ind; [reflexivity|].
  rewrite foldl_app, List.filter_app. cbn [foldl List.filter].
  destruct (k8s.f_Type f =? k8s.HTTPRouteFilterRequestHeaderModifier).
  - by rewrite last_snoc.
  - by rewrite app_nil_r.
Qed.

(** X15: the TLS settings of a listener carry a credential only in mode
    SIMPLE, and then it is the name of the certificate reference of the
    listener, which is of group and kind Secret (or names none); a listener
    that terminates TLS without a certificate reference gets no TLS settings
    at all. *)
Theorem buildTLS_credential (tls : option k8s.GatewayTLSConfig) :
  (forall out, buildTLS env tls = Some out ->
     istio.stls_CredentialName out <> "" ->
     istio.stls_Mode out = istio.ServerTLSSettings_SIMPLE /\
     exists t ref,
       tls = Some t /\ k8s.gtls_CertificateRef t = Some ref /\
       istio.stls_CredentialName out = k8s.lor_Name ref /\
       emptyOrEqual (k8s.lor_Group ref) (env_CanonicalGroup env (env_gvk_Secret env)) = true /\
       emptyOrEqual (k8s.lor_Kind ref) (config.Kind (env_gvk_Secret env)) = true) /\
  (forall t, tls = Some t ->
     k8s.gtls_Mode t = "" \/ k8s.gtls_Mode t = "Terminate" ->
     k8s.gtls_CertificateRef t = None ->
     buildTLS env tls = None).
Proof.
  split.
  - intros out Hout Hcred. unfold buildTLS in Hout.
    destruct tls as [t|]; [|discriminate].
    destruct ((k8s.gtls_Mode t =? "") || (k8s.gtls_Mode t =? k8s.TLSModeTerminate)).
    + destruct (k8s.gtls_CertificateRef t) as [ref|] eqn:Href; [|discriminate].
      injection Hout as <-. cbn in *. split; [done|]. exists t, ref.
      unfold buildSecretReference in *.
      destruct (emptyOrEqual (k8s.lor_Group ref) _), (emptyOrEqual (k8s.lor_Kind ref) _);
        cbn in *; done.
    + injection Hout as <-. done.
  - intros t -> Hmode Hcert. unfold buildTLS. rewrite Hcert.
    by destruct Hmode as [-> | ->].
Qed.

(** X16: a rule of a TLS route always gets at least one match: the match of
    every server name when it lists none, otherwise one match per listed
    entry, with its server names. *)
Theorem buildTLSMatch_nonempty (matches : list k8s.TLSRouteMatch) :
  buildTLSMatch matches <> [] /\
  buildTLSMatch [] = [ {| istio.tm_SniHosts := ["*"] |} ] /\
  (matches <> [] ->
   map istio.tm_SniHosts (buildTLSMatch matches) = map k8s.lm_SNIs matches).
Proof.
  split; [|split].
  - by destruct matches.
  - reflexivity.
  - intros Hne. destruct matches as [|m matches]; [done|].
    unfold buildTLSMatch. cbn [length Nat.eqb]. by rewrite map_map.
Qed.

End Matchers.

(** ** Destination rules *)

Section DestinationRules.

Variable env : Env.
Variable r : KubernetesResources.

(** The test of [convertDestinationRule] on a backend reference: it names a
    Service, by a group and a kind that are empty or those of Service. *)
Definition supportedRef (ref : k8s.BackendRef) : bool :=
  emptyOrEqual (k8s.br_Group ref) (env_CanonicalGroup env (env_gvk_Service env)) &&
  emptyOrEqual (k8s.br_Kind ref) (config.Kind (env_gvk_Service env)).

(** The destination rules of one backend policy. *)
Definition destinationRulesOf (obj : config.Config) : list config.Config :=
  match config.spec obj with
  | config.BackendPolicySpec bp =>
      mjoin (imap (destinationRuleOf env r obj bp) (k8s.bp_BackendRefs bp))
  | _ => []
  end.

Lemma convertDestinationRule_from (objs : list config.Config) :
  forall (acc : list config.Config) (w : World),
  Forall isBackendPolicy objs ->
  foldM (fun result obj =>
    match config.spec obj with
    | config.BackendPolicySpec bp =>
        ret (result ++ mjoin (imap (destinationRuleOf env r obj bp)
                                   (k8s.bp_BackendRefs bp)))
    | _ => panic
    end) acc objs w = Some (acc ++ flat_map destinationRulesOf objs, w).
Proof.
  induction objs as [|obj objs IH]; intros acc w Hall.
  - simpl. unfold ret. by rewrite app_nil_r.
  - inversion Hall as [|? ? [bp Hbp] Hrest]; subst. cbn [foldM flat_map].
    unfold destinationRulesOf at 1. rewrite Hbp.
    erewrite bind_run by reflexivity. rewrite IH by done. by rewrite <- app_assoc.
Qed.

Lemma convertDestinationRule_panic (objs : list config.Config) :
  forall (acc : list config.Config) (w : World),
  Exists (fun obj => ~ isBackendPolicy obj) objs ->
  foldM (fun result obj =>
    match config.spec obj with
    | config.BackendPolicySpec bp =>
        ret (result ++ mjoin (imap (destinationRuleOf env r obj bp)
                                   (k8s.bp_BackendRefs bp)))
    | _ => panic
    end) acc objs w = None.
Proof.
  induction objs as [|obj objs IH]; intros acc w Hex.
  - by apply Exists_nil in Hex.
  - cbn [foldM]. unfold bind.
    destruct (config.spec obj) as [| | | | |bp| | | |] eqn:Hspec; try reflexivity.
    apply Exists_cons in Hex as [Hobj|Hrest].
    + exfalso. apply Hobj. by exists bp.
    + simpl. by apply IH.
Qed.

Lemma convertDestinationRule_typed (objs : list config.Config) :
  forall (acc res : list config.Config) (w w' : World),
  foldM (fun result obj =>
    match config.spec obj with
    | config.BackendPolicySpec bp =>
        ret (result ++ mjoin (imap (destinationRuleOf env r obj bp)
                                   (k8s.bp_BackendRefs bp)))
    | _ => panic
    end) acc objs w = Some (res, w') ->
  Forall isBackendPolicy objs.
Proof.
  induction objs as [|obj objs IH]; intros acc res w w' Hrun; [constructor|].
  cbn [foldM] in Hrun. unfold bind in Hrun.
  destruct (config.spec obj) as [| | | | |bp| | | |] eqn:Hspec; try discriminate Hrun.
  constructor; [by exists bp|]. simpl in Hrun. by eapply IH.
Qed.

Lemma destinationRuleOf_count (obj : config.Config) (bp : k8s.BackendPolicySpec)
    (refs : list k8s.BackendRef) :
  forall f : nat -> nat,
  length (mjoin (imap (fun i => destinationRuleOf env r obj bp (f i)) refs)) =
  length (List.filter supportedRef refs).
Proof.
  induction refs as [|ref refs IH]; intros f; [reflexivity|].
  rewrite imap_cons. change (mjoin (?a :: ?b)) with (a ++ mjoin b).
  rewrite length_app.
  change (imap ((fun i => destinationRuleOf env r obj bp (f i)) ∘ S) refs)
    with (imap (fun i => destinationRuleOf env r obj bp ((f ∘ S) i)) refs).
  rewrite (IH (f ∘ S)). cbn [List.filter].
  unfold destinationRuleOf at 1. fold (supportedRef ref).
  by destruct (supportedRef ref).
Qed.

(** X17: when every object of the backend policy list is a backend policy,
    [convertDestinationRule] returns without touching any status, and it
    emits for every policy one destination rule per backend reference that
    names a Service; the other references are skipped. *)
Theorem convertDestinationRule_supported (w : World) :
  Forall isBackendPolicy (BackendPolicy r) ->
  exists drs,
    convertDestinationRule env r w = Some (drs, w) /\
    drs = flat_map destinationRulesOf (BackendPolicy r) /\
    forall obj bp, config.spec obj = config.BackendPolicySpec bp ->
      length (destinationRulesOf obj) =
      length (List.filter supportedRef (k8s.bp_BackendRefs bp)).
Proof.
  intros Hall. eexists. split; [|split; [reflexivity|]].
  - unfold convertDestinationRule. by rewrite convertDestinationRule_from.
  - intros obj bp Hspec. unfold destinationRulesOf. rewrite Hspec.
    apply (destinationRuleOf_count obj bp _ (fun i => i)).
Qed.

(** X18: an object of the backend policy list whose spec is no backend policy
    makes [convertDestinationRule] panic, wherever it stands in the list. *)
Theorem convertDestinationRule_ill_typed (w : World) :
  Exists (fun obj => ~ isBackendPolicy obj) (BackendPolicy r) ->
  convertDestinationRule env r w = None.
Proof. intros Hex. unfold convertDestinationRule. by apply convertDestinationRule_panic. Qed.

(** The client TLS settings that a backend policy asks for: those of its
    certificate authority reference, none without one. *)
Definition policyTLS (bp : k8s.BackendPolicySpec) : option istio.ClientTLSSettings :=
  match k8s.bp_TLS bp with
  | Some btls =>
      match k8s.btls_CertificateAuthorityRef btls with
      | Some caref =>
          Some {| istio.ctls_CredentialName := buildSecretReference env caref;
                  istio.ctls_Simple := true |}
      | None => None
      end
  | None => None
  end.

(** X19: a destination rule that [convertDestinationRule] emits lives in the
    namespace of its policy, names the host of a supported reference of
    that policy as name.namespace.svc.domain, and carries its TLS settings
    at one level only: when the policy has a certificate authority
    reference, the settings stand in one port-level entry for the port of
    the reference when it has one, with none for the whole host, and for the
    whole host, with no port-level entry, when it has none; without such a
    reference there are no TLS settings at all. *)
Theorem destinationRule_shape (w w' : World) (drs : list config.Config)
    (drc : config.Config) :
  convertDestinationRule env r w = Some (drs, w') ->
  drc ∈ drs ->
  exists obj bp ref dr,
    obj ∈ BackendPolicy r /\ config.spec obj = config.BackendPolicySpec bp /\
    ref ∈ k8s.bp_BackendRefs bp /\ supportedRef ref = true /\
    config.spec drc = config.IstioDestinationRule dr /\
    config.GVK (config.meta drc) = env_gvk_DestinationRule env /\
    config.Namespace (config.meta drc) = config.Namespace (config.meta obj) /\
    istio.dr_Host dr =
      (k8s.br_Name ref ++ "." ++ config.Namespace (config.meta obj) ++ ".svc." ++
       Domain r)%string /\
    (istio.tp_Tls (istio.dr_TrafficPolicy dr) = None \/
     istio.tp_PortLevelSettings (istio.dr_TrafficPolicy dr) = []) /\
    (k8s.br_Port ref = None ->
     istio.tp_PortLevelSettings (istio.dr_TrafficPolicy dr) = []) /\
    istio.dr_TrafficPolicy dr =
      match policyTLS bp, k8s.br_Port ref with
      | Some tls, Some port =>
          {| istio.tp_Tls := None;
             istio.tp_PortLevelSettings :=
               [ {| istio.ptp_Port := {| istio.Number := port mod 2 ^ 32 |};
                    istio.ptp_Tls := tls |} ] |}
      | Some tls, None =>
          {| istio.tp_Tls := Some tls; istio.tp_PortLevelSettings := [] |}
      | None, _ =>
          {| istio.tp_Tls := None; istio.tp_PortLevelSettings := [] |}
      end.
Proof.
  intros Hrun Hin.
  unfold convertDestinationRule in Hrun.
  pose proof (convertDestinationRule_typed _ _ _ _ _ Hrun) as Hall.
  rewrite convertDestinationRule_from in Hrun by done.
  injection Hrun as <- _. cbn [app] in Hin.
  apply list_elem_of_In, in_flat_map in Hin as (obj & Hobj & Hin).
  unfold destinationRulesOf in Hin.
  destruct (config.spec obj) as [| | | | |bp| | | |] eqn:Hspec; try done.
  apply list_elem_of_In, list_elem_of_join in Hin as (l & Hdrc & Hl).
  apply list_elem_of_lookup in Hl as [i Hi]. rewrite list_lookup_imap in Hi.
  destruct (k8s.bp_BackendRefs bp !! i) as [ref|] eqn:Href; [|discriminate].
  injection Hi as <-. unfold destinationRuleOf in Hdrc. fold (supportedRef ref) in Hdrc.
  destruct (supportedRef ref) eqn:Hsup; [|by apply elem_of_nil in Hdrc].
  apply list_elem_of_singleton in Hdrc as ->.
  exists obj, bp, ref. eexists. split; [by apply list_elem_of_In|]. split; [done|].
  split; [by eapply list_elem_of_lookup_2|]. split; [done|].
  split; [reflexivity|]. split; [reflexivity|]. split; [reflexivity|].
  split; [reflexivity|]. cbn. unfold policyTLS.
  destruct (k8s.bp_TLS bp) as [btls|]; [|by split; [left|]].
  destruct (k8s.btls_CertificateAuthorityRef btls) as [caref|]; [|by split; [left|]].
  destruct (k8s.br_Port ref); cbn; split; try done; [by left | by right].
Qed.

End DestinationRules.

(** ** Routes without owner *)

Section UnownedRoutes.

Variable env : Env.

Lemma foldM_skip {A B} (f : A -> B -> M A) (keep : B -> bool) (l : list B) :
  (forall acc x, keep x = false -> f acc x = ret acc) ->
  forall acc w, foldM f acc l w = foldM f acc (List.filter keep l) w.
Proof.
  intros Hskip. induction l as [|x l IH]; intros acc w; [reflexivity|].
  cbn [foldM List.filter]. destruct (keep x) eqn:Hx.
  - cbn [foldM]. unfold bind. destruct (f acc x w) as [[a w1]|]; [apply IH|reflexivity].
  - rewrite (Hskip acc x Hx). unfold bind, ret. apply IH.
Qed.

(** The routes of a snapshot that have an entry in the ownership map. *)
Definition owned (routeMap : gmap RouteKey (list string)) (obj : config.Config) : bool :=
  bool_decide (is_Some (routeMap !! toRouteKey obj)).

Definition ownedRoutes (routeMap : gmap RouteKey (list string))
    (r : KubernetesResources) : KubernetesResources := {|
  GatewayClass := GatewayClass r;
  Gateway := Gateway r;
  HTTPRoute := List.filter (owned routeMap) (HTTPRoute r);
  TCPRoute := List.filter (owned routeMap) (TCPRoute r);
  TLSRoute := List.filter (owned routeMap) (TLSRoute r);
  BackendPolicy := BackendPolicy r;
  Namespaces := Namespaces r;
  Domain := Domain r
|}.

Lemma owned_false (routeMap : gmap RouteKey (list string)) (obj : config.Config) :
  owned routeMap obj = false -> routeMap !! toRouteKey obj = None.
Proof.
  unfold owned. intros H%bool_decide_eq_false. by apply eq_None_not_Some.
Qed.

(** X20: [convertVirtualService] passes over every route that has no entry
    in the ownership map: the virtual services and the statuses are those of
    the snapshot without these routes, whatever their specs and statuses
    are.  With an empty map it returns no virtual service and writes no
    status. *)
Theorem convertVirtualService_unowned (r : KubernetesResources)
    (routeMap : gmap RouteKey (list string)) (w : World) :
  convertVirtualService env r routeMap w =
    convertVirtualService env (ownedRoutes routeMap r) routeMap w /\
  convertVirtualService env r ∅ w = Some ([], w).
Proof.
  assert (forall m, convertVirtualService env r m w =
                    convertVirtualService env (ownedRoutes m r) m w) as Heq.
  { intros m. unfold convertVirtualService. cbn [TCPRoute TLSRoute HTTPRoute Domain ownedRoutes].
    unfold bind.
    rewrite (foldM_skip _ (owned m) (TCPRoute r))
      by (intros acc x Hx; by rewrite (owned_false m x Hx)).
    destruct (foldM _ [] (List.filter (owned m) (TCPRoute r)) w) as [[res1 w1]|];
      [|reflexivity].
    rewrite (foldM_skip _ (owned m) (TLSRoute r))
      by (intros acc x Hx; by rewrite (owned_false m x Hx)).
    destruct (foldM _ res1 (List.filter (owned m) (TLSRoute r)) w1) as [[res2 w2]|];
      [|reflexivity].
    apply (foldM_skip _ (owned m) (HTTPRoute r)).
    intros acc x Hx. by rewrite (owned_false m x Hx). }
  split; [apply Heq|]. rewrite Heq.
  assert (forall l, List.filter (owned ∅) l = []) as Hnone.
  { intros l. induction l as [|x l IH]; [reflexivity|]. cbn [List.filter].
    unfold owned at 1. rewrite lookup_empty.
    rewrite bool_decide_eq_false_2 by (by intros [? ?]). exact IH. }
  unfold convertVirtualService. cbn [TCPRoute TLSRoute HTTPRoute Domain ownedRoutes].
  rewrite !Hnone. reflexivity.
Qed.

End UnownedRoutes.

(** ** Gateway classes and gateways *)

Section GatewayOutput.

Variable env : Env.
Variable r : KubernetesResources.

Lemma classStep_elem (name : string) (l : list config.Config) :
  forall classes : gset string,
  name ∈ foldl classStep classes l <->
  name ∈ classes \/
  exists obj gwc, obj ∈ l /\ config.spec obj = config.GatewayClassSpec gwc /\
                  k8s.gcs_Controller gwc = ControllerName /\
                  config.Name (config.meta obj) = name.
Proof.
  induction l as [|obj l IH]; intros classes; cbn [foldl].
  - split; [by left|]. intros [H|(obj & gwc & H & _)]; [done|by apply elem_of_nil in H].
  - rewrite IH. split.
    + intros [H|(o & gwc & Ho & Hrest)].
      * unfold classStep in H.
        destruct (config.spec obj) as [gwc| | | | | | | | |] eqn:Hspec; try by left.
        destruct (k8s.gcs_Controller gwc =? ControllerName)%string eqn:Hc; [|by left].
        apply elem_of_union in H as [H|H%elem_of_singleton]; [by left|].
        right. exists obj, gwc. apply String.eqb_eq in Hc.
        split; [apply list_elem_of_here|done].
      * right. exists o, gwc. split; [by apply list_elem_of_further|done].
    + intros [H|(o & gwc & Ho & Hspec & Hc & Hn)].
      * left. unfold classStep. destruct (config.spec obj); try done.
        destruct (_ =? _)%string; [|done]. apply elem_of_union. by left.
      * apply elem_of_cons in Ho as [->|Ho].
        -- left. unfold classStep. rewrite Hspec, Hc, String.eqb_refl.
           apply elem_of_union. right. by apply elem_of_singleton.
        -- right. by exists o, gwc.
Qed.

(** X21: on gateway classes with status objects of their kind,
    [getGatewayClasses] returns exactly the names of the classes whose
    controller is "istio.io/gateway-controller". *)
Theorem getGatewayClasses_names (w : World) :
  Forall (typed w KGatewayClass) (GatewayClass r) ->
  exists classes w',
    getGatewayClasses r w = Some (classes, w') /\
    forall name,
      name ∈ classes <->
      exists obj gwc, obj ∈ GatewayClass r /\
                      config.spec obj = config.GatewayClassSpec gwc /\
                      k8s.gcs_Controller gwc = "istio.io/gateway-controller"%string /\
                      config.Name (config.meta obj) = name.
Proof.
  intros Hwt. destruct (getGatewayClasses_run r w Hwt) as (w' & Hrun & _).
  exists (ownedClasses r), w'. split; [exact Hrun|]. intros name.
  unfold ownedClasses. rewrite classStep_elem. split; [|by right].
  intros [H|H]; [by apply elem_of_empty in H|done].
Qed.

(** The gateway configuration of a gateway of one of the given classes. *)
Definition convertedGateway (classes : gset string) (obj : config.Config)
    : option config.Config :=
  match config.spec obj with
  | config.GatewaySpec kgw =>
      if bool_decide (k8s.gs_GatewayClassName kgw ∈ classes)
      then Some (gatewayConfigOf env r obj kgw) else None
  | _ => None
  end.

Lemma gatewayStep_result (classes : gset string) (l : list config.Config) :
  forall acc,
  acc_result (foldl (gatewayStep env r classes) acc l) =
  acc_result acc ++ omap (convertedGateway classes) l.
Proof.
  induction l as [|obj l IH]; intros acc; cbn [foldl].
  - change (omap (convertedGateway classes) []) with (@nil config.Config).
    by rewrite app_nil_r.
  - rewrite IH.
    change (omap (convertedGateway classes) (obj :: l))
      with (match convertedGateway classes obj with
            | Some y => y :: omap (convertedGateway classes) l
            | None => omap (convertedGateway classes) l
            end).
    unfold gatewayStep, convertedGateway.
    destruct (config.spec obj) as [|kgw| | | | | | | |]; try reflexivity.
    destruct (bool_decide (k8s.gs_GatewayClassName kgw ∈ classes)); [|reflexivity].
    cbn [acc_result]. by rewrite <- app_assoc.
Qed.

(** X22: [convertGateway] emits one gateway configuration for every gateway
    of the snapshot whose class is one of this controller, in the order of
    the snapshot, and none for the others; each is named after its gateway,
    in the namespace of its gateway. *)
Theorem convertGateway_gateways (w : World) :
  Forall (typed w KGatewayClass) (GatewayClass r) ->
  Forall (typed w KGateway) (Gateway r) ->
  exists gws m w',
    convertGateway env r w = Some ((gws, m), w') /\
    gws = omap (convertedGateway (ownedClasses r)) (Gateway r) /\
    forall g, g ∈ gws ->
      exists obj kgw, obj ∈ Gateway r /\
        config.spec obj = config.GatewaySpec kgw /\
        k8s.gs_GatewayClassName kgw ∈ ownedClasses r /\
        config.GVK (config.meta g) = env_gvk_Gateway env /\
        config.Name (config.meta g) =
          (config.Name (config.meta obj) ++ "-" ++ env_KubernetesGatewayName env)%string /\
        config.Namespace (config.meta g) = config.Namespace (config.meta obj).
Proof.
  intros Hc Hg. destruct (convertGateway_run env r w Hc Hg) as (w' & Hrun & _).
  exists (acc_result (gatewaysOf env r)), (routeOwners env r), w'.
  split; [exact Hrun|].
  assert (acc_result (gatewaysOf env r) =
          omap (convertedGateway (ownedClasses r)) (Gateway r)) as Heq
    by (unfold gatewaysOf; by rewrite gatewayStep_result).
  split; [exact Heq|]. rewrite Heq. intros g Hin.
  apply list_elem_of_omap in Hin as (obj & Hobj & Hconv).
  unfold convertedGateway in Hconv.
  destruct (config.spec obj) as [|kgw| | | | | | | |] eqn:Hspec; try discriminate.
  destruct (bool_decide _) eqn:Hcls; [|discriminate]. injection Hconv as <-.
  apply bool_decide_eq_true in Hcls. by exists obj, kgw.
Qed.

(** X23: the gateway configuration of a converted gateway has one server per
    listener, in the order of the listeners; the server of a listener has
    its port number as an unsigned 32-bit integer, its protocol, and exactly
    one host: the hostname of the listener, or "*" when the listener has
    none or an empty one. *)
Theorem convertGateway_servers (w : World) (obj : config.Config)
    (kgw : k8s.GatewaySpec) :
  Forall (typed w KGatewayClass) (GatewayClass r) ->
  Forall (typed w KGateway) (Gateway r) ->
  obj ∈ Gateway r ->
  config.spec obj = config.GatewaySpec kgw ->
  k8s.gs_GatewayClassName kgw ∈ ownedClasses r ->
  exists gws m w' g gw,
    convertGateway env r w = Some ((gws, m), w') /\
    g ∈ gws /\
    config.Name (config.meta g) =
      (config.Name (config.meta obj) ++ "-" ++ env_KubernetesGatewayName env)%string /\
    config.spec g = config.IstioGateway gw /\
    length (istio.g_Servers gw) = length (k8s.gs_Listeners kgw) /\
    forall i l, k8s.gs_Listeners kgw !! i = Some l ->
      exists s, istio.g_Servers gw !! i = Some s /\
        istio.p_Number (istio.s_Port s) = k8s.l_Port l mod 2 ^ 32 /\
        istio.p_Protocol (istio.s_Port s) = k8s.l_Protocol l /\
        istio.s_Tls s = buildTLS env (k8s.l_TLS l) /\
        istio.s_Hosts s =
          [match k8s.l_Hostname l with
           | Some h => if (h =? "")%string then "*"%string else h
           | None => "*"%string
           end].
Proof.
  intros Hc Hg Hobj Hspec Hcls.
  destruct (convertGateway_run env r w Hc Hg) as (w' & Hrun & _).
  exists (acc_result (gatewaysOf env r)), (routeOwners env r), w',
         (gatewayConfigOf env r obj kgw). eexists.
  split; [exact Hrun|]. split.
  { unfold gatewaysOf. rewrite gatewayStep_result. cbn [acc_result app].
    apply list_elem_of_omap. exists obj. split; [done|].
    unfold convertedGateway. by rewrite Hspec, bool_decide_eq_true_2. }
  split; [reflexivity|]. split; [reflexivity|]. cbn [istio.g_Servers]. split.
  { apply length_map. }
  intros i l Hl. exists (serverOf env obj l).
  split; [by rewrite map_lookup, Hl|]. cbn.
  repeat split. unfold buildHostnameMatch.
  destruct (k8s.l_Hostname l) as [h|]; [|done]. by destruct (h =? "")%string.
Qed.

End GatewayOutput.

(** ** Owner names and gateway references *)

Section OwnerNames.

Local Open Scope string_scope.

(** Whether a string contains a slash. *)
Fixpoint hasSlash (s : string) : bool :=
  match s with
  | EmptyString => false
  | String c s' => Ascii.eqb c "/" || hasSlash s'
  end.

(** An owner that [createRouteStatus] can report: the mesh token, or a name
    with a slash. *)
Definition reportable (gw : string) : bool := (gw =? IstioMeshGateway) || hasSlash gw.

Lemma Split_no_slash (s : string) : hasSlash s = false -> Split s "/" = [s].
Proof.
  induction s as [|c s IH]; cbn [hasSlash Split]; [done|].
  intros [Hc Hs]%orb_false_iff. rewrite Hc, (IH Hs). reflexivity.
Qed.

Lemma Split_first_slash (a b : string) :
  hasSlash a = false -> Split (a ++ "/" ++ b) "/" = a :: Split b "/".
Proof.
  induction a as [|c a IH]; intros Ha.
  - reflexivity.
  - cbn [hasSlash] in Ha. apply orb_false_iff in Ha as [Hc Ha].
    change (String c a ++ "/" ++ b) with (String c (a ++ "/" ++ b)).
    cbn [Split]. rewrite Hc, (IH Ha). reflexivity.
Qed.

Lemma hasSlash_ownerWf (s : string) :
  hasSlash s = true -> exists a b, s = a ++ "/" ++ b.
Proof.
  induction s as [|c s IH]; cbn [hasSlash]; [done|].
  destruct (Ascii.eqb_spec c "/") as [->|Hc]; cbn [orb].
  - intros _. by exists "", s.
  - intros (a & b & ->)%IH. by exists (String c a), b.
Qed.

Lemma reportable_ownerWf (gw : string) : reportable gw = true -> ownerWf gw.
Proof.
  unfold reportable. intros [H|H]%orb_true_iff.
  - left. by apply String.eqb_eq.
  - right. by apply hasSlash_ownerWf.
Qed.

Lemma gatewayReferenceOf_panic (gw : string) (w : World) :
  reportable gw = false -> gatewayReferenceOf gw w = None.
Proof.
  unfold reportable. intros [Hm Hs]%orb_false_iff.
  unfold gatewayReferenceOf. rewrite Hm, (Split_no_slash gw Hs). reflexivity.
Qed.

Lemma createRouteStatus_panic (obj : config.Config) (gateways : list string) :
  forall (acc : list k8s.RouteGatewayStatus) (w : World),
  Exists (fun gw => reportable gw = false) gateways ->
  foldM (fun gws gw =>
           let* ref := gatewayReferenceOf gw in
           let* now := Now in
           ret (gws ++ [ {|
             k8s.rgs_GatewayRef := ref;
             k8s.rgs_Conditions := [ {|
               metav1.Type_ := k8s.ConditionRouteAdmitted;
               metav1.Status := StatusTrue;
               metav1.ObservedGeneration := config.Generation (config.meta obj);
               metav1.LastTransitionTime := now;
               metav1.Reason := "RouteAdmitted";
               metav1.Message := "Route admitted" |} ] |} ])%list)
        acc gateways w = None.
Proof.
  induction gateways as [|gw gateways IH]; intros acc w Hex.
  - by apply Exists_nil in Hex.
  - cbn [foldM]. unfold bind at 1.
    match goal with |- match ?m with _ => _ end = None => destruct m as [[a w1]|] eqn:Hstep end;
      [|reflexivity].
    apply Exists_cons in Hex as [Hgw|Hrest]; [|by apply IH].
    unfold bind in Hstep. by rewrite (gatewayReferenceOf_panic gw w Hgw) in Hstep.
Qed.

(** X24: [createRouteStatus] returns, with one status entry per owner, when
    every owner is the mesh token or contains a slash; an owner that is
    neither makes it panic, since the name is taken from behind the first
    slash. *)
Theorem createRouteStatus_owner_format (gateways : list string) (obj : config.Config)
    (w : World) :
  (Forall (fun gw => reportable gw = true) gateways ->
   exists gws w', createRouteStatus gateways obj w = Some (gws, w') /\
                  length gws = length gateways /\
                  statuses w' = statuses w) /\
  (Exists (fun gw => reportable gw = false) gateways ->
   createRouteStatus gateways obj w = None).
Proof.
  split.
  - intros Hall. eexists _, _. split; [|split].
    + apply createRouteStatus_run. eapply Forall_impl; [exact Hall|].
      apply reportable_ownerWf.
    + apply routeStatusOf_length.
    + reflexivity.
  - intros Hex. unfold createRouteStatus. by apply createRouteStatus_panic.
Qed.

(** X25: the owner name under which [convertGateway] records a gateway
    reads back, in the status of a route, as the namespace of the gateway
    and the name of the emitted gateway configuration, provided neither
    contains a slash. *)
Theorem ownerName_reference (env : Env) (obj : config.Config) (w : World) :
  hasSlash (config.Namespace (config.meta obj)) = false ->
  hasSlash (config.Name (config.meta obj) ++ "-" ++ env_KubernetesGatewayName env) = false ->
  gatewayReferenceOf (ownerName env obj) w =
  Some ({| k8s.gr_Name :=
             config.Name (config.meta obj) ++ "-" ++ env_KubernetesGatewayName env;
           k8s.gr_Namespace := config.Namespace (config.meta obj) |}, w).
Proof.
  intros Hns Hname. unfold gatewayReferenceOf, ownerName.
  assert ((config.Namespace (config.meta obj) ++ "/" ++
           (config.Name (config.meta obj) ++ "-" ++ env_KubernetesGatewayName env)
           =? IstioMeshGateway) = false) as ->.
  { apply String.eqb_neq. intros Heq.
    assert (hasSlash IstioMeshGateway = false) as Hm by reflexivity.
    rewrite <- Heq in Hm. clear Heq.
    induction (config.Namespace (config.meta obj)) as [|c s IH].
    - discriminate Hm.
    - cbn [hasSlash] in Hns. apply orb_false_iff in Hns as [_ Hs].
      change (String c s ++ ?x) with (String c (s ++ x)) in Hm.
      cbn [hasSlash] in Hm. apply orb_false_iff in Hm as [_ Hm]. by apply IH. }
  rewrite (Split_first_slash _ _ Hns), (Split_no_slash _ Hname). reflexivity.
Qed.

End OwnerNames.

(** ** The virtual services of a snapshot *)

Section VirtualServices.

Variable env : Env.
Variable r : KubernetesResources.
Variable routeMap : gmap RouteKey (list string).
Hypothesis routeMap_wf : ownersWf routeMap.

Lemma routeLoop_run (k : StatusKind)
    (body : list config.Config -> config.Config -> M (list config.Config))
    (out : config.Config -> list config.Config) (l : list config.Config) :
  (forall acc obj w, typed w k obj ->
     exists w', body acc obj w = Some (acc ++ out obj, w') /\ kinds w' = kinds w) ->
  forall acc w, Forall (typed w k) l ->
    exists w', foldM body acc l w = Some (acc ++ flat_map out l, w') /\
               kinds w' = kinds w.
Proof.
  intros Hstep. induction l as [|obj l IH]; intros acc w Hl.
  - exists w. simpl. unfold ret. by rewrite app_nil_r.
  - inversion Hl as [|? ? Hobj Hrest]; subst.
    destruct (Hstep acc obj w Hobj) as (w1 & Hrun1 & Hk1).
    destruct (IH (acc ++ out obj) w1) as (w2 & Hrun2 & Hk2).
    { eapply Forall_typed_kinds; [exact Hk1 | exact Hrest]. }
    exists w2. cbn [foldM flat_map]. erewrite bind_run by exact Hrun1.
    rewrite Hrun2, <- app_assoc. split; [done | congruence].
Qed.

(** The virtual services of one route. *)
Definition tcpOut (obj : config.Config) : list config.Config :=
  match routeMap !! toRouteKey obj, config.spec obj with
  | Some gateways, config.TCPRouteSpec route =>
      [tcpVirtualService env obj route gateways (Domain r)]
  | _, _ => []
  end.

Definition tlsOut (obj : config.Config) : list config.Config :=
  match routeMap !! toRouteKey obj, config.spec obj with
  | Some gateways, config.TLSRouteSpec route =>
      [tlsVirtualService env obj route gateways (Domain r)]
  | _, _ => []
  end.

Definition httpOut (obj : config.Config) : list config.Config :=
  match routeMap !! toRouteKey obj, config.spec obj with
  | Some gateways, config.HTTPRouteSpec route =>
      [httpVirtualService env obj route gateways (Domain r)]
  | _, _ => []
  end.

Lemma tcpBody_run (acc : list config.Config) (obj : config.Config) (w : World) :
  typed w KTCPRoute obj ->
  exists w', tcpBody env r routeMap acc obj w = Some (acc ++ tcpOut obj, w') /\
             kinds w' = kinds w.
Proof.
  intros Hobj. destruct (typed_TCPRoute w obj Hobj) as (route & l & rs & Hspec & Hst & Hl).
  unfold tcpBody, tcpOut. rewrite Hspec.
  destruct (routeMap !! toRouteKey obj) as [gateways|] eqn:Hg.
  - eexists. erewrite bind_run
      by (apply (buildTCPVirtualService_run env obj route l rs); eauto using routeMap_wf).
    split; [reflexivity|]. by apply (kinds_insert w _ l (config.TCPRouteStatus rs)).
  - exists w. unfold ret. by rewrite app_nil_r.
Qed.

Lemma tlsBody_run (acc : list config.Config) (obj : config.Config) (w : World) :
  typed w KTLSRoute obj ->
  exists w', tlsBody env r routeMap acc obj w = Some (acc ++ tlsOut obj, w') /\
             kinds w' = kinds w.
Proof.
  intros Hobj. destruct (typed_TLSRoute w obj Hobj) as (route & l & rs & Hspec & Hst & Hl).
  unfold tlsBody, tlsOut. rewrite Hspec.
  destruct (routeMap !! toRouteKey obj) as [gateways|] eqn:Hg.
  - eexists. erewrite bind_run
      by (apply (buildTLSVirtualService_run env obj route l rs); eauto using routeMap_wf).
    split; [reflexivity|]. by apply (kinds_insert w _ l (config.TLSRouteStatus rs)).
  - exists w. unfold ret. by rewrite app_nil_r.
Qed.

Lemma httpBody_run (acc : list config.Config) (obj : config.Config) (w : World) :
  typed w KHTTPRoute obj ->
  exists w', httpBody env r routeMap acc obj w = Some (acc ++ httpOut obj, w') /\
             kinds w' = kinds w.
Proof.
  intros Hobj. destruct (typed_HTTPRoute w obj Hobj) as (route & l & rs & Hspec & Hst & Hl).
  unfold httpBody, httpOut. rewrite Hspec.
  destruct (routeMap !! toRouteKey obj) as [gateways|] eqn:Hg.
  - eexists. erewrite bind_run
      by (apply (buildHTTPVirtualServices_run env obj route l rs); eauto using routeMap_wf).
    split; [reflexivity|]. by apply (kinds_insert w _ l (config.HTTPRouteStatus rs)).
  - exists w. unfold ret. by rewrite app_nil_r.
Qed.

Lemma convertVirtualService_run (w : World) :
  Forall (typed w KTCPRoute) (TCPRoute r) ->
  Forall (typed w KTLSRoute) (TLSRoute r) ->
  Forall (typed w KHTTPRoute) (HTTPRoute r) ->
  exists w',
    convertVirtualService env r routeMap w =
    Some (flat_map tcpOut (TCPRoute r) ++ flat_map tlsOut (TLSRoute r) ++
          flat_map httpOut (HTTPRoute r), w') /\
    kinds w' = kinds w.
Proof.
  intros Htcp Htls Hhttp. rewrite convertVirtualService_bodies.
  destruct (routeLoop_run KTCPRoute (tcpBody env r routeMap) tcpOut (TCPRoute r)
              tcpBody_run [] w Htcp) as (w1 & Hrun1 & Hk1).
  destruct (routeLoop_run KTLSRoute (tlsBody env r routeMap) tlsOut (TLSRoute r)
              tlsBody_run (flat_map tcpOut (TCPRoute r)) w1) as (w2 & Hrun2 & Hk2).
  { eapply Forall_typed_kinds; [exact Hk1 | exact Htls]. }
  destruct (routeLoop_run KHTTPRoute (httpBody env r routeMap) httpOut (HTTPRoute r)
              httpBody_run (flat_map tcpOut (TCPRoute r) ++ flat_map tlsOut (TLSRoute r)) w2)
    as (w3 & Hrun3 & Hk3).
  { eapply Forall_typed_kinds; [|exact Hhttp]. congruence. }
  exists w3. erewrite bind_run by exact Hrun1. erewrite bind_run by exact Hrun2.
  rewrite Hrun3, <- app_assoc. split; [done | congruence].
Qed.

Lemma out_names (k : StatusKind) (out : config.Config -> list config.Config)
    (infix : string) (l : list config.Config) :
  (forall obj, owned routeMap obj = false -> out obj = []) ->
  (forall obj w, typed w k obj -> owned routeMap obj = true ->
     map (fun v => config.Name (config.meta v)) (out obj) =
     [(config.Name (config.meta obj) ++ infix ++ env_KubernetesGatewayName env)%string]) ->
  forall w, Forall (typed w k) l ->
  map (fun v => config.Name (config.meta v)) (flat_map out l) =
  map (fun obj => (config.Name (config.meta obj) ++ infix ++
                   env_KubernetesGatewayName env)%string)
      (List.filter (owned routeMap) l).
Proof.
  intros Hno Hyes w. induction 1 as [|obj l Hobj _ IH]; [reflexivity|].
  cbn [flat_map List.filter]. rewrite map_app, IH.
  destruct (owned routeMap obj) eqn:Ho.
  - by rewrite (Hyes obj w Hobj Ho).
  - by rewrite (Hno obj Ho).
Qed.

Lemma owned_true (obj : config.Config) :
  owned routeMap obj = true -> exists gateways, routeMap !! toRouteKey obj = Some gateways.
Proof. unfold owned. intros [gws H]%bool_decide_eq_true. by exists gws. Qed.

(** X26: on routes with status objects of their kinds and an ownership map
    whose owners can be reported, [convertVirtualService] emits one virtual
    service per route that has an entry in the map: first those of the TCP
    routes, then those of the TLS routes, then those of the HTTP routes,
    each group in the order of the snapshot, named after the route with the
    infix "-tcp-", "-tls-" or "-"; every one of them carries the owners of
    its route as gateways. *)
Theorem convertVirtualService_output (w : World) :
  Forall (typed w KTCPRoute) (TCPRoute r) ->
  Forall (typed w KTLSRoute) (TLSRoute r) ->
  Forall (typed w KHTTPRoute) (HTTPRoute r) ->
  exists vs w',
    convertVirtualService env r routeMap w = Some (vs, w') /\
    map (fun v => config.Name (config.meta v)) vs =
      map (fun obj => (config.Name (config.meta obj) ++ "-tcp-" ++
                       env_KubernetesGatewayName env)%string)
          (List.filter (owned routeMap) (TCPRoute r)) ++
      map (fun obj => (config.Name (config.meta obj) ++ "-tls-" ++
                       env_KubernetesGatewayName env)%string)
          (List.filter (owned routeMap) (TLSRoute r)) ++
      map (fun obj => (config.Name (config.meta obj) ++ "-" ++
                       env_KubernetesGatewayName env)%string)
          (List.filter (owned routeMap) (HTTPRoute r)) /\
    forall v, v ∈ vs ->
      exists obj gateways x,
        obj ∈ TCPRoute r ++ TLSRoute r ++ HTTPRoute r /\
        routeMap !! toRouteKey obj = Some gateways /\
        config.spec v = config.IstioVirtualService x /\
        istio.vs_Gateways x = gateways /\
        config.Namespace (config.meta v) = config.Namespace (config.meta obj).
Proof.
  intros Htcp Htls Hhttp.
  destruct (convertVirtualService_run w Htcp Htls Hhttp) as (w' & Hrun & _).
  eexists _, w'. split; [exact Hrun|]. split.
  - rewrite !map_app. f_equal; [|f_equal].
    + apply (out_names KTCPRoute tcpOut "-tcp-" _) with (w := w); [| |done].
      * intros obj Ho. unfold tcpOut. by rewrite (owned_false _ _ Ho).
      * intros obj w0 Hobj Ho. destruct (owned_true obj Ho) as [gws Hg].
        destruct (typed_TCPRoute w0 obj Hobj) as (route & l & rs & Hspec & _).
        unfold tcpOut. by rewrite Hg, Hspec.
    + apply (out_names KTLSRoute tlsOut "-tls-" _) with (w := w); [| |done].
      * intros obj Ho. unfold tlsOut. by rewrite (owned_false _ _ Ho).
      * intros obj w0 Hobj Ho. destruct (owned_true obj Ho) as [gws Hg].
        destruct (typed_TLSRoute w0 obj Hobj) as (route & l & rs & Hspec & _).
        unfold tlsOut. by rewrite Hg, Hspec.
    + apply (out_names KHTTPRoute httpOut "-" _) with (w := w); [| |done].
      * intros obj Ho. unfold httpOut. by rewrite (owned_false _ _ Ho).
      * intros obj w0 Hobj Ho. destruct (owned_true obj Ho) as [gws Hg].
        destruct (typed_HTTPRoute w0 obj Hobj) as (route & l & rs & Hspec & _).
        unfold httpOut. by rewrite Hg, Hspec.
  - intros v Hv. rewrite !elem_of_app in Hv.
    destruct Hv as [Hv|[Hv|Hv]];
      apply list_elem_of_In, in_flat_map in Hv as (obj & Hobj & Hv);
      apply list_elem_of_In in Hobj, Hv.
    + unfold tcpOut in Hv.
      destruct (routeMap !! toRouteKey obj) as [gws|] eqn:Hg; [|by apply elem_of_nil in Hv].
      destruct (config.spec obj); try by apply elem_of_nil in Hv.
      apply list_elem_of_singleton in Hv as ->. exists obj, gws. eexists.
      rewrite !elem_of_app. split; [by left|]. by repeat split.
    + unfold tlsOut in Hv.
      destruct (routeMap !! toRouteKey obj) as [gws|] eqn:Hg; [|by apply elem_of_nil in Hv].
      destruct (config.spec obj); try by apply elem_of_nil in Hv.
      apply list_elem_of_singleton in Hv as ->. exists obj, gws. eexists.
      rewrite !elem_of_app. split; [right; by left|]. by repeat split.
    + unfold httpOut in Hv.
      destruct (routeMap !! toRouteKey obj) as [gws|] eqn:Hg; [|by apply elem_of_nil in Hv].
      destruct (config.spec obj); try by apply elem_of_nil in Hv.
      apply list_elem_of_singleton in Hv as ->. exists obj, gws. eexists.
      rewrite !elem_of_app. split; [right; by right|]. by repeat split.
Qed.

End VirtualServices.

(** ** The keys of the ownership map *)

Section OwnedKeys.

Variable env : Env.
Variable r : KubernetesResources.

(** No key of the map has an empty list of owners. *)
Definition ownersNonempty (m : gmap RouteKey (list string)) : Prop :=
  forall k os, m !! k = Some os -> os <> [].

Lemma ownersNonempty_appendOwner (m : gmap RouteKey (list string)) (k : RouteKey)
    (gw : string) :
  ownersNonempty m -> ownersNonempty (appendOwner m k gw).
Proof.
  intros Hm k' os. unfold appendOwner. destruct (decide (k = k')) as [->|Hne].
  - rewrite lookup_insert_eq. intros [= <-]. by destruct (default [] (m !! k')).
  - rewrite lookup_insert_ne by done. apply Hm.
Qed.

Lemma ownersNonempty_ownRoutes (routes : list config.Config) (owner : string)
    (m : gmap RouteKey (list string)) :
  ownersNonempty m -> ownersNonempty (ownRoutes routes owner m).
Proof.
  unfold ownRoutes. revert m. induction routes as [|c routes IH]; intros m Hm; simpl.
  - done.
  - apply IH. by apply ownersNonempty_appendOwner.
Qed.

Lemma ownersNonempty_gateways (classes : gset string) (objs : list config.Config)
    (acc : gatewayAcc) :
  ownersNonempty (acc_routeToGateway acc) ->
  ownersNonempty (acc_routeToGateway (foldl (gatewayStep env r classes) acc objs)).
Proof.
  revert acc. induction objs as [|obj objs IH]; intros acc Hacc; simpl; [done|].
  apply IH. unfold gatewayStep. destruct (config.spec obj) as [|kgw| | | | | | | |]; try done.
  destruct (bool_decide _); [|done]. simpl.
  generalize (acc_routeToGateway acc) Hacc. clear.
  induction (k8s.gs_Listeners kgw) as [|l ls IH]; intros m Hm; simpl; [done|].
  apply IH. unfold listenerOwners. by repeat apply ownersNonempty_ownRoutes.
Qed.

Lemma ownersNonempty_routeOwners : ownersNonempty (routeOwners env r).
Proof.
  unfold routeOwners.
  assert (ownersNonempty (acc_routeToGateway (gatewaysOf env r))) as H.
  { apply ownersNonempty_gateways. intros k os Hk. cbn in Hk. by rewrite lookup_empty in Hk. }
  revert H. generalize (acc_routeToGateway (gatewaysOf env r)).
  induction (fetchMeshRoutes r) as [|k keys IH]; intros m Hm; simpl; [done|].
  apply IH. by apply ownersNonempty_appendOwner.
Qed.

Lemma is_Some_owners (m : gmap RouteKey (list string)) (k : RouteKey) :
  ownersNonempty m -> is_Some (m !! k) <-> owners m k <> [].
Proof.
  intros Hm. unfold owners. split.
  - intros [os Hos]. rewrite Hos. simpl. by apply (Hm k).
  - destruct (m !! k) as [os|]; [by eexists|done].
Qed.

Lemma replicate_nonempty {A} (n : nat) (x : A) : replicate n x <> [] <-> (0 < n)%nat.
Proof. destruct n; simpl; split; (done || lia). Qed.

Lemma keyCount_pos (k : RouteKey) (p : config.Config -> bool)
    (routes : list config.Config) :
  (0 < keyCount k (List.filter p routes))%nat <->
  exists c, c ∈ routes /\ p c = true /\ toRouteKey c = k.
Proof.
  unfold keyCount. rewrite <- Nat.neq_0_lt_0, length_zero_iff_nil.
  split.
  - intros Hne.
    destruct (List.filter _ (List.filter p routes)) as [|c rest] eqn:Hf; [done|].
    assert (In c (List.filter (fun c => bool_decide (toRouteKey c = k))
                              (List.filter p routes))) as Hin by (rewrite Hf; by left).
    apply filter_In in Hin as [Hin Hk]. apply filter_In in Hin as [Hin Hp].
    exists c. split; [by apply list_elem_of_In|]. split; [done|].
    by apply bool_decide_eq_true in Hk.
  - intros (c & Hc & Hp & Hk) Hnil.
    assert (In c (List.filter (fun c => bool_decide (toRouteKey c = k))
                              (List.filter p routes))) as Hin.
    { apply filter_In. split; [|by apply bool_decide_eq_true].
      apply filter_In. split; [by apply list_elem_of_In|done]. }
    by rewrite Hnil in Hin.
Qed.

Lemma sum_list_pos (l : list nat) : (0 < sum_list l)%nat <-> exists n, n ∈ l /\ (0 < n)%nat.
Proof.
  induction l as [|x l IH]; simpl.
  - split; [lia|]. intros (n & Hn & _). by apply elem_of_nil in Hn.
  - split.
    + intros H. destruct (decide (0 < x)%nat) as [Hx|Hx].
      * exists x. split; [apply list_elem_of_here|done].
      * destruct (proj1 IH ltac:(lia)) as (n & Hn & Hpos).
        exists n. split; [by apply list_elem_of_further|done].
    + intros (n & [->|Hn]%elem_of_cons & Hpos); [lia|].
      assert (0 < sum_list l)%nat by (apply IH; by exists n). lia.
Qed.

(** A listener of a gateway of this controller selects a route with the
    key [k]. *)
Definition selected (k : RouteKey) : Prop :=
  exists obj kgw l c,
    obj ∈ Gateway r /\ config.spec obj = config.GatewaySpec kgw /\
    k8s.gs_GatewayClassName kgw ∈ ownedClasses r /\
    l ∈ k8s.gs_Listeners kgw /\
    c ∈ HTTPRoute r ++ TCPRoute r ++ TLSRoute r /\
    isRouteMatch env c (config.meta obj) (k8s.l_Routes l) (Namespaces r) = true /\
    toRouteKey c = k.

Lemma gatewayMatches_pos (k : RouteKey) :
  (exists obj, obj ∈ Gateway r /\
               (0 < gatewayMatches env r (ownedClasses r) k obj)%nat) <->
  selected k.
Proof.
  unfold selected, gatewayMatches. split.
  - intros (obj & Hobj & Hpos).
    destruct (config.spec obj) as [|kgw| | | | | | | |] eqn:Hspec; try lia.
    destruct (bool_decide _) eqn:Hcls; [|lia]. apply bool_decide_eq_true in Hcls.
    apply sum_list_pos in Hpos as (n & Hn & Hpos).
    apply list_elem_of_fmap in Hn as (l & -> & Hl). unfold matchCount in Hpos.
    assert (exists c, c ∈ HTTPRoute r ++ TCPRoute r ++ TLSRoute r /\
              isRouteMatch env c (config.meta obj) (k8s.l_Routes l) (Namespaces r) = true /\
              toRouteKey c = k) as (c & Hc & Hm & Hk).
    { unfold fetchHTTPRoutes, fetchTCPRoutes, fetchTLSRoutes in Hpos.
      destruct (decide (0 < keyCount k (List.filter
                  (fun c => isRouteMatch env c (config.meta obj) (k8s.l_Routes l)
                              (Namespaces r)) (HTTPRoute r)))%nat) as [H1|H1].
      { apply keyCount_pos in H1 as (c & Hc & Hrest). exists c.
        rewrite !elem_of_app. split; [by left|done]. }
      destruct (decide (0 < keyCount k (List.filter
                  (fun c => isRouteMatch env c (config.meta obj) (k8s.l_Routes l)
                              (Namespaces r)) (TCPRoute r)))%nat) as [H2|H2].
      { apply keyCount_pos in H2 as (c & Hc & Hrest). exists c.
        rewrite !elem_of_app. split; [right; by left|done]. }
      assert (0 < keyCount k (List.filter
                  (fun c => isRouteMatch env c (config.meta obj) (k8s.l_Routes l)
                              (Namespaces r)) (TLSRoute r)))%nat as H3 by lia.
      apply keyCount_pos in H3 as (c & Hc & Hrest). exists c.
      rewrite !elem_of_app. split; [right; by right|done]. }
    by exists obj, kgw, l, c.
  - intros (obj & kgw & l & c & Hobj & Hspec & Hcls & Hl & Hc & Hm & Hk).
    exists obj. split; [done|]. rewrite Hspec, bool_decide_eq_true_2 by done.
    apply sum_list_pos. exists (matchCount env r obj k l).
    split; [by apply list_elem_of_fmap_2|]. unfold matchCount.
    unfold fetchHTTPRoutes, fetchTCPRoutes, fetchTLSRoutes.
    rewrite !elem_of_app in Hc. destruct Hc as [Hc|[Hc|Hc]].
    + assert (0 < keyCount k (List.filter
                  (fun c => isRouteMatch env c (config.meta obj) (k8s.l_Routes l)
                              (Namespaces r)) (HTTPRoute r)))%nat
        by (apply keyCount_pos; by exists c). lia.
    + assert (0 < keyCount k (List.filter
                  (fun c => isRouteMatch env c (config.meta obj) (k8s.l_Routes l)
                              (Namespaces r)) (TCPRoute r)))%nat
        by (apply keyCount_pos; by exists c). lia.
    + assert (0 < keyCount k (List.filter
                  (fun c => isRouteMatch env c (config.meta obj) (k8s.l_Routes l)
                              (Namespaces r)) (TLSRoute r)))%nat
        by (apply keyCount_pos; by exists c). lia.
Qed.

Lemma flat_map_replicate_nonempty {A B} (f : A -> nat) (g : A -> B) (l : list A) :
  flat_map (fun x => replicate (f x) (g x)) l <> [] <->
  exists x, x ∈ l /\ (0 < f x)%nat.
Proof.
  induction l as [|x l IH]; simpl.
  - split; [done|]. intros (x & Hx & _). by apply elem_of_nil in Hx.
  - split.
    + intros Hne. destruct (f x) as [|n] eqn:Hfx.
      * simpl in Hne. destruct (proj1 IH Hne) as (y & Hy & Hpos).
        exists y. split; [by apply list_elem_of_further|done].
      * exists x. split; [apply list_elem_of_here|lia].
    + intros (y & [->|Hy]%elem_of_cons & Hpos).
      * destruct (f x); [lia|done].
      * intros Hnil. apply app_eq_nil in Hnil as [_ Hnil].
        by apply (proj2 IH (ex_intro _ y (conj Hy Hpos))).
Qed.

(** X27: the ownership map that [convertGateway] returns has an entry for a
    key exactly when a listener of a gateway of this controller selects a
    route with that key, or an HTTP route with that key refers to the mesh;
    no entry is empty. *)
Theorem convertGateway_keys (w : World) :
  Forall (typed w KGatewayClass) (GatewayClass r) ->
  Forall (typed w KGateway) (Gateway r) ->
  exists gws m w',
    convertGateway env r w = Some ((gws, m), w') /\
    (forall k os, m !! k = Some os -> os <> []) /\
    forall k, is_Some (m !! k) <-> selected k \/ k ∈ fetchMeshRoutes r.
Proof.
  intros Hc Hg. destruct (convertGateway_run env r w Hc Hg) as (w' & Hrun & _).
  exists (acc_result (gatewaysOf env r)), (routeOwners env r), w'.
  split; [exact Hrun|]. split; [apply ownersNonempty_routeOwners|]. intros k.
  rewrite (is_Some_owners _ k ownersNonempty_routeOwners), owners_routeOwners.
  rewrite <- gatewayMatches_pos.
  rewrite <- (flat_map_replicate_nonempty
                (gatewayMatches env r (ownedClasses r) k) (ownerName env) (Gateway r)).
  split.
  - intros Hne.
    destruct (flat_map _ (Gateway r)) as [|x rest] eqn:Hfm; [|by left].
    right. simpl in Hne. apply replicate_nonempty in Hne.
    rewrite <- Nat.neq_0_lt_0, length_zero_iff_nil in Hne.
    destruct (List.filter _ (fetchMeshRoutes r)) as [|k' rest] eqn:Hf; [done|].
    assert (In k' (List.filter (fun k' => bool_decide (k' = k)) (fetchMeshRoutes r))) as Hin
      by (rewrite Hf; by left).
    apply filter_In in Hin as [Hin Hk]. apply bool_decide_eq_true in Hk. subst k'.
    by apply list_elem_of_In.
  - intros [Hsel|Hmesh] Hnil; apply app_eq_nil in Hnil as [Hnil1 Hnil2]; [done|].
    assert (In k (List.filter (fun k' => bool_decide (k' = k)) (fetchMeshRoutes r))) as Hin.
    { apply filter_In. split; [by apply list_elem_of_In | by apply bool_decide_eq_true]. }
    destruct (List.filter _ (fetchMeshRoutes r)); [done|discriminate Hnil2].
Qed.

End OwnedKeys.

(** ** The further properties on the example *)

Section FurtherRuns.

Local Open Scope string_scope.

Lemma standardizeWeights_range_witness :
  Forall (fun y => 0 <= y <= 100) (standardizeWeights InsertionSorter.sorter [1; 3]).
Proof.
  apply (standardizeWeights_range InsertionSorter.sorter [1; 3]).
  - simpl. lia.
  - repeat constructor; lia.
  - apply Exists_cons_hd. lia.
  - vm_compute. reflexivity.
Defined.

Lemma standardizeWeights_proportional_witness :
  (25 = roundedOf (Zsum [1; 3]) 1 \/ 25 = roundedOf (Zsum [1; 3]) 1 + 1) /\
  100 * 1 / Zsum [1; 3] - 1 <= 25 <= 100 * 1 / Zsum [1; 3] + 2.
Proof.
  apply (standardizeWeights_proportional InsertionSorter.sorter [1; 3] 0 1 25).
  - simpl. lia.
  - repeat constructor; lia.
  - apply Exists_cons_hd. lia.
  - vm_compute. reflexivity.
  - reflexivity.
  - vm_compute. reflexivity.
Defined.

Lemma buildHTTPDestination_weights_witness :
  length (buildHTTPDestination Example.env
            [Example.toService "reviews" 1; Example.toService "ratings" 3]
            "apps" "cluster.local") = 2%nat /\
  Zsum (map istio.hrd_Weight
          (buildHTTPDestination Example.env
             [Example.toService "reviews" 1; Example.toService "ratings" 3]
             "apps" "cluster.local")) = 100 /\
  Forall (fun d => 0 <= istio.hrd_Weight d <= 100)
         (buildHTTPDestination Example.env
            [Example.toService "reviews" 1; Example.toService "ratings" 3]
            "apps" "cluster.local").
Proof.
  apply (buildHTTPDestination_weights Example.env
           [Example.toService "reviews" 1; Example.toService "ratings" 3]
           "apps" "cluster.local").
  - simpl. lia.
  - simpl. lia.
  - repeat constructor; simpl; lia.
  - apply Exists_cons_hd. simpl. lia.
Defined.

(** A forwarding target of a TCP route. *)
Definition exampleForward (name : string) (weight : Z) : k8s.RouteForwardTo := {|
  k8s.fw_ServiceName := Some name;
  k8s.fw_BackendRef := None;
  k8s.fw_Port := Some 5432;
  k8s.fw_Weight := weight
|}.

Lemma buildTCPDestination_weights_witness :
  length (buildTCPDestination Example.env
            [exampleForward "primary" 2; exampleForward "replica" 1]
            "apps" "cluster.local") = 2%nat /\
  Zsum (map istio.rd_Weight
          (buildTCPDestination Example.env
             [exampleForward "primary" 2; exampleForward "replica" 1]
             "apps" "cluster.local")) = 100 /\
  Forall (fun d => 0 <= istio.rd_Weight d <= 100)
         (buildTCPDestination Example.env
            [exampleForward "primary" 2; exampleForward "replica" 1]
            "apps" "cluster.local").
Proof.
  apply (proj2 (buildTCPDestination_weights Example.env
                  [exampleForward "primary" 2; exampleForward "replica" 1]
                  "apps" "cluster.local")).
  - simpl. lia.
  - simpl. lia.
  - repeat constructor; simpl; lia.
  - apply Exists_cons_hd. simpl. lia.
Defined.

Lemma isRouteMatch_needs_witness :
  k8s.rbs_Kind Example.httpRoutes = "HTTPRoute" /\
  selectedGroup Example.httpRoutes = "networking.x-k8s.io" /\
  exists ls,
    Example.LabelSelectorAsSelector (k8s.rbs_Selector Example.httpRoutes) = Some ls /\
    ls ∅ = true.
Proof.
  apply (isRouteMatch_needs Example.env
           (Example.httpRoute "reviews" "apps" Example.sameNamespace 3%positive)
           (config.meta Example.gateway) Example.httpRoutes ∅).
  vm_compute. reflexivity.
Defined.

Lemma isRouteMatch_FromList_witness :
  exists ref, ref ∈ k8s.rg_GatewayRefs Example.meshOnly /\
              k8s.gr_Name ref = "mesh" /\ k8s.gr_Namespace ref = "default".
Proof.
  apply (isRouteMatch_FromList Example.env
           (Example.httpRoute "reviews" "default" Example.meshOnly 3%positive)
           (Example.meta "Gateway" "mesh" "default") Example.httpRoutes ∅
           Example.meshOnly).
  - reflexivity.
  - reflexivity.
  - vm_compute. reflexivity.
Defined.

Lemma isRouteMatch_Same_witness :
  isRouteMatch Example.env
    (Example.httpRoute "reviews" "other" Example.sameNamespace 3%positive)
    (config.meta Example.gateway) Example.httpRoutes ∅ = false.
Proof.
  apply (isRouteMatch_Same Example.env).
  - left. reflexivity.
  - vm_compute. discriminate.
Defined.

(** A listener selector that takes the routes of the namespaces with
    given labels. *)
Definition exampleBySelector : k8s.RouteBindingSelector := {|
  k8s.rbs_Namespaces := {| k8s.rn_From := "Selector";
                           k8s.rn_Selector := Example.everything |};
  k8s.rbs_Selector := Example.everything;
  k8s.rbs_Group := "";
  k8s.rbs_Kind := "HTTPRoute"
|}.

Lemma isRouteMatch_unknown_namespace_witness :
  isRouteMatch Example.env
    (Example.httpRoute "reviews" "apps" Example.sameNamespace 3%positive)
    (config.meta Example.gateway) exampleBySelector ∅ = false.
Proof.
  apply (isRouteMatch_unknown_namespace Example.env).
  - reflexivity.
  - apply lookup_empty.
Defined.

Definition exampleFromAll : k8s.RouteBindingSelector := {|
  k8s.rbs_Namespaces := {| k8s.rn_From := "All"; k8s.rn_Selector := Example.everything |};
  k8s.rbs_Selector := Example.everything;
  k8s.rbs_Group := "";
  k8s.rbs_Kind := "HTTPRoute"
|}.

Definition exampleAllowAll : k8s.RouteGateways :=
  {| k8s.rg_Allow := "All"; k8s.rg_GatewayRefs := [] |}.

Lemma isRouteMatch_All_witness :
  isRouteMatch Example.env
    (Example.httpRoute "reviews" "other" exampleAllowAll 3%positive)
    (config.meta Example.gateway) exampleFromAll ∅ = true.
Proof.
  eapply (isRouteMatch_All Example.env _ _ _ _ exampleAllowAll).
  - reflexivity.
  - reflexivity.
  - reflexivity.
  - vm_compute. reflexivity.
  - reflexivity.
  - reflexivity.
  - reflexivity.
Defined.

Lemma createURIMatch_trailing_slash_witness :
  createURIMatch Example.env
    {| k8s.m_Path := {| k8s.pm_Type := "Prefix"; k8s.pm_Value := "/api" ++ "/" |};
       k8s.m_Headers := None |} =
    Some (istio.StringMatch_Regex (Example.QuoteMeta "/api" ++ "((\/).*)?")) /\
  (TrimSuffix "/api" "/" = "/api" ->
   createURIMatch Example.env
     {| k8s.m_Path := {| k8s.pm_Type := "Prefix"; k8s.pm_Value := "/api" |};
        k8s.m_Headers := None |} =
   createURIMatch Example.env
     {| k8s.m_Path := {| k8s.pm_Type := "Prefix"; k8s.pm_Value := "/api" ++ "/" |};
        k8s.m_Headers := None |}).
Proof.
  apply (createURIMatch_trailing_slash Example.env "Prefix" "/api" None).
  right. right. reflexivity.
Defined.


(** A backend policy with a reference to a service and one to a bucket. *)
Definition examplePolicy : config.Config := {|
  config.meta := Example.meta "BackendPolicy" "backends" "apps";
  config.spec := config.BackendPolicySpec {|
    k8s.bp_BackendRefs :=
      [ {| k8s.br_Group := ""; k8s.br_Kind := "Service"; k8s.br_Name := "reviews";
           k8s.br_Port := Some 9080 |};
        {| k8s.br_Group := "storage.example.io"; k8s.br_Kind := "Bucket";
           k8s.br_Name := "assets"; k8s.br_Port := None |} ];
    k8s.bp_TLS :=
      Some {| k8s.btls_CertificateAuthorityRef :=
                Some {| k8s.lor_Group := ""; k8s.lor_Kind := "Secret";
                        k8s.lor_Name := "ca" |} |} |};
  config.status := None
|}.

Definition policySnapshot (policies : list config.Config) : KubernetesResources := {|
  GatewayClass := [];
  Gateway := [];
  HTTPRoute := [];
  TCPRoute := [];
  TLSRoute := [];
  BackendPolicy := policies;
  Namespaces := ∅;
  Domain := "cluster.local"
|}.

Lemma examplePolicy_typed : Forall isBackendPolicy [examplePolicy].
Proof. apply Forall_cons_2; [by eexists|apply Forall_nil_2]. Qed.

Lemma convertDestinationRule_supported_witness :
  exists drs,
    convertDestinationRule Example.env (policySnapshot [examplePolicy]) Example.world =
      Some (drs, Example.world) /\
    drs = flat_map (destinationRulesOf Example.env (policySnapshot [examplePolicy]))
                   [examplePolicy] /\
    forall obj bp, config.spec obj = config.BackendPolicySpec bp ->
      length (destinationRulesOf Example.env (policySnapshot [examplePolicy]) obj) =
      length (List.filter (supportedRef Example.env) (k8s.bp_BackendRefs bp)).
Proof.
  apply (convertDestinationRule_supported Example.env (policySnapshot [examplePolicy])
           Example.world).
  exact examplePolicy_typed.
Defined.

Lemma convertDestinationRule_ill_typed_witness :
  convertDestinationRule Example.env (policySnapshot [Example.gateway]) Example.world = None.
Proof.
  apply (convertDestinationRule_ill_typed Example.env (policySnapshot [Example.gateway])).
  apply Exists_cons_hd. intros [bp Hbp]. discriminate Hbp.
Defined.

Lemma destinationRule_shape_witness :
  exists drc obj bp ref dr,
    destinationRulesOf Example.env (policySnapshot [examplePolicy]) examplePolicy = [drc] /\
    obj ∈ [examplePolicy] /\ config.spec obj = config.BackendPolicySpec bp /\
    ref ∈ k8s.bp_BackendRefs bp /\ supportedRef Example.env ref = true /\
    config.spec drc = config.IstioDestinationRule dr /\
    config.Namespace (config.meta drc) = config.Namespace (config.meta obj) /\
    (istio.tp_Tls (istio.dr_TrafficPolicy dr) = None \/
     istio.tp_PortLevelSettings (istio.dr_TrafficPolicy dr) = []) /\
    istio.dr_TrafficPolicy dr =
      match policyTLS Example.env bp, k8s.br_Port ref with
      | Some tls, Some port =>
          {| istio.tp_Tls := None;
             istio.tp_PortLevelSettings :=
               [ {| istio.ptp_Port := {| istio.Number := port mod 2 ^ 32 |};
                    istio.ptp_Tls := tls |} ] |}
      | Some tls, None =>
          {| istio.tp_Tls := Some tls; istio.tp_PortLevelSettings := [] |}
      | None, _ =>
          {| istio.tp_Tls := None; istio.tp_PortLevelSettings := [] |}
      end.
Proof.
  assert (exists drc,
            destinationRulesOf Example.env (policySnapshot [examplePolicy]) examplePolicy
            = [drc]) as [drc Hdrc] by (eexists; vm_compute; reflexivity).
  destruct (destinationRule_shape Example.env (policySnapshot [examplePolicy])
              Example.world Example.world [drc] drc)
    as (obj & bp & ref & dr & Hobj & Hspec & Href & Hsup & Hdr & _ & Hns & _ & Htls & _
        & Htp).
  - unfold convertDestinationRule.
    rewrite (convertDestinationRule_from Example.env (policySnapshot [examplePolicy])
               (BackendPolicy (policySnapshot [examplePolicy])) [] Example.world
               examplePolicy_typed).
    cbn [BackendPolicy policySnapshot flat_map app]. by rewrite Hdrc.
  - apply list_elem_of_here.
  - by exists drc, obj, bp, ref, dr.
Defined.

(** The rule of the example policy: the reference has the port 9080, and
    the TLS settings stand at that port only. *)
Example destinationRule_port_level :
  map (fun drc => match config.spec drc with
                  | config.IstioDestinationRule dr => Some (istio.dr_TrafficPolicy dr)
                  | _ => None
                  end)
      (destinationRulesOf Example.env (policySnapshot [examplePolicy]) examplePolicy) =
  [ Some {| istio.tp_Tls := None;
            istio.tp_PortLevelSettings :=
              [ {| istio.ptp_Port := {| istio.Number := 9080 |};
                   istio.ptp_Tls := {| istio.ctls_CredentialName := "ca";
                                       istio.ctls_Simple := true |} |} ] |} ].
Proof. vm_compute. reflexivity. Qed.

Lemma getGatewayClasses_names_witness :
  exists classes w',
    getGatewayClasses Example.snapshot Example.world = Some (classes, w') /\
    "istio" ∈ classes.
Proof.
  destruct (getGatewayClasses_names Example.snapshot Example.world)
    as (classes & w' & Hrun & Hnames).
  { apply Example_wellTyped. }
  exists classes, w'. split; [exact Hrun|]. apply Hnames.
  exists Example.gatewayClass. eexists.
  split; [apply list_elem_of_here|]. split; [reflexivity|]. split; reflexivity.
Defined.

Lemma convertGateway_gateways_witness :
  exists gws m w',
    convertGateway Example.env Example.snapshot Example.world = Some ((gws, m), w') /\
    map (fun g => config.Name (config.meta g)) gws =
      ["gateway-istio-autogenerated-k8s-gateway"].
Proof.
  destruct (convertGateway_gateways Example.env Example.snapshot Example.world)
    as (gws & m & w' & Hrun & Hgws & _).
  { apply Example_wellTyped. }
  { apply Example_wellTyped. }
  exists gws, m, w'. split; [exact Hrun|]. rewrite Hgws. vm_compute. reflexivity.
Defined.

Lemma convertGateway_servers_witness :
  exists gws m w' g gw,
    convertGateway Example.env Example.snapshot Example.world = Some ((gws, m), w') /\
    g ∈ gws /\
    config.spec g = config.IstioGateway gw /\
    length (istio.g_Servers gw) = 2%nat.
Proof.
  destruct (convertGateway_servers Example.env Example.snapshot Example.world
              Example.gateway exampleGatewaySpec)
    as (gws & m & w' & g & gw & Hrun & Hg & _ & Hspec & Hlen & _).
  { apply Example_wellTyped. }
  { apply Example_wellTyped. }
  { apply list_elem_of_here. }
  { reflexivity. }
  { apply (bool_decide_unpack _). vm_compute. exact I. }
  by exists gws, m, w', g, gw.
Defined.

Lemma ownerName_reference_witness :
  gatewayReferenceOf (ownerName Example.env Example.gateway) Example.world =
  Some ({| k8s.gr_Name := "gateway" ++ "-" ++ "istio-autogenerated-k8s-gateway";
           k8s.gr_Namespace := "apps" |}, Example.world).
Proof.
  apply (ownerName_reference Example.env Example.gateway Example.world); reflexivity.
Defined.

Lemma convertVirtualService_output_witness :
  exists vs w',
    convertVirtualService Example.env Example.snapshot
      (routeOwners Example.env Example.snapshot) Example.world = Some (vs, w') /\
    map (fun v => config.Name (config.meta v)) vs =
      ["reviews-istio-autogenerated-k8s-gateway"].
Proof.
  destruct (convertVirtualService_output Example.env Example.snapshot
              (routeOwners Example.env Example.snapshot)
              (ownersWf_routeOwners Example.env Example.snapshot) Example.world)
    as (vs & w' & Hrun & Hnames & _).
  { apply Example_wellTyped. }
  { apply Example_wellTyped. }
  { apply Example_wellTyped. }
  exists vs, w'. split; [exact Hrun|]. rewrite Hnames. vm_compute. reflexivity.
Defined.

Lemma convertGateway_keys_witness :
  exists gws m w',
    convertGateway Example.env Example.snapshot Example.world = Some ((gws, m), w') /\
    is_Some (m !! toRouteKey
                    (Example.httpRoute "reviews" "apps" Example.sameNamespace 3%positive)).
Proof.
  destruct (convertGateway_keys Example.env Example.snapshot Example.world)
    as (gws & m & w' & Hrun & _ & Hkeys).
  { apply Example_wellTyped. }
  { apply Example_wellTyped. }
  exists gws, m, w'. split; [exact Hrun|]. apply Hkeys. left.
  exists Example.gateway, exampleGatewaySpec, (Example.listener 80),
         (Example.httpRoute "reviews" "apps" Example.sameNamespace 3%positive).
  split; [apply list_elem_of_here|]. split; [reflexivity|].
  split; [apply (bool_decide_unpack _); vm_compute; exact I|].
  split; [apply list_elem_of_here|]. split; [apply list_elem_of_here|].
  split; [vm_compute; reflexivity | reflexivity].
Defined.


Definition exampleTerminate : k8s.GatewayTLSConfig := {|
  k8s.gtls_Mode := "Terminate";
  k8s.gtls_CertificateRef :=
    Some {| k8s.lor_Group := ""; k8s.lor_Kind := "Secret"; k8s.lor_Name := "cert" |}
|}.

Lemma buildTLS_credential_witness :
  (exists t ref,
     Some exampleTerminate = Some t /\ k8s.gtls_CertificateRef t = Some ref /\
     "cert" = k8s.lor_Name ref) /\
  buildTLS Example.env
    (Some {| k8s.gtls_Mode := "Terminate"; k8s.gtls_CertificateRef := None |}) = None.
Proof.
  split.
  - destruct (proj1 (buildTLS_credential Example.env (Some exampleTerminate))
                {| istio.stls_HttpsRedirect := false;
                   istio.stls_Mode := istio.ServerTLSSettings_SIMPLE;
                   istio.stls_CredentialName := "cert" |})
      as (_ & t & ref & Ht & Hcert & Hname & _).
    + reflexivity.
    + discriminate.
    + by exists t, ref.
  - eapply (proj2 (buildTLS_credential Example.env _)).
    + reflexivity.
    + right. reflexivity.
    + reflexivity.
Defined.

Lemma createRouteStatus_owner_format_witness :
  (exists gws w',
     createRouteStatus ["apps/gateway-istio-autogenerated-k8s-gateway"; "mesh"]
       Example.gateway Example.world = Some (gws, w') /\
     length gws = 2%nat) /\
  createRouteStatus ["gateway"] Example.gateway Example.world = None.
Proof.
  split.
  - destruct (proj1 (createRouteStatus_owner_format
                       ["apps/gateway-istio-autogenerated-k8s-gateway"; "mesh"]
                       Example.gateway Example.world))
      as (gws & w' & Hrun & Hlen & _).
    + repeat constructor.
    + by exists gws, w'.
  - apply (proj2 (createRouteStatus_owner_format ["gateway"] Example.gateway Example.world)).
    apply Exists_cons_hd. reflexivity.
Defined.

End FurtherRuns.

(** ** The owners of a route, from the map to the virtual service and the status *)

Section StatusLoop.

Variable env : Env.
Variable r : KubernetesResources.
Variable routeMap : gmap RouteKey (list string).
Hypothesis routeMap_wf : ownersWf routeMap.

(** The status of a route lists the references of the given owners, one
    entry per owner, in their order. *)
Definition statusLists (wrap : k8s.RouteStatus -> config.Status) (w : World)
    (obj : config.Config) (gateways : list string) : Prop :=
  exists l rs,
    config.status obj = Some l /\
    statuses w !! l = Some (wrap rs) /\
    map k8s.rgs_GatewayRef (k8s.rs_Gateways rs) = map referenceOf gateways.

(** What one turn of a route loop does to the statuses: it writes the status
    of its route only, and lists the owners of the route there. *)
Definition writesOwn (k : StatusKind) (wrap : k8s.RouteStatus -> config.Status)
    (body : list config.Config -> config.Config -> M (list config.Config)) : Prop :=
  forall acc obj w, typed w k obj ->
    exists res w',
      body acc obj w = Some (res, w') /\ kinds w' = kinds w /\
      (forall l, config.status obj <> Some l -> statuses w' !! l = statuses w !! l) /\
      (forall gateways, routeMap !! toRouteKey obj = Some gateways ->
         statusLists wrap w' obj gateways).

Lemma routeLoop_statuses (k : StatusKind) (wrap : k8s.RouteStatus -> config.Status)
    (body : list config.Config -> config.Config -> M (list config.Config))
    (l : list config.Config) :
  writesOwn k wrap body ->
  forall acc w, Forall (typed w k) l -> NoDup (map config.status l) ->
    exists res w',
      foldM body acc l w = Some (res, w') /\ kinds w' = kinds w /\
      (forall l', Some l' ∉ map config.status l -> statuses w' !! l' = statuses w !! l') /\
      (forall obj gateways, obj ∈ l -> routeMap !! toRouteKey obj = Some gateways ->
         statusLists wrap w' obj gateways).
Proof.
  intros Hstep. induction l as [|obj l IH]; intros acc w Hl Hnd.
  - exists acc, w. split; [reflexivity|]. split; [reflexivity|]. split; [done|].
    intros obj gateways Hobj. by apply elem_of_nil in Hobj.
  - inversion Hl as [|? ? Hobj Hrest]; subst.
    cbn [map] in Hnd. apply NoDup_cons in Hnd as [Hfresh Hnd].
    destruct (Hstep acc obj w Hobj) as (res1 & w1 & Hrun1 & Hk1 & Hframe1 & Hown1).
    destruct (IH res1 w1) as (res2 & w2 & Hrun2 & Hk2 & Hframe2 & Hown2).
    { eapply Forall_typed_kinds; [exact Hk1 | exact Hrest]. }
    { exact Hnd. }
    exists res2, w2. cbn [foldM]. erewrite bind_run by exact Hrun1.
    split; [exact Hrun2|]. split; [congruence|]. split.
    + intros l' Hl'. cbn [map] in Hl'. apply not_elem_of_cons in Hl' as [Hne Hl'].
      rewrite (Hframe2 l' Hl'). apply Hframe1. congruence.
    + intros obj' gateways Hin Hg. apply elem_of_cons in Hin as [->|Hin].
      * destruct (Hown1 gateways Hg) as (l0 & rs & Hst & Hw & Hrefs).
        exists l0, rs. split; [exact Hst|]. split; [|exact Hrefs].
        rewrite Hframe2; [exact Hw|]. by rewrite <- Hst.
      * by apply Hown2.
Qed.

Lemma tcpBody_writesOwn : writesOwn KTCPRoute config.TCPRouteStatus (tcpBody env r routeMap).
Proof.
  intros acc obj w Hobj.
  destruct (typed_TCPRoute w obj Hobj) as (route & l & rs & Hspec & Hst & Hl).
  unfold tcpBody. destruct (routeMap !! toRouteKey obj) as [gateways|] eqn:Hg.
  - eexists _, _. erewrite bind_run
      by (apply (buildTCPVirtualService_run env obj route l rs); eauto using routeMap_wf).
    split; [reflexivity|].
    split; [by apply (kinds_insert w _ l (config.TCPRouteStatus rs))|]. split.
    + intros l' Hne. unfold routeWritten, tick. simpl.
      apply lookup_insert_ne. congruence.
    + intros gateways' [= <-]. eexists l, _. split; [exact Hst|]. split.
      * unfold routeWritten, tick. simpl. apply lookup_insert_eq.
      * simpl. apply routeStatusOf_refs.
  - exists acc, w. split; [reflexivity|]. split; [reflexivity|]. split; [done|].
    intros gateways' Hg'. discriminate Hg'.
Qed.

Lemma tlsBody_writesOwn : writesOwn KTLSRoute config.TLSRouteStatus (tlsBody env r routeMap).
Proof.
  intros acc obj w Hobj.
  destruct (typed_TLSRoute w obj Hobj) as (route & l & rs & Hspec & Hst & Hl).
  unfold tlsBody. destruct (routeMap !! toRouteKey obj) as [gateways|] eqn:Hg.
  - eexists _, _. erewrite bind_run
      by (apply (buildTLSVirtualService_run env obj route l rs); eauto using routeMap_wf).
    split; [reflexivity|].
    split; [by apply (kinds_insert w _ l (config.TLSRouteStatus rs))|]. split.
    + intros l' Hne. unfold routeWritten, tick. simpl.
      apply lookup_insert_ne. congruence.
    + intros gateways' [= <-]. eexists l, _. split; [exact Hst|]. split.
      * unfold routeWritten, tick. simpl. apply lookup_insert_eq.
      * simpl. apply routeStatusOf_refs.
  - exists acc, w. split; [reflexivity|]. split; [reflexivity|]. split; [done|].
    intros gateways' Hg'. discriminate Hg'.
Qed.

Lemma httpBody_writesOwn :
  writesOwn KHTTPRoute config.HTTPRouteStatus (httpBody env r routeMap).
Proof.
  intros acc obj w Hobj.
  destruct (typed_HTTPRoute w obj Hobj) as (route & l & rs & Hspec & Hst & Hl).
  unfold httpBody. destruct (routeMap !! toRouteKey obj) as [gateways|] eqn:Hg.
  - eexists _, _. erewrite bind_run
      by (apply (buildHTTPVirtualServices_run env obj route l rs); eauto using routeMap_wf).
    split; [reflexivity|].
    split; [by apply (kinds_insert w _ l (config.HTTPRouteStatus rs))|]. split.
    + intros l' Hne. unfold routeWritten, tick. simpl.
      apply lookup_insert_ne. congruence.
    + intros gateways' [= <-]. eexists l, _. split; [exact Hst|]. split.
      * unfold routeWritten, tick. simpl. apply lookup_insert_eq.
      * simpl. apply routeStatusOf_refs.
  - exists acc, w. split; [reflexivity|]. split; [reflexivity|]. split; [done|].
    intros gateways' Hg'. discriminate Hg'.
Qed.

Lemma statusLists_frame (wrap : k8s.RouteStatus -> config.Status) (w w' : World)
    (obj : config.Config) (gateways : list string) (l : list config.Config) :
  (forall l', Some l' ∉ map config.status l -> statuses w' !! l' = statuses w !! l') ->
  config.status obj ∉ map config.status l ->
  statusLists wrap w obj gateways -> statusLists wrap w' obj gateways.
Proof.
  intros Hframe Hout (l0 & rs & Hst & Hw & Hrefs). exists l0, rs.
  split; [exact Hst|]. split; [|exact Hrefs]. rewrite Hframe; [exact Hw|].
  by rewrite <- Hst.
Qed.

(** With every route holding a status object of its own, the run of
    [convertVirtualService] leaves in the status of every route with an
    entry in the map one entry per owner of the route. *)
Lemma convertVirtualService_statuses (w : World) :
  Forall (typed w KTCPRoute) (TCPRoute r) ->
  Forall (typed w KTLSRoute) (TLSRoute r) ->
  Forall (typed w KHTTPRoute) (HTTPRoute r) ->
  NoDup (map config.status (TCPRoute r ++ TLSRoute r ++ HTTPRoute r)) ->
  exists res w',
    convertVirtualService env r routeMap w = Some (res, w') /\
    forall obj gateways, routeMap !! toRouteKey obj = Some gateways ->
      (obj ∈ TCPRoute r -> statusLists config.TCPRouteStatus w' obj gateways) /\
      (obj ∈ TLSRoute r -> statusLists config.TLSRouteStatus w' obj gateways) /\
      (obj ∈ HTTPRoute r -> statusLists config.HTTPRouteStatus w' obj gateways).
Proof.
  intros Htcp Htls Hhttp Hnd. rewrite convertVirtualService_bodies.
  rewrite !map_app in Hnd.
  apply NoDup_app in Hnd as (Hnd1 & Hd1 & Hnd).
  apply NoDup_app in Hnd as (Hnd2 & Hd2 & Hnd3).
  destruct (routeLoop_statuses KTCPRoute config.TCPRouteStatus _ (TCPRoute r)
              tcpBody_writesOwn [] w Htcp Hnd1) as (res1 & w1 & Hrun1 & Hk1 & _ & Hown1).
  destruct (routeLoop_statuses KTLSRoute config.TLSRouteStatus _ (TLSRoute r)
              tlsBody_writesOwn res1 w1) as (res2 & w2 & Hrun2 & Hk2 & Hf2 & Hown2).
  { eapply Forall_typed_kinds; [exact Hk1 | exact Htls]. }
  { exact Hnd2. }
  destruct (routeLoop_statuses KHTTPRoute config.HTTPRouteStatus _ (HTTPRoute r)
              httpBody_writesOwn res2 w2) as (res3 & w3 & Hrun3 & Hk3 & Hf3 & Hown3).
  { eapply Forall_typed_kinds; [|exact Hhttp]. congruence. }
  { exact Hnd3. }
  exists res3, w3. erewrite bind_run by exact Hrun1. erewrite bind_run by exact Hrun2.
  split; [exact Hrun3|]. intros obj gateways Hg. split; [|split]; intros Hobj.
  - assert (config.status obj ∈ map config.status (TCPRoute r)) as Hin
      by (by apply list_elem_of_fmap_2).
    pose proof (Hd1 _ Hin) as Hout. rewrite elem_of_app in Hout.
    eapply statusLists_frame; [exact Hf3 | tauto |].
    eapply statusLists_frame; [exact Hf2 | tauto |]. by apply Hown1.
  - assert (config.status obj ∈ map config.status (TLSRoute r)) as Hin
      by (by apply list_elem_of_fmap_2).
    eapply statusLists_frame; [exact Hf3 | by apply Hd2 |]. by apply Hown2.
  - by apply Hown3.
Qed.

End StatusLoop.

Section OwnersPropagate.

Variable env : Env.
Variable r : KubernetesResources.

(** The virtual service that [convertVirtualService] emits for a route with
    the given owners: named after the route, in its namespace, with the
    owners as its gateways. *)
Definition emittedFor (vs : list config.Config) (obj : config.Config)
    (infix : string) (gateways : list string) : Prop :=
  exists v x,
    v ∈ vs /\
    config.Name (config.meta v) =
      (config.Name (config.meta obj) ++ infix ++ env_KubernetesGatewayName env)%string /\
    config.Namespace (config.meta v) = config.Namespace (config.meta obj) /\
    config.spec v = config.IstioVirtualService x /\
    istio.vs_Gateways x = gateways.

(** C10: the ownership map that [convertGateway] returns lists, for every
    route key, the gateways of the snapshot in their order, each admitted
    gateway as often as its listeners select a route with that key, followed
    by the mesh token; nothing is deduplicated.  When route keys are unique,
    an admitted gateway occurs once per listener that matches the route.
    [convertVirtualService], run with this map on routes that carry a status
    of their kind, emits for every TCP, TLS and HTTP route with an entry a
    virtual service whose gateways are the list of the entry as it is, and,
    when every route has a status object of its own, leaves in the status of
    every such route one entry per element of the list, in the order of the
    list.  Each of the three builders puts the list it is given into the
    virtual service as it is, and writes a status with one entry per element
    of the list, in the order of the list. *)
Theorem owners_not_deduplicated (w : World) :
  Forall (typed w KGatewayClass) (GatewayClass r) ->
  Forall (typed w KGateway) (Gateway r) ->
  exists gws m w',
    convertGateway env r w = Some ((gws, m), w') /\
    (forall k,
       owners m k =
       flat_map (fun obj => replicate (gatewayMatches env r (ownedClasses r) k obj)
                                      (ownerName env obj)) (Gateway r) ++
       replicate
         (length (List.filter (fun k' => bool_decide (k' = k)) (fetchMeshRoutes r)))
         experimentalMeshGatewayName) /\
    (NoDup (map toRouteKey (HTTPRoute r ++ TCPRoute r ++ TLSRoute r)) ->
     forall obj kgw c,
       config.spec obj = config.GatewaySpec kgw ->
       k8s.gs_GatewayClassName kgw ∈ ownedClasses r ->
       c ∈ HTTPRoute r ++ TCPRoute r ++ TLSRoute r ->
       gatewayMatches env r (ownedClasses r) (toRouteKey c) obj =
       length (List.filter
                 (fun l => isRouteMatch env c (config.meta obj) (k8s.l_Routes l)
                             (Namespaces r))
                 (k8s.gs_Listeners kgw))) /\
    (forall w0,
       Forall (typed w0 KTCPRoute) (TCPRoute r) ->
       Forall (typed w0 KTLSRoute) (TLSRoute r) ->
       Forall (typed w0 KHTTPRoute) (HTTPRoute r) ->
       exists vs w1,
         convertVirtualService env r m w0 = Some (vs, w1) /\
         (forall obj gateways, m !! toRouteKey obj = Some gateways ->
            (obj ∈ TCPRoute r -> emittedFor vs obj "-tcp-" gateways) /\
            (obj ∈ TLSRoute r -> emittedFor vs obj "-tls-" gateways) /\
            (obj ∈ HTTPRoute r -> emittedFor vs obj "-" gateways)) /\
         (NoDup (map config.status (TCPRoute r ++ TLSRoute r ++ HTTPRoute r)) ->
          forall obj gateways, m !! toRouteKey obj = Some gateways ->
            (obj ∈ TCPRoute r -> statusLists config.TCPRouteStatus w1 obj gateways) /\
            (obj ∈ TLSRoute r -> statusLists config.TLSRouteStatus w1 obj gateways) /\
            (obj ∈ HTTPRoute r -> statusLists config.HTTPRouteStatus w1 obj gateways))) /\
    (forall obj route l rs gateways w0,
       config.spec obj = config.HTTPRouteSpec route ->
       config.status obj = Some l ->
       statuses w0 !! l = Some (config.HTTPRouteStatus rs) ->
       m !! toRouteKey obj = Some gateways ->
       exists vs v w1 rs',
         buildHTTPVirtualServices env obj gateways (Domain r) w0 = Some ([vs], w1) /\
         config.spec vs = config.IstioVirtualService v /\
         istio.vs_Gateways v = gateways /\
         statuses w1 !! l = Some (config.HTTPRouteStatus rs') /\
         map k8s.rgs_GatewayRef (k8s.rs_Gateways rs') = map referenceOf gateways) /\
    (forall obj route l rs gateways w0,
       config.spec obj = config.TCPRouteSpec route ->
       config.status obj = Some l ->
       statuses w0 !! l = Some (config.TCPRouteStatus rs) ->
       m !! toRouteKey obj = Some gateways ->
       exists vs v w1 rs',
         buildTCPVirtualService env obj gateways (Domain r) w0 = Some (vs, w1) /\
         config.spec vs = config.IstioVirtualService v /\
         istio.vs_Gateways v = gateways /\
         statuses w1 !! l = Some (config.TCPRouteStatus rs') /\
         map k8s.rgs_GatewayRef (k8s.rs_Gateways rs') = map referenceOf gateways) /\
    (forall obj route l rs gateways w0,
       config.spec obj = config.TLSRouteSpec route ->
       config.status obj = Some l ->
       statuses w0 !! l = Some (config.TLSRouteStatus rs) ->
       m !! toRouteKey obj = Some gateways ->
       exists vs v w1 rs',
         buildTLSVirtualService env obj gateways (Domain r) w0 = Some (vs, w1) /\
         config.spec vs = config.IstioVirtualService v /\
         istio.vs_Gateways v = gateways /\
         statuses w1 !! l = Some (config.TLSRouteStatus rs') /\
         map k8s.rgs_GatewayRef (k8s.rs_Gateways rs') = map referenceOf gateways).
Proof.
  intros Hc Hg. destruct (convertGateway_run env r w Hc Hg) as (w' & Hrun & _).
  exists (acc_result (gatewaysOf env r)), (routeOwners env r), w'.
  split; [exact Hrun|]. split; [apply owners_routeOwners|].
  split; [intros Hnd obj kgw c; by apply gatewayMatches_unique|].
  split; [|split; [|split]].
  - intros w0 Htcp Htls Hhttp.
    destruct (convertVirtualService_run env r (routeOwners env r)
                (ownersWf_routeOwners env r) w0 Htcp Htls Hhttp) as (w1 & Hrun1 & _).
    eexists _, w1. split; [exact Hrun1|]. split; [|intros Hnd].
    2:{ destruct (convertVirtualService_statuses env r (routeOwners env r)
                    (ownersWf_routeOwners env r) w0 Htcp Htls Hhttp Hnd)
          as (res & w2 & Hrun2 & Hst).
        rewrite Hrun1 in Hrun2. injection Hrun2 as _ <-. exact Hst. }
    intros obj gateways Hm. split; [|split]; intros Hobj.
    + destruct (typed_TCPRoute w0 obj (proj1 (Forall_forall _ _) Htcp obj Hobj))
        as (route & l & rs & Hspec & _).
      exists (tcpVirtualService env obj route gateways (Domain r)). eexists.
      split; [|by repeat split].
      rewrite !elem_of_app. left. apply list_elem_of_In, in_flat_map.
      exists obj. split; [by apply list_elem_of_In|].
      unfold tcpOut. rewrite Hm, Hspec. by left.
    + destruct (typed_TLSRoute w0 obj (proj1 (Forall_forall _ _) Htls obj Hobj))
        as (route & l & rs & Hspec & _).
      exists (tlsVirtualService env obj route gateways (Domain r)). eexists.
      split; [|by repeat split].
      rewrite !elem_of_app. right. left. apply list_elem_of_In, in_flat_map.
      exists obj. split; [by apply list_elem_of_In|].
      unfold tlsOut. rewrite Hm, Hspec. by left.
    + destruct (typed_HTTPRoute w0 obj (proj1 (Forall_forall _ _) Hhttp obj Hobj))
        as (route & l & rs & Hspec & _).
      exists (httpVirtualService env obj route gateways (Domain r)). eexists.
      split; [|by repeat split].
      rewrite !elem_of_app. right. right. apply list_elem_of_In, in_flat_map.
      exists obj. split; [by apply list_elem_of_In|].
      unfold httpOut. rewrite Hm, Hspec. by left.
  - intros obj route l rs gateways w0 Hspec Hstatus Hst Hm.
    pose proof (ownersWf_routeOwners _ _ _ _ Hm) as Hwf.
    eexists _, _, _, _. split.
    { by apply (buildHTTPVirtualServices_run env obj route l rs). }
    split; [reflexivity|]. split; [reflexivity|]. split.
    { unfold routeWritten, tick. simpl. apply lookup_insert_eq. }
    simpl. apply routeStatusOf_refs.
  - intros obj route l rs gateways w0 Hspec Hstatus Hst Hm.
    pose proof (ownersWf_routeOwners _ _ _ _ Hm) as Hwf.
    eexists _, _, _, _. split.
    { by apply (buildTCPVirtualService_run env obj route l rs). }
    split; [reflexivity|]. split; [reflexivity|]. split.
    { unfold routeWritten, tick. simpl. apply lookup_insert_eq. }
    simpl. apply routeStatusOf_refs.
  - intros obj route l rs gateways w0 Hspec Hstatus Hst Hm.
    pose proof (ownersWf_routeOwners _ _ _ _ Hm) as Hwf.
    eexists _, _, _, _. split.
    { by apply (buildTLSVirtualService_run env obj route l rs). }
    split; [reflexivity|]. split; [reflexivity|]. split.
    { unfold routeWritten, tick. simpl. apply lookup_insert_eq. }
    simpl. apply routeStatusOf_refs.
Qed.

End OwnersPropagate.

(** The route of the example is selected by both listeners of the gateway:
    the gateway is listed twice in the map, in the virtual service and in
    the status of the route. *)
Lemma owners_not_deduplicated_witness :
  exists gws m w' vs w1 v x w2 rs',
    convertGateway Example.env Example.snapshot Example.world = Some ((gws, m), w') /\
    m !! toRouteKey (Example.httpRoute "reviews" "apps" Example.sameNamespace 3%positive) =
      Some ["apps/gateway-istio-autogenerated-k8s-gateway";
            "apps/gateway-istio-autogenerated-k8s-gateway"]%string /\
    convertVirtualService Example.env Example.snapshot m Example.world = Some (vs, w1) /\
    emittedFor Example.env vs
      (Example.httpRoute "reviews" "apps" Example.sameNamespace 3%positive) "-"
      ["apps/gateway-istio-autogenerated-k8s-gateway";
       "apps/gateway-istio-autogenerated-k8s-gateway"]%string /\
    buildHTTPVirtualServices Example.env
      (Example.httpRoute "reviews" "apps" Example.sameNamespace 3%positive)
      ["apps/gateway-istio-autogenerated-k8s-gateway";
       "apps/gateway-istio-autogenerated-k8s-gateway"]%string
      (Domain Example.snapshot) Example.world = Some ([v], w2) /\
    config.spec v = config.IstioVirtualService x /\
    istio.vs_Gateways x =
      ["apps/gateway-istio-autogenerated-k8s-gateway";
       "apps/gateway-istio-autogenerated-k8s-gateway"]%string /\
    statuses w2 !! 3%positive = Some (config.HTTPRouteStatus rs') /\
    length (k8s.rs_Gateways rs') = 2%nat /\
    statusLists config.HTTPRouteStatus w1
      (Example.httpRoute "reviews" "apps" Example.sameNamespace 3%positive)
      ["apps/gateway-istio-autogenerated-k8s-gateway";
       "apps/gateway-istio-autogenerated-k8s-gateway"]%string.
Proof.
  destruct (owners_not_deduplicated Example.env Example.snapshot Example.world)
    as (gws & m & w' & Hrun & Hown & _ & Hvs & Hhttp & _).
  { apply Example_wellTyped. }
  { apply Example_wellTyped. }
  set (route := Example.httpRoute "reviews" "apps" Example.sameNamespace 3%positive).
  assert (m !! toRouteKey route =
          Some ["apps/gateway-istio-autogenerated-k8s-gateway";
                "apps/gateway-istio-autogenerated-k8s-gateway"]%string) as Hm.
  { pose proof (Hown (toRouteKey route)) as Hk. unfold owners in Hk.
    destruct (m !! toRouteKey route) as [os|]; simpl in Hk.
    - rewrite Hk. vm_compute. reflexivity.
    - exfalso. revert Hk. vm_compute. discriminate. }
  destruct (Hvs Example.world) as (vs & w1 & Hrun1 & Hem & Hstat).
  { apply Example_wellTyped. }
  { apply Example_wellTyped. }
  { apply Example_wellTyped. }
  destruct (Hem route _ Hm) as (_ & _ & Hemitted).
  specialize (Hemitted (list_elem_of_here _ _)).
  assert (NoDup (map config.status (TCPRoute Example.snapshot ++
                                    TLSRoute Example.snapshot ++
                                    HTTPRoute Example.snapshot))) as Hnd.
  { apply (bool_decide_unpack _). vm_compute. exact I. }
  destruct (Hstat Hnd route _ Hm) as (_ & _ & Hlisted).
  specialize (Hlisted (list_elem_of_here _ _)).
  destruct (Hhttp route _ 3%positive {| k8s.rs_Gateways := [] |} _ Example.world
              eq_refl eq_refl eq_refl Hm)
    as (v & x & w2 & rs' & Hb & Hspec & Hgw & Hst & Hrefs).
  exists gws, m, w', vs, w1, v, x, w2, rs'.
  repeat (split; [assumption|]). split; [|exact Hlisted].
  rewrite <- (length_map k8s.rgs_GatewayRef), Hrefs. reflexivity.
Defined.
